(** * wxMaxima: the XML-to-cell parser and three representative cells

    A shallow embedding of [MathParser.cpp], [FunCell.cpp], [LimitCell.cpp]
    and the setters and serializers of [SubSupCell.cpp].

    - [wxString] is a sequence of code units, with the wxWidgets string
      functions the sources call ([Find], [SubString], [Left], [Right],
      [Trim], [Replace], the tokenizer).
    - A [wxXmlNode*] is the list made of the node and its following
      siblings; the null pointer is the empty list.
    - Cells form an ownership tree: an owning pointer to the head of an
      [m_next] chain is the list of the cells of the chain, the null
      pointer is the empty list.  Raw, non-owning pointers (the draw
      chain) are addresses; every cell carries the address it was
      allocated at.
    - The parser runs in a state monad with three outcomes: a value, a
      crash (a null dereference or an uncaught exception) or the
      exhaustion of the fuel that bounds loops and recursion. *)

From Stdlib Require Import List ZArith NArith Bool Ascii String Lia.
Import ListNotations.
Open Scope Z_scope.
Set Warnings "-register-all".

(** ** wxString *)

Module wx.

Definition wxUniChar := N.
Definition wxString := list wxUniChar.

Definition wxEmptyString : wxString := [].

(** [wxT("...")]: a literal. *)
Definition wxT (s : string) : wxString :=
  map N_of_ascii (list_ascii_of_string s).

(** A text between double quotes. *)
Definition quoted (s : wxString) : wxString := [34%N] ++ s ++ [34%N].

Definition wxNOT_FOUND : Z := -1.

(** [size_t] is 64 bits wide; [int] results converted to [size_t] wrap. *)
Definition size_t (z : Z) : Z := z mod 2 ^ 64.
Definition npos : Z := 2 ^ 64 - 1.

Definition Length (s : wxString) : Z := Z.of_nat (List.length s).

Definition IsEmpty (s : wxString) : bool :=
  match s with [] => true | _ => false end.

Fixpoint eqb (a b : wxString) : bool :=
  match a, b with
  | [], [] => true
  | x :: a', y :: b' => N.eqb x y && eqb a' b'
  | _, _ => false
  end.

Fixpoint StartsWith (s p : wxString) : bool :=
  match p, s with
  | [], _ => true
  | x :: p', y :: s' => N.eqb x y && StartsWith s' p'
  | _ :: _, [] => false
  end.

(** [find_from sub s i]: the index, counted from [i], of the first
    occurrence of [sub] in [s]. *)
Fixpoint find_from (sub s : wxString) (i : Z) : Z :=
  if StartsWith s sub then i
  else match s with
       | [] => wxNOT_FOUND
       | _ :: s' => find_from sub s' (i + 1)
       end.

(** [wxString::Find(sub)], an [int]. *)
Definition Find (s sub : wxString) : Z := find_from sub s 0.

Definition Contains (s sub : wxString) : bool :=
  negb (Find s sub =? wxNOT_FOUND).

(** [wxString::Mid(nFirst, nCount)]: out-of-bounds requests are clamped. *)
Definition Mid (s : wxString) (nFirst nCount : Z) : wxString :=
  let nLen := Length s in
  if nLen <? nFirst then wxEmptyString
  else firstn (Z.to_nat (Z.min nCount (nLen - nFirst)))
              (skipn (Z.to_nat nFirst) s).

(** [wxString::SubString(from, to)] is [Mid(from, to - from + 1)], the
    arithmetic being that of [size_t]. *)
Definition SubString (s : wxString) (from to : Z) : wxString :=
  Mid s (size_t from) (size_t (size_t to - size_t from + 1)).

(** [std::basic_string::substr]: throws when [pos] is past the end. *)
Definition substr (s : wxString) (pos n : Z) : option wxString :=
  if Length s <? size_t pos then None
  else Some (Mid s (size_t pos) (size_t n)).

Definition Left (s : wxString) (nCount : Z) : wxString :=
  let n := size_t nCount in
  firstn (Z.to_nat (Z.min n (Length s))) s.

Definition Right (s : wxString) (nCount : Z) : wxString :=
  let n := Z.min (size_t nCount) (Length s) in
  skipn (Z.to_nat (Length s - n)) s.

(** [wxIsspace] on the characters the parser meets. *)
Definition wxIsspace (c : wxUniChar) : bool :=
  (N.eqb c 32 || (N.leb 9 c && N.leb c 13))%bool.

Fixpoint drop_leading_space (s : wxString) : wxString :=
  match s with
  | c :: s' => if wxIsspace c then drop_leading_space s' else s
  | [] => []
  end.

(** [wxString::Trim(fromRight)]; the default is [fromRight = true]. *)
Definition Trim (fromRight : bool) (s : wxString) : wxString :=
  if fromRight then rev (drop_leading_space (rev s))
  else drop_leading_space s.

(** [wxString::Replace(old, new)] with [replaceAll = true]; [old] is not
    empty at any call site.  The fuel is the length of the string. *)
Fixpoint replace_fuel (n : nat) (old new s : wxString) : wxString :=
  match n with
  | O => s
  | S n' =>
      match s with
      | [] => []
      | c :: s' =>
          if StartsWith s old && negb (IsEmpty old)
          then new ++ replace_fuel n' old new (skipn (List.length old) s)
          else c :: replace_fuel n' old new s'
      end
  end.

Definition Replace (s old new : wxString) : wxString :=
  replace_fuel (List.length s) old new s.

(** [wxStringTokenizer]: [split delim s] cuts [s] at every [delim]. *)
Fixpoint split_acc (delim : wxUniChar) (s acc : wxString) : list wxString :=
  match s with
  | [] => [rev acc]
  | c :: s' =>
      if N.eqb c delim then rev acc :: split_acc delim s' []
      else split_acc delim s' (c :: acc)
  end.

Definition split (delim : wxUniChar) (s : wxString) : list wxString :=
  split_acc delim s [].

(** The tokenizer in [wxTOKEN_STRTOK] mode (what a whitespace delimiter
    selects): empty tokens are never returned. *)
Definition tokens_strtok (delim : wxUniChar) (s : wxString) : list wxString :=
  filter (fun t => negb (IsEmpty t)) (split delim s).

(** The tokenizer in [wxTOKEN_RET_EMPTY] mode (any other delimiter): empty
    tokens are returned, except a trailing one. *)
Definition tokens_ret_empty (delim : wxUniChar) (s : wxString) : list wxString :=
  let ts := split delim s in
  match rev ts with
  | [] :: r => rev r
  | _ => ts
  end.

(** [wxString::ToLong]: an optional sign and decimal digits, nothing else. *)
Definition digit_of (c : wxUniChar) : option Z :=
  if (N.leb 48 c && N.leb c 57)%bool then Some (Z.of_N c - 48) else None.

Fixpoint digits_val (s : wxString) (acc : Z) : option Z :=
  match s with
  | [] => Some acc
  | c :: s' =>
      match digit_of c with
      | Some d => digits_val s' (10 * acc + d)
      | None => None
      end
  end.

Definition ToLong (s : wxString) : option Z :=
  let s := drop_leading_space s in
  let in_range v := if (- 2 ^ 63 <=? v) && (v <? 2 ^ 63) then Some v else None in
  match s with
  | [] => None
  | 45%N :: ((_ :: _) as d) =>
      match digits_val d 0 with Some v => in_range (- v) | None => None end
  | 43%N :: ((_ :: _) as d) =>
      match digits_val d 0 with Some v => in_range v | None => None end
  | _ => match digits_val s 0 with Some v => in_range v | None => None end
  end.

End wx.
Import wx.

(** ** wxXmlNode *)

Inductive wxXmlNodeType :=
| wxXML_ELEMENT_NODE
| wxXML_TEXT_NODE
| wxXML_CDATA_SECTION_NODE
| wxXML_COMMENT_NODE.

Definition wxXmlNodeType_eqb (a b : wxXmlNodeType) : bool :=
  match a, b with
  | wxXML_ELEMENT_NODE, wxXML_ELEMENT_NODE
  | wxXML_TEXT_NODE, wxXML_TEXT_NODE
  | wxXML_CDATA_SECTION_NODE, wxXML_CDATA_SECTION_NODE
  | wxXML_COMMENT_NODE, wxXML_COMMENT_NODE => true
  | _, _ => false
  end.

Inductive wxXmlNode :=
| XmlNode (type : wxXmlNodeType) (name content : wxString)
          (attributes : list (wxString * wxString))
          (children : list wxXmlNode).

(** A [wxXmlNode*]: the node and its following siblings, [[]] when null. *)
Definition wxXmlNodePtr := list wxXmlNode.

Definition GetType (n : wxXmlNode) := let 'XmlNode t _ _ _ _ := n in t.
Definition GetName (n : wxXmlNode) := let 'XmlNode _ s _ _ _ := n in s.
Definition GetContent (n : wxXmlNode) := let 'XmlNode _ _ c _ _ := n in c.
Definition GetAttributes (n : wxXmlNode) := let 'XmlNode _ _ _ a _ := n in a.
Definition GetChildren (n : wxXmlNode) : wxXmlNodePtr :=
  let 'XmlNode _ _ _ _ c := n in c.

(** [node->GetNext()] *)
Definition GetNext (node : wxXmlNodePtr) : wxXmlNodePtr := tl node.

(** [GetAttribute(name, &value)]: the value when the attribute exists. *)
Fixpoint lookup_attr (attrs : list (wxString * wxString)) (name : wxString)
  : option wxString :=
  match attrs with
  | [] => None
  | (k, v) :: r => if wx.eqb k name then Some v else lookup_attr r name
  end.

Definition HasAttribute (n : wxXmlNode) (name : wxString) : option wxString :=
  lookup_attr (GetAttributes n) name.

(** [GetAttribute(name, default)] *)
Definition GetAttribute (n : wxXmlNode) (name def : wxString) : wxString :=
  match HasAttribute n name with Some v => v | None => def end.

(** [GetNodeContent()]: the content of the first text or CDATA child. *)
Fixpoint first_text_content (l : list wxXmlNode) : wxString :=
  match l with
  | [] => wxEmptyString
  | n :: r =>
      match GetType n with
      | wxXML_TEXT_NODE | wxXML_CDATA_SECTION_NODE => GetContent n
      | _ => first_text_content r
      end
  end.

Definition GetNodeContent (n : wxXmlNode) : wxString :=
  first_text_content (GetChildren n).

(** Builders for documents. *)
Definition Element (name : string) (attrs : list (string * string))
  (children : list wxXmlNode) : wxXmlNode :=
  XmlNode wxXML_ELEMENT_NODE (wxT name) wxEmptyString
          (map (fun kv => (wxT (fst kv), wxT (snd kv))) attrs) children.

Definition Text (content : string) : wxXmlNode :=
  XmlNode wxXML_TEXT_NODE (wxT "text") (wxT content) [] [].

(** ** The data every cell shares *)

(** A raw, non-owning [Cell*]: the address of the cell, [None] when null. *)
Definition CellPtr := option N.
Definition nullptr : CellPtr := None.

Inductive CellType :=
| MC_TYPE_DEFAULT | MC_TYPE_ERROR | MC_TYPE_WARNING | MC_TYPE_LABEL
| MC_TYPE_INPUT | MC_TYPE_TEXT | MC_TYPE_TITLE | MC_TYPE_SECTION
| MC_TYPE_SUBSECTION | MC_TYPE_SUBSUBSECTION | MC_TYPE_HEADING5
| MC_TYPE_HEADING6.

Inductive TextStyle :=
| TS_DEFAULT | TS_VARIABLE | TS_FUNCTION | TS_ERROR | TS_WARNING
| TS_LABEL | TS_USERLABEL.

Inductive GroupType :=
| GC_TYPE_CODE | GC_TYPE_IMAGE | GC_TYPE_PAGEBREAK | GC_TYPE_TEXT
| GC_TYPE_TITLE | GC_TYPE_SECTION | GC_TYPE_SUBSECTION
| GC_TYPE_SUBSUBSECTION | GC_TYPE_HEADING5 | GC_TYPE_HEADING6.

Inductive FracStyle := FC_NORMAL | FC_CHOOSE | FC_DIFF.

(** The members of the base class [Cell] that the sources read or write.
    Metrics are C [int]s; they are integers here and overflow, undefined
    in C++, is not modelled. *)
Record CellBase := mkBase {
  m_this : N;                 (* the address of the object *)
  m_group : CellPtr;
  m_type : CellType;
  m_textStyle : TextStyle;
  m_highlight : bool;
  m_forceBreakLine : bool;
  m_isBrokenIntoLines : bool;
  m_isHidableMultSign : bool;
  m_isExponent : bool;
  m_toolTip : wxString;
  m_altCopyText : wxString;
  m_width : Z;
  m_height : Z;
  m_center : Z;
  m_fontsize_old : Z;         (* the font size of the last measurement *)
  m_fullWidth : Z;            (* cached metrics of the list that starts here *)
  m_lineWidth : Z;
  m_maxCenter : Z;
  m_maxDrop : Z;
  m_nextToDraw : CellPtr
}.

(** Modelled from the spec: the constructor [Cell::Cell(parent, config)]
    of the base class, which is not in the sources, for an object at
    address [a]: default type and style, no flag set, no tooltip, nothing
    measured yet and no draw link. *)
Definition Cell_new (a : N) (parent : CellPtr) : CellBase :=
  mkBase a parent MC_TYPE_DEFAULT TS_DEFAULT false false false false false
         wxEmptyString wxEmptyString (-1) (-1) (-1) (-1) (-1) (-1) (-1) (-1)
         nullptr.

Definition set_group (v : CellPtr) (b : CellBase) : CellBase :=
  let 'mkBase a _ ty st hl fb br hm ex tp ac w h c fs fw lw mc md nd := b in
  mkBase a v ty st hl fb br hm ex tp ac w h c fs fw lw mc md nd.
Definition set_type (v : CellType) (b : CellBase) : CellBase :=
  let 'mkBase a g _ st hl fb br hm ex tp ac w h c fs fw lw mc md nd := b in
  mkBase a g v st hl fb br hm ex tp ac w h c fs fw lw mc md nd.
Definition set_textStyle (v : TextStyle) (b : CellBase) : CellBase :=
  let 'mkBase a g ty _ hl fb br hm ex tp ac w h c fs fw lw mc md nd := b in
  mkBase a g ty v hl fb br hm ex tp ac w h c fs fw lw mc md nd.
Definition set_highlight (v : bool) (b : CellBase) : CellBase :=
  let 'mkBase a g ty st _ fb br hm ex tp ac w h c fs fw lw mc md nd := b in
  mkBase a g ty st v fb br hm ex tp ac w h c fs fw lw mc md nd.
Definition set_forceBreakLine (v : bool) (b : CellBase) : CellBase :=
  let 'mkBase a g ty st hl _ br hm ex tp ac w h c fs fw lw mc md nd := b in
  mkBase a g ty st hl v br hm ex tp ac w h c fs fw lw mc md nd.
Definition set_isBrokenIntoLines (v : bool) (b : CellBase) : CellBase :=
  let 'mkBase a g ty st hl fb _ hm ex tp ac w h c fs fw lw mc md nd := b in
  mkBase a g ty st hl fb v hm ex tp ac w h c fs fw lw mc md nd.
Definition set_isHidableMultSign (v : bool) (b : CellBase) : CellBase :=
  let 'mkBase a g ty st hl fb br _ ex tp ac w h c fs fw lw mc md nd := b in
  mkBase a g ty st hl fb br v ex tp ac w h c fs fw lw mc md nd.
Definition set_isExponent (v : bool) (b : CellBase) : CellBase :=
  let 'mkBase a g ty st hl fb br hm _ tp ac w h c fs fw lw mc md nd := b in
  mkBase a g ty st hl fb br hm v tp ac w h c fs fw lw mc md nd.
Definition set_toolTip (v : wxString) (b : CellBase) : CellBase :=
  let 'mkBase a g ty st hl fb br hm ex _ ac w h c fs fw lw mc md nd := b in
  mkBase a g ty st hl fb br hm ex v ac w h c fs fw lw mc md nd.
Definition set_altCopyText (v : wxString) (b : CellBase) : CellBase :=
  let 'mkBase a g ty st hl fb br hm ex tp _ w h c fs fw lw mc md nd := b in
  mkBase a g ty st hl fb br hm ex tp v w h c fs fw lw mc md nd.
Definition set_width (v : Z) (b : CellBase) : CellBase :=
  let 'mkBase a g ty st hl fb br hm ex tp ac _ h c fs fw lw mc md nd := b in
  mkBase a g ty st hl fb br hm ex tp ac v h c fs fw lw mc md nd.
Definition set_height (v : Z) (b : CellBase) : CellBase :=
  let 'mkBase a g ty st hl fb br hm ex tp ac w _ c fs fw lw mc md nd := b in
  mkBase a g ty st hl fb br hm ex tp ac w v c fs fw lw mc md nd.
Definition set_center (v : Z) (b : CellBase) : CellBase :=
  let 'mkBase a g ty st hl fb br hm ex tp ac w h _ fs fw lw mc md nd := b in
  mkBase a g ty st hl fb br hm ex tp ac w h v fs fw lw mc md nd.
Definition set_fontsize_old (v : Z) (b : CellBase) : CellBase :=
  let 'mkBase a g ty st hl fb br hm ex tp ac w h c _ fw lw mc md nd := b in
  mkBase a g ty st hl fb br hm ex tp ac w h c v fw lw mc md nd.
Definition set_nextToDraw (v : CellPtr) (b : CellBase) : CellBase :=
  let 'mkBase a g ty st hl fb br hm ex tp ac w h c fs fw lw mc md _ := b in
  mkBase a g ty st hl fb br hm ex tp ac w h c fs fw lw mc md v.

(** Modelled from the spec: [Cell::ResetData] is called by the sources but
    defined in the base class, which is not part of them.  The metrics are
    "lazy, cached" (spec, section 1): resetting forgets the cached metrics
    of the list that starts at the cell and nothing else. *)
Definition ResetData (b : CellBase) : CellBase :=
  let 'mkBase a g ty st hl fb br hm ex tp ac w h c fs _ _ _ _ nd := b in
  mkBase a g ty st hl fb br hm ex tp ac w h c fs (-1) (-1) (-1) (-1) nd.

(** Modelled from the spec: [Cell::NeedsRecalculation] is the guard at the
    entry of every measurement routine; its body is in the base class.
    "A cell's cached width/height are valid only for the font size they
    were computed at; any request at a different font size must be treated
    as stale and recomputed" (spec, section 3). *)
Definition NeedsRecalculation (fontsize : Z) (b : CellBase) : bool :=
  negb (m_fontsize_old b =? fontsize).

(** Modelled from the spec: the base-class tails [Cell::RecalculateWidths]
    and [Cell::RecalculateHeight], which every routine of the sources ends
    with.  The width pass runs first and the
    height pass completes a measurement, so it is the height pass that
    records "the font size at which metrics were last computed": were the
    width pass to record it, the height pass at the same size would be
    skipped and a stale height silently reused, which section 3 rules
    out. *)
Definition Cell_RecalculateWidths (fontsize : Z) (b : CellBase) : CellBase :=
  ResetData b.

(** Modelled from the spec: [Cell::RecalculateHeight], as said above; it
    records the font size of the measurement it completes. *)
Definition Cell_RecalculateHeight (fontsize : Z) (b : CellBase) : CellBase :=
  set_fontsize_old fontsize (ResetData b).

(** ** The cell tree *)

(** The dynamic type of a cell. *)
Inductive CellClass :=
| ClsTextCell | ClsFunCell | ClsLimitCell | ClsSubSupCell
| ClsEditorCell | ClsGroupCell | ClsSlideShow | ClsImgCell
| ClsFracCell | ClsDiffCell | ClsExptCell | ClsSubCell | ClsAtCell
| ClsSqrtCell | ClsAbsCell | ClsConjugateCell | ClsParenCell
| ClsSumCell | ClsIntCell | ClsMatrCell.

(** What a setter of a class outside the sources stores. *)
Inductive PropVal :=
| PBool (b : bool)
| PInt (z : Z)
| PStr (s : wxString)
| PStrs (l : list wxString)
| PPairs (l : list (wxString * wxString))
| PGroup (g : GroupType)
| PFrac (f : FracStyle)
| PType (t : CellType)
| PEnum (name : string).

(** The classes whose sources are given have a constructor of their own,
    with their members; so has [TextCell], the leaf every placeholder is
    made of.  The other classes of the family are not in the sources, only
    the calls the parser makes on them are: an object of such a class is
    [CObj], that is its class, the children a setter installed ([SetNum]
    installs the child ["Num"]) and the values the other setters stored. *)
Inductive Cell :=
| CText (b : CellBase) (m_text m_userDefinedLabel : wxString)
| CFun (b : CellBase) (m_nameCell m_argCell : list Cell)
| CLimit (b : CellBase) (m_name m_under m_base m_open m_comma m_close : list Cell)
| CSubSup (b : CellBase)
          (m_baseCell m_postSubCell m_postSupCell m_preSubCell m_preSupCell : list Cell)
          (m_scriptCells : list CellPtr)
| CObj (cls : CellClass) (b : CellBase)
       (children : list (string * list Cell))
       (props : list (string * PropVal)).

(** An owning pointer to the head of an [m_next] chain. *)
Definition OwningCellPtr := list Cell.

Definition base_of (c : Cell) : CellBase :=
  match c with
  | CText b _ _ | CFun b _ _ | CLimit b _ _ _ _ _ _
  | CSubSup b _ _ _ _ _ _ | CObj _ b _ _ => b
  end.

Definition class_of (c : Cell) : CellClass :=
  match c with
  | CText _ _ _ => ClsTextCell
  | CFun _ _ _ => ClsFunCell
  | CLimit _ _ _ _ _ _ _ => ClsLimitCell
  | CSubSup _ _ _ _ _ _ _ => ClsSubSupCell
  | CObj cls _ _ _ => cls
  end.

Definition map_base (f : CellBase -> CellBase) (c : Cell) : Cell :=
  match c with
  | CText b t l => CText (f b) t l
  | CFun b n a => CFun (f b) n a
  | CLimit b n u ba o co cl => CLimit (f b) n u ba o co cl
  | CSubSup b ba sb sp psb psp sc => CSubSup (f b) ba sb sp psb psp sc
  | CObj k b ch pr => CObj k (f b) ch pr
  end.

(** [p.get()] *)
Definition get (p : OwningCellPtr) : CellPtr :=
  match p with
  | [] => nullptr
  | c :: _ => Some (m_this (base_of c))
  end.

Definition is_null {A} (p : list A) : bool :=
  match p with [] => true | _ => false end.

(** [p->f()] on the head of a chain, [p->last()->f()] on its last cell.
    Through a null pointer nothing is there to update; the callers below
    dereference only pointers they know not to be null. *)
Definition on_head {A} (f : A -> A) (p : list A) : list A :=
  match p with
  | [] => []
  | c :: r => f c :: r
  end.

Fixpoint on_last {A} (f : A -> A) (p : list A) : list A :=
  match p with
  | [] => []
  | [c] => [f c]
  | c :: r => c :: on_last f r
  end.

(** Modelled from the spec: [Cell::SetNextToDraw] belongs to the base
    class.  The draw link of a cell is its own member until the cell is
    broken into lines; from then on the link that leaves the cell is the
    one that leaves its flattened children, which is what the overrides
    [FunCell::SetNextToDrawImpl] ([m_argCell->last()->SetNextToDraw(next)])
    and [LimitCell::SetNextToDrawImpl] ([m_close->SetNextToDraw(next)]) of
    the sources set.  [BreakUp] reads "whatever chain followed the cell
    before the split" (spec, section 4.2) from that member. *)
Fixpoint SetNextToDraw (next : CellPtr) (c : Cell) {struct c} : Cell :=
  match c with
  | CFun b n a =>
      if m_isBrokenIntoLines b
      then CFun b n (on_last (SetNextToDraw next) a)
      else CFun (set_nextToDraw next b) n a
  | CLimit b n u ba o co cl =>
      if m_isBrokenIntoLines b
      then CLimit b n u ba o co (on_head (SetNextToDraw next) cl)
      else CLimit (set_nextToDraw next b) n u ba o co cl
  | _ => map_base (set_nextToDraw next) c
  end.

(** Modelled from the spec: [Cell::AppendCell], "the shared append
    operation on cells (which must itself walk to the end of any
    multi-cell chain before linking)" (section 4.1).  The link is made the
    way [ParseCellTag] makes it by hand: [m_next] and the draw link of the
    last cell both point to the appended fragment.  Appending a null
    fragment changes nothing. *)
Definition AppendCell (p_next : OwningCellPtr) (chain : OwningCellPtr)
  : OwningCellPtr :=
  match p_next with
  | [] => chain
  | _ => on_last (SetNextToDraw (get p_next)) chain ++ p_next
  end.

(** Modelled from the spec: the setters of the base class, which is not
    in the sources.  Each stores its argument in the attribute of
    section 3 it is named after (style tag, "force break line" flag,
    tooltip, alternate copy-as-text string, ...). *)
Definition SetStyle (s : TextStyle) : Cell -> Cell := map_base (set_textStyle s).
Definition SetType (t : CellType) : Cell -> Cell := map_base (set_type t).
Definition SetHighlight (h : bool) : Cell -> Cell := map_base (set_highlight h).
Definition ForceBreakLine (f : bool) : Cell -> Cell := map_base (set_forceBreakLine f).
Definition SetToolTip (t : wxString) : Cell -> Cell := map_base (set_toolTip t).
Definition SetAltCopyText (t : wxString) : Cell -> Cell := map_base (set_altCopyText t).
Definition SetExponentFlag : Cell -> Cell := map_base (set_isExponent true).

(** ** Generic objects *)

Fixpoint assoc_set {V} (k : string) (v : V) (l : list (string * V))
  : list (string * V) :=
  match l with
  | [] => [(k, v)]
  | (k', v') :: r =>
      if String.eqb k k' then (k, v) :: r else (k', v') :: assoc_set k v r
  end.

Fixpoint assoc_get {V} (k : string) (l : list (string * V)) : option V :=
  match l with
  | [] => None
  | (k', v) :: r => if String.eqb k k' then Some v else assoc_get k r
  end.

(** [obj->SetX(child)] *)
Definition set_child (slot : string) (v : OwningCellPtr) (c : Cell) : Cell :=
  match c with
  | CObj k b ch pr => CObj k b (assoc_set slot v ch) pr
  | _ => c
  end.

Definition get_child (slot : string) (c : Cell) : OwningCellPtr :=
  match c with
  | CObj _ _ ch _ => match assoc_get slot ch with Some v => v | None => [] end
  | _ => []
  end.

(** [obj->SetX(value)] *)
Definition set_prop (name : string) (v : PropVal) (c : Cell) : Cell :=
  match c with
  | CObj k b ch pr => CObj k b ch (assoc_set name v pr)
  | _ => c
  end.

Definition get_prop (name : string) (c : Cell) : option PropVal :=
  match c with
  | CObj _ _ _ pr => assoc_get name pr
  | _ => None
  end.

(** Modelled from the spec: [Cell::GetValue] is virtual and its overrides
    are outside the sources; text and editor cells hold a text, the other
    cells have no value. *)
Definition GetValue (c : Cell) : wxString :=
  match c with
  | CText _ t _ => t
  | CObj ClsEditorCell _ _ pr =>
      match assoc_get "Value" pr with Some (PStr s) => s | _ => wxEmptyString end
  | _ => wxEmptyString
  end.

(** ** Allocation *)

(** [new]: the state is the next free address. *)
Definition Alloc (A : Type) := N -> A * N.

Definition aret {A} (a : A) : Alloc A := fun n => (a, n).
Definition abind {A B} (m : Alloc A) (k : A -> Alloc B) : Alloc B :=
  fun n => let '(a, n') := m n in k a n'.
Definition fresh : Alloc N := fun n => (n, N.succ n).

Declare Scope alloc_scope.
Delimit Scope alloc_scope with alloc.
Notation "x <- m ;; k" := (abind m (fun x => k))
  (at level 61, m at next level, right associativity) : alloc_scope.

(** Modelled from the spec: [new TextCell(parent, config, text)];
    [TextCell] is not in the sources.  A text cell is a leaf that holds
    its text (section 2, "per-line leaf text cells"). *)
Definition TextCell_new (parent : CellPtr) (text : wxString) : Alloc Cell :=
  (a <- fresh ;; aret (CText (Cell_new a parent) text wxEmptyString))%alloc.

Definition missing_contents : wxString := wxT "Bug: Missing contents".
Definition missing_tooltip : wxString :=
  wxT "The xml data from maxima or from the .wxmx file was missing data here.
If you find a way how to reproduce this problem please file a bug report against wxMaxima.".

(** Modelled from the spec: [Cell::InvalidCellOr] is a helper of the base
    class.  "A missing child is always replaced by a visibly-marked
    invalid placeholder cell" (section 3), "a visibly-marked, style-flagged
    placeholder cell carrying a diagnostic tooltip" (section 7).  The
    placeholder is built the way [MathParser::HandleNullPointer], in the
    sources, builds its own. *)
Definition MakeVisiblyInvalidCell (parent : CellPtr) : Alloc Cell :=
  (c <- TextCell_new parent missing_contents ;;
   aret (SetStyle TS_ERROR (SetToolTip missing_tooltip c)))%alloc.

Definition InvalidCellOr (parent : CellPtr) (cell : OwningCellPtr)
  : Alloc OwningCellPtr :=
  match cell with
  | [] => (c <- MakeVisiblyInvalidCell parent ;; aret [c])%alloc
  | _ => aret cell
  end.

(** What makes a cell a placeholder for missing contents. *)
Definition is_placeholder (c : Cell) : bool :=
  match c with
  | CText b t _ => wx.eqb t missing_contents && wx.eqb (m_toolTip b) missing_tooltip
  | _ => false
  end.

(** ** The virtual methods implemented outside the sources

    Measuring, and serializing, the children of a cell goes through
    virtual methods of [Cell] whose implementations (text cells and the
    rest of the family, on top of the font metrics of the toolkit) are not
    in the sources: the three cell classes are written against this
    interface. *)
Class CellServices := {
  Scale_Px : Z -> Z;
  RecalculateWidthsList : Z -> OwningCellPtr -> OwningCellPtr;
  RecalculateHeightList : Z -> OwningCellPtr -> OwningCellPtr;
  GetFullWidth : OwningCellPtr -> Z;
  GetCenterList : OwningCellPtr -> Z;
  GetMaxDrop : OwningCellPtr -> Z;
  GetHeightList : OwningCellPtr -> Z;
  (* [p->ToString()]: the head cell alone *)
  Cell_ToString : OwningCellPtr -> wxString;
  ListToString : OwningCellPtr -> wxString;
  ListToMatlab : OwningCellPtr -> wxString;
  ListToTeX : OwningCellPtr -> wxString;
  ListToXML : OwningCellPtr -> wxString
}.

(** The macro [wxMax(a, b)]. *)
Definition wxMax (a b : Z) : Z := if a >? b then a else b.

(** What the serializers of [SubSupCell.cpp] call besides: more virtual
    methods of [Cell], the escaping of a text for XML, and the
    configuration item [TeXExponentsAfterSubscript], read through
    [wxConfig] and [false] when it is not set. *)
Class SerializerServices := {
  (* [p->IsCompound()]: the head cell alone *)
  IsCompound : OwningCellPtr -> bool;
  ListToMathML : OwningCellPtr -> wxString;
  ListToOMML : OwningCellPtr -> wxString;
  XMLescape : wxString -> wxString;
  TeXExponentsAfterSubscript : bool
}.

(** ** FunCell.cpp *)

Module FunCell.

Record t := mk {
  base : CellBase;
  m_nameCell : OwningCellPtr;
  m_argCell : OwningCellPtr
}.

Definition upcast (f : t) : Cell := CFun (base f) (m_nameCell f) (m_argCell f).

Definition with_base (g : CellBase -> CellBase) (f : t) : t :=
  mk (g (base f)) (m_nameCell f) (m_argCell f).
Definition with_name (p : OwningCellPtr) (f : t) : t :=
  mk (base f) p (m_argCell f).
Definition with_arg (p : OwningCellPtr) (f : t) : t :=
  mk (base f) (m_nameCell f) p.

(** [FunCell::SetName] *)
Definition SetName (name : OwningCellPtr) (f : t) : Alloc t :=
  (p <- InvalidCellOr (m_group (base f)) name ;;
   aret (with_name (on_head (SetStyle TS_FUNCTION) p) f))%alloc.

(** [FunCell::SetArg] *)
Definition SetArg (arg : OwningCellPtr) (f : t) : Alloc t :=
  (p <- InvalidCellOr (m_group (base f)) arg ;;
   aret (with_arg p f))%alloc.

(** [FunCell::FunCell(parent, config, init)] *)
Definition new (parent : CellPtr) (init : bool) : Alloc t :=
  (a <- fresh ;;
   let f := mk (Cell_new a parent) [] [] in
   if init then (f <- SetName [] f ;; SetArg [] f) else aret f)%alloc.

(** [FunCell::SetNextToDrawImpl] *)
Definition SetNextToDrawImpl (next : CellPtr) (f : t) : t :=
  with_arg (on_last (SetNextToDraw next) (m_argCell f)) f.

(** [FunCell::GetNextToDrawImpl] *)
Definition GetNextToDrawImpl (f : t) : CellPtr := get (m_nameCell f).

(** [FunCell::BreakUp]; [Cell::GetNextToDrawImpl()], the base-class
    version, is the draw link stored in the cell. *)
Definition BreakUp (f : t) : bool * t :=
  if m_isBrokenIntoLines (base f) then (false, f)
  else
    let f := with_base (set_isBrokenIntoLines true) f in
    let f := with_name (on_last (SetNextToDraw (get (m_argCell f))) (m_nameCell f)) f in
    let f := with_arg (on_last (SetNextToDraw (m_nextToDraw (base f))) (m_argCell f)) f in
    let f := with_base (set_width 0) f in
    let f := with_base ResetData f in
    (true, f).

Section Virtuals.
Context {services : CellServices}.

(** The body of [FunCell::RecalculateWidths], past the guard. *)
Definition compute_widths (fontsize : Z) (f : t) : t :=
  let f := with_arg (RecalculateWidthsList fontsize (m_argCell f)) f in
  let f := with_name (RecalculateWidthsList fontsize (m_nameCell f)) f in
  let f := with_base (set_width (GetFullWidth (m_nameCell f)
                                 + GetFullWidth (m_argCell f) - Scale_Px 1)) f in
  let f := if m_isBrokenIntoLines (base f) then with_base (set_width 0) f else f in
  with_base (Cell_RecalculateWidths fontsize) f.

(** [FunCell::RecalculateWidths] *)
Definition RecalculateWidths (fontsize : Z) (f : t) : t :=
  if negb (NeedsRecalculation fontsize (base f)) then f
  else compute_widths fontsize f.

(** The body of [FunCell::RecalculateHeight], past the guard. *)
Definition compute_height (fontsize : Z) (f : t) : t :=
  let f := with_name (RecalculateHeightList fontsize (m_nameCell f)) f in
  let f := with_arg (RecalculateHeightList fontsize (m_argCell f)) f in
  let f :=
    if negb (m_isBrokenIntoLines (base f)) then
      let f := with_base (set_center (wxMax (GetCenterList (m_nameCell f))
                                            (GetCenterList (m_argCell f)))) f in
      with_base (set_height (m_center (base f)
                             + wxMax (GetMaxDrop (m_nameCell f))
                                     (GetMaxDrop (m_argCell f)))) f
    else with_base (set_height 0) f in
  with_base (Cell_RecalculateHeight fontsize) f.

(** [FunCell::RecalculateHeight] *)
Definition RecalculateHeight (fontsize : Z) (f : t) : t :=
  if negb (NeedsRecalculation fontsize (base f)) then f
  else compute_height fontsize f.

(** [FunCell::ToString] *)
Definition ToString (f : t) : wxString :=
  if m_isBrokenIntoLines (base f) then wxEmptyString
  else if negb (wx.eqb (m_altCopyText (base f)) wxEmptyString)
       then m_altCopyText (base f)
       else ListToString (m_nameCell f) ++ ListToString (m_argCell f).

(** [FunCell::ToTeX] *)
Definition ToTeX (f : t) : wxString :=
  if m_isBrokenIntoLines (base f) then wxEmptyString
  else
    let name := Cell_ToString (m_nameCell f) in
    if wx.eqb name (wxT "sin") || wx.eqb name (wxT "cos")
       || wx.eqb name (wxT "cosh") || wx.eqb name (wxT "sinh")
       || wx.eqb name (wxT "log") || wx.eqb name (wxT "cot")
       || wx.eqb name (wxT "sec") || wx.eqb name (wxT "csc")
       || wx.eqb name (wxT "tan")
    then wxT "\" ++ name ++ wxT "{" ++ ListToTeX (m_argCell f) ++ wxT "}"
    else ListToTeX (m_nameCell f) ++ ListToTeX (m_argCell f).

(** [FunCell::ToXML] *)
Definition ToXML (f : t) : wxString :=
  let flags := if m_forceBreakLine (base f)
               then wxT " breakline=" ++ quoted (wxT "true") else wxEmptyString in
  wxT "<fn" ++ flags ++ wxT "><r>" ++ ListToXML (m_nameCell f) ++ wxT "</r>"
  ++ ListToXML (m_argCell f) ++ wxT "</fn>".

(** The operations of the class that change a cell. *)
Inductive op :=
| OpSetName (name : OwningCellPtr)
| OpSetArg (arg : OwningCellPtr)
| OpRecalculateWidths (fontsize : Z)
| OpRecalculateHeight (fontsize : Z)
| OpBreakUp
| OpSetNextToDrawImpl (next : CellPtr).

Definition run (o : op) (f : t) : Alloc t :=
  match o with
  | OpSetName name => SetName name f
  | OpSetArg arg => SetArg arg f
  | OpRecalculateWidths fontsize => aret (RecalculateWidths fontsize f)
  | OpRecalculateHeight fontsize => aret (RecalculateHeight fontsize f)
  | OpBreakUp => aret (snd (BreakUp f))
  | OpSetNextToDrawImpl next => aret (SetNextToDrawImpl next f)
  end.

Fixpoint run_all (ops : list op) (f : t) : Alloc t :=
  match ops with
  | [] => aret f
  | o :: r => (f' <- run o f ;; run_all r f')%alloc
  end.

End Virtuals.
End FunCell.

(** ** LimitCell.cpp *)

Module LimitCell.

Definition MIN_LIMIT_FONT_SIZE : Z := 8.
Definition LIMIT_FONT_SIZE_DECREASE : Z := 1.

Record t := mk {
  base : CellBase;
  m_name : OwningCellPtr;
  m_under : OwningCellPtr;
  m_base : OwningCellPtr;
  m_open : OwningCellPtr;
  m_comma : OwningCellPtr;
  m_close : OwningCellPtr
}.

Definition upcast (l : t) : Cell :=
  CLimit (base l) (m_name l) (m_under l) (m_base l)
         (m_open l) (m_comma l) (m_close l).

Definition with_base (g : CellBase -> CellBase) (l : t) : t :=
  mk (g (base l)) (m_name l) (m_under l) (m_base l) (m_open l) (m_comma l) (m_close l).
Definition with_name (p : OwningCellPtr) (l : t) : t :=
  mk (base l) p (m_under l) (m_base l) (m_open l) (m_comma l) (m_close l).
Definition with_under (p : OwningCellPtr) (l : t) : t :=
  mk (base l) (m_name l) p (m_base l) (m_open l) (m_comma l) (m_close l).
Definition with_m_base (p : OwningCellPtr) (l : t) : t :=
  mk (base l) (m_name l) (m_under l) p (m_open l) (m_comma l) (m_close l).
Definition with_open (p : OwningCellPtr) (l : t) : t :=
  mk (base l) (m_name l) (m_under l) (m_base l) p (m_comma l) (m_close l).
Definition with_comma (p : OwningCellPtr) (l : t) : t :=
  mk (base l) (m_name l) (m_under l) (m_base l) (m_open l) p (m_close l).
Definition with_close (p : OwningCellPtr) (l : t) : t :=
  mk (base l) (m_name l) (m_under l) (m_base l) (m_open l) (m_comma l) p.

(** [LimitCell::SetName], [SetBase], [SetUnder] *)
Definition SetName (name : OwningCellPtr) (l : t) : Alloc t :=
  (p <- InvalidCellOr (m_group (base l)) name ;; aret (with_name p l))%alloc.

Definition SetBase (b : OwningCellPtr) (l : t) : Alloc t :=
  (p <- InvalidCellOr (m_group (base l)) b ;; aret (with_m_base p l))%alloc.

Definition SetUnder (under : OwningCellPtr) (l : t) : Alloc t :=
  (p <- InvalidCellOr (m_group (base l)) under ;; aret (with_under p l))%alloc.

(** [LimitCell::LimitCell(parent, config, init)] *)
Definition new (parent : CellPtr) (init : bool) : Alloc t :=
  (a <- fresh ;;
   o <- TextCell_new parent (wxT "(") ;;
   c <- TextCell_new parent (wxT ",") ;;
   e <- TextCell_new parent (wxT ")") ;;
   let l := mk (Cell_new a parent) [] [] [] [o] [c] [e] in
   l <- (if init
         then (l <- SetBase [] l ;; l <- SetUnder [] l ;; SetName [] l)
         else aret l) ;;
   let l := with_open (on_head (SetStyle TS_FUNCTION) (m_open l)) l in
   let l := with_close (on_head (SetStyle TS_FUNCTION) (m_close l)) l in
   let l := with_comma (on_head (SetStyle TS_FUNCTION) (m_comma l)) l in
   aret l)%alloc.

(** [LimitCell::SetNextToDrawImpl], [LimitCell::GetNextToDrawImpl] *)
Definition SetNextToDrawImpl (next : CellPtr) (l : t) : t :=
  with_close (on_head (SetNextToDraw next) (m_close l)) l.

Definition GetNextToDrawImpl (l : t) : CellPtr := get (m_name l).

(** [LimitCell::BreakUp] *)
Definition BreakUp (l : t) : bool * t :=
  if m_isBrokenIntoLines (base l) then (false, l)
  else
    let l := with_base (set_isBrokenIntoLines true) l in
    let l := with_name (on_last (SetNextToDraw (get (m_open l))) (m_name l)) l in
    let l := with_open (on_head (SetNextToDraw (get (m_base l))) (m_open l)) l in
    let l := with_m_base (on_last (SetNextToDraw (get (m_comma l))) (m_base l)) l in
    let l := with_comma (on_head (SetNextToDraw (get (m_under l))) (m_comma l)) l in
    let l := with_under (on_last (SetNextToDraw (get (m_close l))) (m_under l)) l in
    let l := with_close (on_head (SetNextToDraw (m_nextToDraw (base l))) (m_close l)) l in
    let l := with_base ResetData l in
    (true, l).

Section Virtuals.
Context {services : CellServices}.

(** The body of [LimitCell::RecalculateWidths], past the guard. *)
Definition compute_widths (fontsize : Z) (l : t) : t :=
  let small := wxMax MIN_LIMIT_FONT_SIZE (fontsize - LIMIT_FONT_SIZE_DECREASE) in
  let l := with_m_base (RecalculateWidthsList fontsize (m_base l)) l in
  let l := with_under (RecalculateWidthsList small (m_under l)) l in
  let l := with_name (RecalculateWidthsList fontsize (m_name l)) l in
  let l := with_open (RecalculateWidthsList fontsize (m_open l)) l in
  let l := with_comma (RecalculateWidthsList fontsize (m_comma l)) l in
  let l := with_close (RecalculateWidthsList fontsize (m_close l)) l in
  let l :=
    if negb (m_isBrokenIntoLines (base l))
    then with_base (set_width (wxMax (GetFullWidth (m_name l))
                                     (GetFullWidth (m_under l))
                               + GetFullWidth (m_base l))) l
    else with_base (set_width 0) l in
  with_base (Cell_RecalculateWidths fontsize) l.

(** [LimitCell::RecalculateWidths] *)
Definition RecalculateWidths (fontsize : Z) (l : t) : t :=
  if negb (NeedsRecalculation fontsize (base l)) then l
  else compute_widths fontsize l.

(** The body of [LimitCell::RecalculateHeight], past the guard. *)
Definition compute_height (fontsize : Z) (l : t) : t :=
  let small := wxMax MIN_LIMIT_FONT_SIZE (fontsize - LIMIT_FONT_SIZE_DECREASE) in
  let l := with_under (RecalculateHeightList small (m_under l)) l in
  let l := with_name (RecalculateHeightList fontsize (m_name l)) l in
  let l := with_m_base (RecalculateHeightList fontsize (m_base l)) l in
  let l := with_open (RecalculateHeightList fontsize (m_open l)) l in
  let l := with_comma (RecalculateHeightList fontsize (m_comma l)) l in
  let l := with_close (RecalculateHeightList fontsize (m_close l)) l in
  let l :=
    if negb (m_isBrokenIntoLines (base l)) then
      let l := with_base (set_center (wxMax (GetCenterList (m_base l))
                                            (GetCenterList (m_name l)))) l in
      with_base (set_height (m_center (base l)
                             + wxMax (GetMaxDrop (m_name l) + GetHeightList (m_under l))
                                     (GetMaxDrop (m_base l)))) l
    else
      let l := with_base (set_height (GetHeightList (m_name l))) l in
      with_base (set_center (GetCenterList (m_name l))) l in
  with_base (Cell_RecalculateHeight fontsize) l.

(** [LimitCell::RecalculateHeight] *)
Definition RecalculateHeight (fontsize : Z) (l : t) : t :=
  if negb (NeedsRecalculation fontsize (base l)) then l
  else compute_height fontsize l.

(** What [ToString] and [ToMatlab] make of the rendered children. *)
Definition text_form (under base_ : wxString) : wxString :=
  let s := wxT "limit" in
  let var := SubString under 0 (Find under (wxT "->") - 1) in
  let to := SubString under (Find under (wxT "->") + 2) (Length under - 1) in
  let to := if wx.eqb (Right to 1) (wxT "+")
            then Left to (Length to - 1) ++ wxT ",plus" else to in
  let to := if wx.eqb (Right to 1) (wxT "-")
            then Left to (Length to - 1) ++ wxT ",minus" else to in
  s ++ (wxT "(" ++ base_ ++ wxT "," ++ var ++ wxT "," ++ to ++ wxT ")").

(** [LimitCell::ToString] *)
Definition ToString (l : t) : wxString :=
  text_form (ListToString (m_under l)) (ListToString (m_base l)).

(** [LimitCell::ToMatlab] *)
Definition ToMatlab (l : t) : wxString :=
  text_form (ListToMatlab (m_under l)) (ListToMatlab (m_base l)).

(** [LimitCell::ToTeX] *)
Definition ToTeX (l : t) : wxString :=
  let under := ListToTeX (m_under l) in
  let base_ := ListToTeX (m_base l) in
  let varEnd := Find under (wxT "->") in
  let '(varEnd, toStart) :=
    if varEnd =? wxNOT_FOUND then
      let varEnd := Find under (wxT "\mbox{\rightarrow }") in
      if negb (varEnd =? wxNOT_FOUND) then (varEnd - 1, varEnd + 19)
      else (varEnd, 0)
    else (varEnd - 1, varEnd + 2) in
  let var := SubString under 0 varEnd in
  let to := SubString under toStart (Length under - 1) in
  wxT "\lim_{" ++ var ++ wxT "\to " ++ to ++ wxT "}{" ++ base_ ++ wxT "}".

(** The operations of the class that change a cell. *)
Inductive op :=
| OpSetName (name : OwningCellPtr)
| OpSetBase (b : OwningCellPtr)
| OpSetUnder (under : OwningCellPtr)
| OpRecalculateWidths (fontsize : Z)
| OpRecalculateHeight (fontsize : Z)
| OpBreakUp
| OpSetNextToDrawImpl (next : CellPtr).

Definition run (o : op) (l : t) : Alloc t :=
  match o with
  | OpSetName name => SetName name l
  | OpSetBase b => SetBase b l
  | OpSetUnder under => SetUnder under l
  | OpRecalculateWidths fontsize => aret (RecalculateWidths fontsize l)
  | OpRecalculateHeight fontsize => aret (RecalculateHeight fontsize l)
  | OpBreakUp => aret (snd (BreakUp l))
  | OpSetNextToDrawImpl next => aret (SetNextToDrawImpl next l)
  end.

Fixpoint run_all (ops : list op) (l : t) : Alloc t :=
  match ops with
  | [] => aret l
  | o :: r => (l' <- run o l ;; run_all r l')%alloc
  end.

End Virtuals.
End LimitCell.

(** ** SubSupCell.cpp: the constructor, the setters and the serializers *)

Module SubSupCell.

Record t := mk {
  base : CellBase;
  m_baseCell : OwningCellPtr;
  m_postSubCell : OwningCellPtr;
  m_postSupCell : OwningCellPtr;
  m_preSubCell : OwningCellPtr;
  m_preSupCell : OwningCellPtr;
  m_scriptCells : list CellPtr
}.

Definition upcast (s : t) : Cell :=
  CSubSup (base s) (m_baseCell s) (m_postSubCell s) (m_postSupCell s)
          (m_preSubCell s) (m_preSupCell s) (m_scriptCells s).

Definition with_base (g : CellBase -> CellBase) (s : t) : t :=
  mk (g (base s)) (m_baseCell s) (m_postSubCell s) (m_postSupCell s)
     (m_preSubCell s) (m_preSupCell s) (m_scriptCells s).

Definition CellPtr_eqb (a b : CellPtr) : bool :=
  match a, b with
  | None, None => true
  | Some x, Some y => N.eqb x y
  | _, _ => false
  end.

(** [RemoveCell(cells, cell)]: erase every entry equal to [cell.get()]. *)
Definition RemoveCell (cells : list CellPtr) (cell : OwningCellPtr) : list CellPtr :=
  filter (fun p => negb (CellPtr_eqb p (get cell))) cells.

(** [SubSupCell::SubSupCell(parent, config)] *)
Definition new (parent : CellPtr) : Alloc t :=
  (a <- fresh ;;
   c <- MakeVisiblyInvalidCell parent ;;
   aret (mk (Cell_new a parent) [c] [] [] [] [] []))%alloc.

Definition SetPreSup (index : OwningCellPtr) (s : t) : t :=
  if is_null index then s
  else mk (base s) (m_baseCell s) (m_postSubCell s) (m_postSupCell s)
          (m_preSubCell s) index
          (RemoveCell (m_scriptCells s) (m_preSupCell s) ++ [get index]).

Definition SetPreSub (index : OwningCellPtr) (s : t) : t :=
  if is_null index then s
  else mk (base s) (m_baseCell s) (m_postSubCell s) (m_postSupCell s)
          index (m_preSupCell s)
          (RemoveCell (m_scriptCells s) (m_preSubCell s) ++ [get index]).

Definition SetPostSup (index : OwningCellPtr) (s : t) : t :=
  if is_null index then s
  else mk (base s) (m_baseCell s) (m_postSubCell s) index
          (m_preSubCell s) (m_preSupCell s)
          (RemoveCell (m_scriptCells s) (m_postSupCell s) ++ [get index]).

Definition SetPostSub (index : OwningCellPtr) (s : t) : t :=
  if is_null index then s
  else mk (base s) (m_baseCell s) index (m_postSupCell s)
          (m_preSubCell s) (m_preSupCell s)
          (RemoveCell (m_scriptCells s) (m_postSubCell s) ++ [get index]).

Definition SetIndex (index : OwningCellPtr) (s : t) : t :=
  if is_null index then s
  else mk (base s) (m_baseCell s) index (m_postSupCell s)
          (m_preSubCell s) (m_preSupCell s)
          (RemoveCell (m_scriptCells s) (m_postSubCell s)).

Definition SetBase (b : OwningCellPtr) (s : t) : t :=
  if is_null b then s
  else mk (base s) b (m_postSubCell s) (m_postSupCell s)
          (m_preSubCell s) (m_preSupCell s) (m_scriptCells s).

Definition SetExponent (expt : OwningCellPtr) (s : t) : t :=
  if is_null expt then s
  else mk (base s) (m_baseCell s) (m_postSubCell s) expt
          (m_preSubCell s) (m_preSupCell s)
          (RemoveCell (m_scriptCells s) (m_postSupCell s)).

(** The setters of the class, as operations on a cell. *)
Inductive op :=
| OpSetPreSup (index : OwningCellPtr)
| OpSetPreSub (index : OwningCellPtr)
| OpSetPostSup (index : OwningCellPtr)
| OpSetPostSub (index : OwningCellPtr)
| OpSetIndex (index : OwningCellPtr)
| OpSetBase (b : OwningCellPtr)
| OpSetExponent (expt : OwningCellPtr).

Definition run (o : op) (s : t) : t :=
  match o with
  | OpSetPreSup index => SetPreSup index s
  | OpSetPreSub index => SetPreSub index s
  | OpSetPostSup index => SetPostSup index s
  | OpSetPostSub index => SetPostSub index s
  | OpSetIndex index => SetIndex index s
  | OpSetBase b => SetBase b s
  | OpSetExponent expt => SetExponent expt s
  end.

Definition run_all (ops : list op) (s : t) : t :=
  fold_left (fun s o => run o s) ops s.

(** [p->...] through an owning pointer: there is a cell to call the
    method on unless the pointer is null. *)
Definition arrow (p : OwningCellPtr) : option OwningCellPtr :=
  match p with
  | [] => None
  | _ => Some p
  end.

(** The script children of a cell, which are what the entries of
    [m_scriptCells] may point to. *)
Definition scripts (s : t) : list OwningCellPtr :=
  [m_preSupCell s; m_preSubCell s; m_postSupCell s; m_postSubCell s].

(** [cell->...] through an entry of [m_scriptCells], a raw pointer: it is
    followed to the script child that lives at that address; a null
    pointer, and a pointer to a cell the object owns no more, cannot be
    followed. *)
Definition follow (s : t) (p : CellPtr) : option OwningCellPtr :=
  match p with
  | None => None
  | Some _ => find (fun c => CellPtr_eqb (get c) p) (scripts s)
  end.

Section Serializers.
Context {services : CellServices} {serializers : SerializerServices}.

(** The text of the base, between parentheses when it is compound. *)
Definition base_text (render : OwningCellPtr -> wxString) (b : OwningCellPtr)
  : wxString :=
  if IsCompound b then wxT "(" ++ render b ++ wxT ")" else render b.

(** [SubSupCell::ToString]; [None] is a null pointer dereferenced. *)
Definition ToString (s : t) : option wxString :=
  if negb (wx.eqb (m_altCopyText (base s)) wxEmptyString)
  then Some (m_altCopyText (base s))
  else
    match arrow (m_baseCell s) with
    | None => None
    | Some b =>
        let str := base_text ListToString b in
        if is_null (m_scriptCells s) then
          match arrow (m_postSubCell s), arrow (m_postSupCell s) with
          | Some sub, Some sup =>
              let str := str ++ (wxT "[" ++ ListToString sub ++ wxT "]") in
              let str := str ++ wxT "^" in
              let str := if IsCompound sup then str ++ wxT "(" else str in
              let str := str ++ ListToString sup in
              let str := if IsCompound sup then str ++ wxT ")" else str in
              Some str
          | _, _ => None
          end
        else
          fold_left
            (fun (acc : option wxString) (cell : CellPtr) =>
               match acc, follow s cell with
               | Some str, Some c =>
                   Some (str ++ (wxT "[" ++ ListToString c ++ wxT "]"))
               | _, _ => None
               end)
            (m_scriptCells s) (Some str)
    end.

(** [SubSupCell::ToMatlab]; the flag [first] of the loop starts out
    [false] and is set by the first turn. *)
Definition ToMatlab (s : t) : option wxString :=
  match arrow (m_baseCell s) with
  | None => None
  | Some b =>
      let str := base_text ListToMatlab b in
      if is_null (m_scriptCells s) then
        match arrow (m_postSubCell s), arrow (m_postSupCell s) with
        | Some sub, Some sup =>
            let str := str ++ (wxT "[" ++ ListToMatlab sub ++ wxT "]") in
            let str := str ++ wxT "^" in
            let str := if IsCompound sup then str ++ wxT "(" else str in
            let str := str ++ ListToMatlab sup in
            let str := if IsCompound sup then str ++ wxT ")" else str in
            Some str
        | _, _ => None
        end
      else
        let str := str ++ wxT "[" in
        let first := false in
        match
          fold_left
            (fun (acc : option (wxString * bool)) (cell : CellPtr) =>
               match acc, follow s cell with
               | Some (str, first), Some c =>
                   let str := if negb first then str ++ wxT ";" else str in
                   let first := true in
                   Some (str ++ ListToMatlab c, first)
               | _, _ => None
               end)
            (m_scriptCells s) (Some (str, first))
        with
        | Some (str, _) => Some (str ++ wxT "]")
        | None => None
        end
  end.

(** [s += open + p->render() + close] under [if (p)]. *)
Definition opt_part (open : wxString) (render : OwningCellPtr -> wxString)
  (close : wxString) (p : OwningCellPtr) (str : wxString) : wxString :=
  if negb (is_null p) then str ++ (open ++ render p ++ close) else str.

(** [SubSupCell::ToTeX] *)
Definition ToTeX (s : t) : option wxString :=
  match arrow (m_baseCell s) with
  | None => None
  | Some b =>
      if is_null (m_scriptCells s) then
        if TeXExponentsAfterSubscript then
          let str := wxT "{{{" ++ ListToTeX b ++ wxT "}" in
          let str := opt_part (wxT "_{") ListToTeX (wxT "}") (m_postSubCell s) str in
          let str := str ++ wxT "}" in
          let str := opt_part (wxT "^{") ListToTeX (wxT "}") (m_postSupCell s) str in
          Some (str ++ wxT "}")
        else
          let str := wxT "{{" ++ ListToTeX b ++ wxT "}" in
          let str := opt_part (wxT "_{") ListToTeX (wxT "}") (m_postSubCell s) str in
          let str := opt_part (wxT "^{") ListToTeX (wxT "}") (m_postSupCell s) str in
          Some (str ++ wxT "}")
      else
        let str := wxEmptyString in
        let str :=
          if negb (is_null (m_preSupCell s)) || negb (is_null (m_preSubCell s)) then
            let str := wxT "{}" in
            let str := opt_part (wxT "^{") ListToTeX (wxT "}") (m_preSupCell s) str in
            opt_part (wxT "^{") ListToTeX (wxT "}") (m_preSubCell s) str
          else str in
        let str := str ++ (wxT "{" ++ ListToTeX b ++ wxT "}") in
        let str := opt_part (wxT "^{") ListToTeX (wxT "}") (m_postSupCell s) str in
        let str := opt_part (wxT "^{") ListToTeX (wxT "}") (m_postSubCell s) str in
        Some str
  end.

(** [retval += "<mrow>" + p->ListToMathML() + "</mrow>"] under [if (p)],
    [retval += "<none/>"] otherwise. *)
Definition mrow_or_none (p : OwningCellPtr) (retval : wxString) : wxString :=
  if negb (is_null p) then retval ++ (wxT "<mrow>" ++ ListToMathML p ++ wxT "</mrow>")
  else retval ++ wxT "<none/>".

(** [SubSupCell::ToMathML]; in the first form the rendering of the
    superscript is computed and not appended. *)
Definition ToMathML (s : t) : option wxString :=
  match arrow (m_baseCell s) with
  | None => None
  | Some b =>
      if is_null (m_scriptCells s) then
        let retval := wxT "<msubsup>" ++ ListToMathML b in
        let retval := if negb (is_null (m_postSubCell s))
                      then retval ++ ListToMathML (m_postSubCell s)
                      else retval ++ wxT "<mrow/>" in
        let retval := if negb (is_null (m_postSupCell s))
                      then retval
                      else retval ++ wxT "<mrow/>" in
        Some (retval ++ (wxT "</msubsup>" ++ [10%N]))
      else
        let retval := wxT "<mmultiscripts>" ++ ListToMathML b in
        let retval :=
          if negb (is_null (m_postSupCell s)) || negb (is_null (m_postSubCell s))
          then mrow_or_none (m_postSupCell s) (mrow_or_none (m_postSubCell s) retval)
          else retval in
        let retval :=
          if negb (is_null (m_preSupCell s)) || negb (is_null (m_preSubCell s))
          then mrow_or_none (m_preSupCell s)
                 (mrow_or_none (m_preSubCell s) (retval ++ wxT "<mprescripts/>"))
          else retval in
        Some (retval ++ (wxT "</mmultiscripts>" ++ [10%N]))
  end.

(** [retval += p->ListToOMML()] under [if (p)], an empty run otherwise. *)
Definition omml_or_empty (p : OwningCellPtr) (retval : wxString) : wxString :=
  if negb (is_null p) then retval ++ ListToOMML p else retval ++ wxT "<m:r></m:r>".

(** [SubSupCell::ToOMML] *)
Definition ToOMML (s : t) : option wxString :=
  let retval := wxEmptyString in
  let retval :=
    if negb (is_null (m_preSupCell s)) || negb (is_null (m_preSubCell s)) then
      let retval := retval ++ wxT "<m:sSubSup><m:e><m:r></m:r></m:e><m:sub>" in
      let retval := omml_or_empty (m_preSubCell s) retval in
      let retval := retval ++ wxT "</m:sub><m:sup>" in
      let retval := omml_or_empty (m_preSupCell s) retval in
      retval ++ (wxT "</m:sup></m:sSubSup>" ++ [10%N])
    else retval in
  match arrow (m_baseCell s) with
  | None => None
  | Some b =>
      let retval := retval ++ (wxT "<m:sSubSup><m:e>" ++ ListToOMML b
                               ++ wxT "</m:e><m:sub>") in
      let retval := omml_or_empty (m_postSubCell s) retval in
      let retval := retval ++ wxT "</m:sub><m:sup>" in
      let retval := omml_or_empty (m_postSupCell s) retval in
      Some (retval ++ (wxT "</m:sup></m:sSubSup>" ++ [10%N]))
  end.

(** [SubSupCell::ToXML] *)
Definition ToXML (s : t) : option wxString :=
  let flags := wxEmptyString in
  let flags := if m_forceBreakLine (base s)
               then flags ++ (wxT " breakline=" ++ quoted (wxT "true"))
               else flags in
  let flags := if negb (wx.eqb (m_altCopyText (base s)) wxEmptyString)
               then flags ++ (wxT " altCopy="
                              ++ quoted (XMLescape (m_altCopyText (base s))))
               else flags in
  match arrow (m_baseCell s) with
  | None => None
  | Some b =>
      if is_null (m_scriptCells s) then
        let retval := wxT "<ie" ++ flags ++ wxT "><r>" ++ ListToXML b
                      ++ wxT "</r><r>" in
        let retval := if negb (is_null (m_postSubCell s))
                      then retval ++ ListToXML (m_postSubCell s) else retval in
        let retval := retval ++ wxT "</r><r>" in
        let retval := if negb (is_null (m_postSupCell s))
                      then retval ++ ListToXML (m_postSupCell s) else retval in
        Some (retval ++ wxT "</r></ie>")
      else
        let r_pos (pos : string) :=
          wxT "<r pos=" ++ quoted (wxT pos) ++ wxT ">" in
        let retval := wxT "<ie" ++ flags ++ wxT "><r>" ++ ListToXML b
                      ++ wxT "</r>" in
        let retval := opt_part (r_pos "presup"%string) ListToXML (wxT "</r>")
                               (m_preSupCell s) retval in
        let retval := opt_part (r_pos "presub"%string) ListToXML (wxT "</r>")
                               (m_preSubCell s) retval in
        let retval := opt_part (r_pos "postsup"%string) ListToXML (wxT "</r>")
                               (m_postSupCell s) retval in
        let retval := opt_part (r_pos "postsub"%string) ListToXML (wxT "</r>")
                               (m_postSubCell s) retval in
        Some (retval ++ wxT "</ie>")
  end.

End Serializers.

End SubSupCell.

(** ** MathParser.cpp *)

Module MathParser.

(** What the parser asks of the toolkit and of the configuration. *)
Record Environment := {
  (* the configuration item [ShowLength()] *)
  ShowLength : Z;
  (* the configuration item [GetWorkingDirectory()] *)
  GetWorkingDirectory : wxString;
  (* [wxXmlDocument::Load] followed by [GetRoot]: the root, if any *)
  xml_Load : wxString -> option wxXmlNode;
  wxImage_GetImageCount : wxString -> Z;
  wxFileExists : wxString -> bool;
  (* whether [wxString::ToDouble] accepts the text *)
  ToDouble_ok : wxString -> bool;
  (* members the constructor sets: a zip file was given; the default label *)
  m_fileSystem : bool;
  m_userDefinedLabel : wxString
}.

(** The members a parse changes, the allocator and two counters: the
    calls to [LoggingMessageBox] and the calls to [wxXmlDocument::Load]. *)
Record State := mkState {
  m_ParserStyle : CellType;
  m_FracStyle : FracStyle;
  m_highlight : bool;
  next_addr : N;
  warnings : nat;
  xml_loads : nat
}.

Inductive result (A : Type) :=
| Ok (a : A)
| Crash          (* a null dereference or an uncaught exception *)
| OutOfFuel.     (* the loop or the recursion did not end within the fuel *)
Arguments Ok {A} a.
Arguments Crash {A}.
Arguments OutOfFuel {A}.

Definition M (A : Type) := State -> result (A * State).

Definition ret {A} (a : A) : M A := fun s => Ok (a, s).
Definition bind {A B} (m : M A) (k : A -> M B) : M B :=
  fun s => match m s with
           | Ok (a, s') => k a s'
           | Crash => Crash
           | OutOfFuel => OutOfFuel
           end.
Definition crash {A} : M A := fun _ => Crash.
Definition out_of_fuel {A} : M A := fun _ => OutOfFuel.

Declare Scope parser_scope.
Delimit Scope parser_scope with parser.
Notation "x <- m ;; k" := (bind m (fun x => k))
  (at level 61, m at next level, right associativity) : parser_scope.
Notation "m ;;; k" := (bind m (fun _ => k))
  (at level 61, right associativity) : parser_scope.
Local Open Scope parser_scope.

Definition gets {A} (f : State -> A) : M A := fun s => Ok (f s, s).
Definition modify (f : State -> State) : M unit := fun s => Ok (tt, f s).

Definition set_ParserStyle (v : CellType) (s : State) : State :=
  mkState v (m_FracStyle s) (m_highlight s) (next_addr s) (warnings s) (xml_loads s).
Definition set_FracStyle (v : FracStyle) (s : State) : State :=
  mkState (m_ParserStyle s) v (m_highlight s) (next_addr s) (warnings s) (xml_loads s).
Definition set_m_highlight (v : bool) (s : State) : State :=
  mkState (m_ParserStyle s) (m_FracStyle s) v (next_addr s) (warnings s) (xml_loads s).
Definition set_next_addr (v : N) (s : State) : State :=
  mkState (m_ParserStyle s) (m_FracStyle s) (m_highlight s) v (warnings s) (xml_loads s).

(** [LoggingMessageBox(...)] *)
Definition LoggingMessageBox : M unit :=
  modify (fun s => mkState (m_ParserStyle s) (m_FracStyle s) (m_highlight s)
                           (next_addr s) (S (warnings s)) (xml_loads s)).

(** [xml.Load(...)] *)
Definition count_xml_load : M unit :=
  modify (fun s => mkState (m_ParserStyle s) (m_FracStyle s) (m_highlight s)
                           (next_addr s) (warnings s) (S (xml_loads s))).

(** An allocating operation of a cell class, run by the parser. *)
Definition liftA {A} (m : Alloc A) : M A :=
  fun s => let '(a, n) := m (next_addr s) in Ok (a, set_next_addr n s).

(** Loops.  [while_ fuel cond body s] is [while (cond) body]; the body
    says whether the loop goes round again ([continue], or the end of the
    body) or is left ([break]). *)
Inductive step (S : Type) := Continue (s : S) | Break (s : S).
Arguments Continue {S} s.
Arguments Break {S} s.

Fixpoint while_ {S} (fuel : nat) (cond : S -> bool) (body : S -> M (step S))
  (s : S) : M S :=
  if cond s then
    match fuel with
    | O => out_of_fuel
    | Datatypes.S fuel' =>
        r <- body s ;;
        match r with
        | Continue s' => while_ fuel' cond body s'
        | Break s' => ret s'
        end
    end
  else ret s.

(** A [for] over the elements of a list. *)
Fixpoint for_each {A S} (l : list A) (body : A -> S -> M S) (s : S) : M S :=
  match l with
  | [] => ret s
  | a :: r => s' <- body a s ;; for_each r body s'
  end.

Definition non_null {A} (p : list A) : bool := negb (is_null p).

(** [MathParser::SkipWhitespaceNode] *)
Definition SkipWhitespaceNode (node : wxXmlNodePtr) : wxXmlNodePtr :=
  match node with
  | [] => node
  | n :: _ =>
      if wxXmlNodeType_eqb (GetType n) wxXML_TEXT_NODE then
        let contents := Trim true (GetContent n) in
        if Length contents <=? 1 then GetNext node else node
      else node
  end.

(** [MathParser::GetNextTag] *)
Definition GetNextTag (node : wxXmlNodePtr) : wxXmlNodePtr :=
  let node := match node with [] => node | _ => GetNext node end in
  SkipWhitespaceNode node.

(** Modelled from the spec: [new T(parent, config)] for a class [T]
    outside the sources: a fresh object, nothing installed or stored. *)
Definition MakeOwned (cls : CellClass) (parent : CellPtr) : M Cell :=
  a <- liftA fresh ;; ret (CObj cls (Cell_new a parent) [] []).

(** Modelled from the spec: [SetValue] of text and editor cells, which
    are not in the sources, stores the text [GetValue] returns. *)
Definition SetValue (text : wxString) (c : Cell) : Cell :=
  match c with
  | CText b _ l => CText b text l
  | _ => set_prop "Value" (PStr text) c
  end.

(** Modelled from the spec: [TextCell::SetUserDefinedLabel], not in the
    sources, stores the label. *)
Definition SetUserDefinedLabel (lbl : wxString) (c : Cell) : Cell :=
  match c with
  | CText b t _ => CText b t lbl
  | _ => c
  end.

(** [MathParser::HandleNullPointer] *)
Definition HandleNullPointer (cell : OwningCellPtr) : M OwningCellPtr :=
  let retval := cell in
  if is_null retval then
    c <- liftA (TextCell_new nullptr missing_contents) ;;
    let c := SetToolTip missing_tooltip c in
    let c := SetStyle TS_ERROR c in
    ret [c]
  else ret retval.

(** What [MathParser::ParseCommonAttrs] does to a cell. *)
Definition common_attrs (n : wxXmlNode) (b : CellBase) : CellBase :=
  let b :=
    if wx.eqb (GetAttribute n (wxT "breakline") (wxT "false")) (wxT "true")
    then set_forceBreakLine true b else b in
  let b :=
    match HasAttribute n (wxT "tooltip") with
    | Some val => set_toolTip val b
    | None => b
    end in
  match HasAttribute n (wxT "altCopy") with
  | Some val => set_altCopyText val b
  | None => b
  end.

(** [MathParser::ParseCommonAttrs] *)
Definition ParseCommonAttrs (node : wxXmlNodePtr) (cell : OwningCellPtr)
  : OwningCellPtr :=
  match cell, node with
  | [], _ | _, [] => cell
  | _, n :: _ => on_head (map_base (common_attrs n)) cell
  end.

(** The same, for a cell the caller has just built from the node. *)
Definition ParseCommonAttrs1 (node : wxXmlNode) (c : Cell) : Cell :=
  map_base (common_attrs node) c.

Section Routines.
Context {services : CellServices}.
Variable env : Environment.
(** The recursive calls to [ParseTag], and the fuel of the loops. *)
Variable ParseTag_rec : wxXmlNodePtr -> bool -> M OwningCellPtr.
Variable fuel : nat.

(** [MathParser::ParseText] *)
Definition ParseText (node : wxXmlNodePtr) (style : TextStyle) : M OwningCellPtr :=
  let str := match node with [] => wxEmptyString | n :: _ => GetContent n end in
  retval <-
    (if non_null node && negb (wx.eqb str wxEmptyString) then
       let str := Replace str (wxT "-") [8722%N] in
       for_each (tokens_strtok 10%N str)
         (fun token (retval : OwningCellPtr) =>
            cell <- liftA (TextCell_new nullptr wxEmptyString) ;;
            parserStyle <- gets m_ParserStyle ;;
            let cell :=
              match style with
              | TS_ERROR => SetType MC_TYPE_ERROR cell
              | TS_WARNING => SetType MC_TYPE_WARNING cell
              | TS_LABEL => SetType MC_TYPE_LABEL cell
              | TS_USERLABEL => SetType MC_TYPE_LABEL cell
              | _ => SetType parserStyle cell
              end in
            let cell := SetStyle style cell in
            highlight <- gets m_highlight ;;
            let cell := SetHighlight highlight cell in
            let cell := SetValue token cell in
            if is_null retval then ret [cell]
            else
              let cell := ForceBreakLine true cell in
              ret (AppendCell [cell] retval))
         []
     else ret []) ;;
  retval <- (if is_null retval
             then c <- liftA (TextCell_new nullptr wxEmptyString) ;; ret [c]
             else ret retval) ;;
  ret (ParseCommonAttrs node retval).

(** [MathParser::ParseHiddenOperatorTag] *)
Definition ParseHiddenOperatorTag (node : wxXmlNode) : M OwningCellPtr :=
  retval <- ParseText (GetChildren node) TS_DEFAULT ;;
  ret (on_head (map_base (set_isHidableMultSign true)) retval).

(** [MathParser::ParseTagContents] *)
Definition ParseTagContents (node : wxXmlNode) : M OwningCellPtr :=
  if non_null (GetChildren node) then ParseTag_rec (GetChildren node) true
  else ret [].

(** [MathParser::ParseHighlightTag] *)
Definition ParseHighlightTag (node : wxXmlNode) : M OwningCellPtr :=
  highlight <- gets m_highlight ;;
  modify (set_m_highlight true) ;;;
  cell <- ParseTag_rec (GetChildren node) true ;;
  modify (set_m_highlight highlight) ;;;
  ret cell.

(** [MathParser::ParseMiscTextTag] *)
Definition ParseMiscTextTag (node : wxXmlNode) : M OwningCellPtr :=
  let style := TS_DEFAULT in
  let style := if wx.eqb (GetAttribute node (wxT "type") wxEmptyString) (wxT "error")
               then TS_ERROR else style in
  let style := if wx.eqb (GetAttribute node (wxT "type") wxEmptyString) (wxT "warning")
               then TS_WARNING else style in
  ParseText (GetChildren node) style.

(** Modelled from the spec: the routines the dispatch table binds to
    [v], [mi], [mo], [n], [mn], [g], [s], [fnm], [st] and [mspace] are
    named by the table but their bodies are not in the sources.
    Section 6 says what the tags stand for (variable name, operator,
    number, ...) and section 2 that a content-bearing text goes through
    the text-run splitter "applying style classification"; the styles the
    spec lists are used, the default one where it names none.  This one
    is bound to [v] and [mi], a variable name. *)
Definition ParseVariableNameTag (node : wxXmlNode) : M OwningCellPtr :=
  ParseText (GetChildren node) TS_VARIABLE.

(** Modelled from the spec: the routine bound to [mo], an operator. *)
Definition ParseOperatorNameTag (node : wxXmlNode) : M OwningCellPtr :=
  ParseText (GetChildren node) TS_FUNCTION.

(** Modelled from the spec: the routine bound to [n] and [mn], a number. *)
Definition ParseNumberTag (node : wxXmlNode) : M OwningCellPtr :=
  ParseText (GetChildren node) TS_DEFAULT.

(** Modelled from the spec: the routine bound to [g], a greek letter. *)
Definition ParseGreekTag (node : wxXmlNode) : M OwningCellPtr :=
  ParseText (GetChildren node) TS_DEFAULT.

(** Modelled from the spec: the routine bound to [s], a special constant. *)
Definition ParseSpecialConstantTag (node : wxXmlNode) : M OwningCellPtr :=
  ParseText (GetChildren node) TS_DEFAULT.

(** Modelled from the spec: the routine bound to [fnm], a function name. *)
Definition ParseFunctionNameTag (node : wxXmlNode) : M OwningCellPtr :=
  ParseText (GetChildren node) TS_FUNCTION.

(** Modelled from the spec: the routine bound to [st], a string. *)
Definition ParseStringTag (node : wxXmlNode) : M OwningCellPtr :=
  ParseText (GetChildren node) TS_DEFAULT.

(** Modelled from the spec: the routine bound to [mspace], a space. *)
Definition ParseSpaceTag (node : wxXmlNode) : M OwningCellPtr :=
  c <- liftA (TextCell_new nullptr (wxT " ")) ;; ret [c].

(** Modelled from the spec: the setters of the classes outside the
    sources, of which only the calls are known.  [call_prop] counts the
    calls of a setter that takes no argument ([SetupBreakUps], [NewRow]). *)
Definition call_prop (name : string) (c : Cell) : Cell :=
  match get_prop name c with
  | Some (PInt n) => set_prop name (PInt (n + 1)) c
  | _ => set_prop name (PInt 1) c
  end.

(** [obj->AddX(child)]: one more child of that name. *)
Definition add_child (slot : string) (v : OwningCellPtr) (c : Cell) : Cell :=
  match c with
  | CObj k b ch pr => CObj k b (ch ++ [(slot, v)]) pr
  | _ => c
  end.

(** [obj->SetX(key, value)], called once per key. *)
Definition push_pair (name : string) (kv : wxString * wxString) (c : Cell) : Cell :=
  match get_prop name c with
  | Some (PPairs l) => set_prop name (PPairs (l ++ [kv])) c
  | _ => set_prop name (PPairs [kv]) c
  end.

(** [ParseTag(child, all)] handed to [HandleNullPointer]. *)
Definition parse_child (child : wxXmlNodePtr) (all : bool) : M OwningCellPtr :=
  r <- ParseTag_rec child all ;; HandleNullPointer r.

(** [MathParser::ParseSlideshowTag] *)
Definition ParseSlideshowTag (node : wxXmlNode) : M OwningCellPtr :=
  let del := wx.eqb (GetAttribute node (wxT "del") (wxT "false")) (wxT "true") in
  let gnuplotSources := GetAttribute node (wxT "gnuplotSources") wxEmptyString in
  let gnuplotData := GetAttribute node (wxT "gnuplotData") wxEmptyString in
  slideShow <- MakeOwned ClsSlideShow nullptr ;;
  match GetChildren node with
  | [] => crash
  | first :: _ =>
      let str := GetContent first in
      let slideShow :=
        match HasAttribute node (wxT "fr") with
        | Some framerate =>
            match ToLong framerate with
            | Some fr => set_prop "FrameRate" (PInt fr) slideShow
            | None => slideShow
            end
        | None => slideShow
        end in
      let slideShow :=
        match HasAttribute node (wxT "frame") with
        | Some framerate =>
            match ToLong framerate with
            | Some frame => set_prop "DisplayedIndex" (PInt frame) slideShow
            | None => slideShow
            end
        | None => slideShow
        end in
      let slideShow :=
        if wx.eqb (GetAttribute node (wxT "running") (wxT "true")) (wxT "false")
        then set_prop "AnimationRunning" (PBool false) slideShow else slideShow in
      let images := filter (fun f => negb (IsEmpty f)) (tokens_ret_empty 59%N str) in
      let numImgs := List.length images in
      let slideShow := set_prop "LoadImages" (PStrs images) slideShow in
      let slideShow := set_prop "LoadImages.del" (PBool del) slideShow in
      let sources := firstn numImgs
                       (combine (tokens_ret_empty 59%N gnuplotSources)
                                (tokens_ret_empty 59%N gnuplotData)) in
      let slideShow := fold_left (fun c kv => push_pair "GnuplotSource" kv c)
                                 sources slideShow in
      ret [slideShow]
  end.

(** [MathParser::ParseImageTag] *)
Definition ParseImageTag (node : wxXmlNode) : M OwningCellPtr :=
  match GetChildren node with
  | [] => crash
  | first :: _ =>
      let filename := GetContent first in
      let ImgCell_new (filename : wxString) (remove : bool) : M Cell :=
        c <- MakeOwned ClsImgCell nullptr ;;
        ret (set_prop "remove" (PBool remove) (set_prop "image" (PStr filename) c)) in
      let SlideShow_new (filename : wxString) (remove : bool) : M OwningCellPtr :=
        c <- MakeOwned ClsSlideShow nullptr ;;
        ret [set_prop "remove" (PBool remove) (set_prop "image" (PStr filename) c)] in
      let finish (imageCell : Cell) : M OwningCellPtr :=
        let gnuplotSource := GetAttribute node (wxT "gnuplotsource") wxEmptyString in
        let gnuplotData := GetAttribute node (wxT "gnuplotdata") wxEmptyString in
        let imageCell :=
          if negb (IsEmpty gnuplotSource)
          then push_pair "GnuplotSource" (gnuplotSource, gnuplotData) imageCell
          else imageCell in
        let imageCell :=
          if wx.eqb (GetAttribute node (wxT "rect") (wxT "true")) (wxT "false")
          then set_prop "DrawRectangle" (PBool false) imageCell else imageCell in
        let sizeString := GetAttribute node (wxT "maxWidth") (wxT "-1") in
        let imageCell :=
          if negb (wx.eqb sizeString (wxT "-1")) && ToDouble_ok env sizeString
          then set_prop "MaxWidth" (PStr sizeString) imageCell else imageCell in
        let sizeString := GetAttribute node (wxT "maxHeight") (wxT "-1") in
        let imageCell :=
          if negb (wx.eqb sizeString (wxT "-1")) && ToDouble_ok env sizeString
          then set_prop "MaxHeight" (PStr sizeString) imageCell else imageCell in
        ret [imageCell] in
      if m_fileSystem env then
        c <- ImgCell_new filename false ;; finish c
      else if negb (wx.eqb (GetAttribute node (wxT "del") (wxT "yes")) (wxT "no")) then
        if wxImage_GetImageCount env filename <? 2
        then c <- ImgCell_new filename true ;; finish c
        else SlideShow_new filename true
      else
        let filename :=
          if negb (wxFileExists env filename)
             && wxFileExists env (GetWorkingDirectory env ++ wxT "/" ++ filename)
          then GetWorkingDirectory env ++ wxT "/" ++ filename else filename in
        if wxImage_GetImageCount env filename <? 2
        then c <- ImgCell_new filename false ;; finish c
        else SlideShow_new filename false
  end.

(** [MathParser::ParseOutputLabelTag]; [ParseText] returns text cells. *)
Definition ParseOutputLabelTag (node : wxXmlNode) : M OwningCellPtr :=
  let user_lbl := GetAttribute node (wxT "userdefinedlabel") (m_userDefinedLabel env) in
  let userdefined := GetAttribute node (wxT "userdefined") (wxT "no") in
  r <- (if negb (wx.eqb userdefined (wxT "yes")) then
          cell <- ParseText (GetChildren node) TS_LABEL ;; ret (cell, user_lbl)
        else
          cell <- ParseText (GetChildren node) TS_USERLABEL ;;
          if IsEmpty user_lbl then
            let user_lbl := match cell with c :: _ => GetValue c | [] => wxEmptyString end in
            match substr user_lbl 1 (Length user_lbl - 2) with
            | Some user_lbl => ret (cell, user_lbl)
            | None => crash
            end
          else ret (cell, user_lbl)) ;;
  let '(cell, user_lbl) := r in
  let cell := on_head (SetUserDefinedLabel user_lbl) cell in
  ret (on_head (ForceBreakLine true) cell).

(** [MathParser::ParseMthTag] *)
Definition ParseMthTag (node : wxXmlNode) : M OwningCellPtr :=
  cell <- ParseTag_rec (GetChildren node) true ;;
  if non_null cell then ret (on_head (ForceBreakLine true) cell)
  else c <- liftA (TextCell_new nullptr (wxT " ")) ;; ret [c].

(** [MathParser::ParseEditorTag] *)
Definition ParseEditorTag (node : wxXmlNode) : M OwningCellPtr :=
  editor <- MakeOwned ClsEditorCell nullptr ;;
  let type := GetAttribute node (wxT "type") (wxT "input") in
  let editor :=
    if wx.eqb type (wxT "input") then SetType MC_TYPE_INPUT editor
    else if wx.eqb type (wxT "text") then SetType MC_TYPE_TEXT editor
    else if wx.eqb type (wxT "title") then SetType MC_TYPE_TITLE editor
    else if wx.eqb type (wxT "section") then SetType MC_TYPE_SECTION editor
    else if wx.eqb type (wxT "subsection") then SetType MC_TYPE_SUBSECTION editor
    else if wx.eqb type (wxT "subsubsection") then SetType MC_TYPE_SUBSUBSECTION editor
    else if wx.eqb type (wxT "heading5") then SetType MC_TYPE_HEADING5 editor
    else if wx.eqb type (wxT "heading6") then SetType MC_TYPE_HEADING6 editor
    else editor in
  let text :=
    fold_left
      (fun (text : wxString) line =>
         if wx.eqb (GetName line) (wxT "line") then
           let text := if negb (IsEmpty text) then text ++ [10%N] else text in
           text ++ GetNodeContent line
         else text)
      (GetChildren node) wxEmptyString in
  ret [SetValue text editor].

(** Modelled from the spec: [new GroupCell(config, groupType)];
    [GroupCell], "one worksheet entry", is not in the sources. *)
Definition GroupCell_new (groupType : GroupType) : M Cell :=
  c <- MakeOwned ClsGroupCell nullptr ;;
  ret (set_prop "GroupType" (PGroup groupType) c).

(** [MathParser::ParseCommonGroupCellAttrs] *)
Definition ParseCommonGroupCellAttrs (node : wxXmlNode) (group : Cell) : Cell :=
  if wx.eqb (GetAttribute node (wxT "hideToolTip") wxEmptyString) (wxT "true")
  then set_prop "SuppressTooltipMarker" (PBool true) group
  else group.

(** [MathParser::GroupCellFromSubsectionTag] *)
Definition GroupCellFromSubsectionTag (node : wxXmlNode) : M Cell :=
  let sectioning_level := GetAttribute node (wxT "sectioning_level") (wxT "0") in
  let group : OwningCellPtr := [] in
  group <- (if wx.eqb sectioning_level (wxT "0") || wx.eqb sectioning_level (wxT "3")
            then g <- GroupCell_new GC_TYPE_SUBSECTION ;; ret [g] else ret group) ;;
  group <- (if wx.eqb sectioning_level (wxT "4")
            then g <- GroupCell_new GC_TYPE_SUBSUBSECTION ;; ret [g] else ret group) ;;
  group <- (if wx.eqb sectioning_level (wxT "5")
            then g <- GroupCell_new GC_TYPE_HEADING5 ;; ret [g] else ret group) ;;
  group <- (match group with
            | [] => GroupCell_new GC_TYPE_HEADING6
            | g :: _ => ret g
            end) ;;
  ret (ParseCommonGroupCellAttrs node group).

(** [MathParser::GroupCellFromImageTag] *)
Definition GroupCellFromImageTag (node : wxXmlNode) : M Cell :=
  group <- GroupCell_new GC_TYPE_IMAGE ;;
  ret (ParseCommonGroupCellAttrs node group).

(** [wxString::Format(wxT("%i"), i)] for a positive [i]. *)
Fixpoint digits_of (n : nat) (z : Z) (acc : wxString) : wxString :=
  match n with
  | O => acc
  | S n' =>
      let acc := Z.to_N (48 + z mod 10) :: acc in
      if z / 10 =? 0 then acc else digits_of n' (z / 10) acc
  end.
Definition Format_i (z : Z) : wxString := digits_of (S (Z.to_nat z)) z [].

(** [MathParser::GroupCellFromCodeTag] *)
Definition GroupCellFromCodeTag (node : wxXmlNode) : M Cell :=
  group <- GroupCell_new GC_TYPE_CODE ;;
  let isAutoAnswer := GetAttribute node (wxT "auto_answer") (wxT "no") in
  let group := if wx.eqb isAutoAnswer (wxT "yes")
               then set_prop "AutoAnswer" (PBool true) group else group in
  r <- while_ fuel
         (fun '(i, _) => match HasAttribute node (wxT "answer" ++ Format_i i) with
                         | Some _ => true | None => false end)
         (fun '(i, group) =>
            let answer := GetAttribute node (wxT "answer" ++ Format_i i) wxEmptyString in
            let group :=
              match HasAttribute node (wxT "question" ++ Format_i i) with
              | Some question => push_pair "Answer" (question, answer) group
              | None => push_pair "Answer" (wxT "Question #" ++ Format_i i, answer) group
              end in
            ret (Continue (i + 1, group)))
         (1, group) ;;
  ret (ParseCommonGroupCellAttrs node (snd r)).

(** Modelled from the spec: the routines the group table binds to
    [pagebreak], [text], [title], [section], [subsubsection], [heading5]
    and [heading6] have no body in the sources.  The table maps "block
    tags that represent one worksheet entry (code, text, section heading,
    image, page break)" to their routine (section 3); each builds the
    group cell of its kind, the way the routines of the sources do. *)
Definition GroupCellFromKind (groupType : GroupType) (node : wxXmlNode) : M Cell :=
  group <- GroupCell_new groupType ;;
  ret (ParseCommonGroupCellAttrs node group).

(** [m_groupTags], as the constructor fills it. *)
Definition m_groupTags : list (wxString * (wxXmlNode -> M Cell)) :=
  [ (wxT "code", GroupCellFromCodeTag);
    (wxT "image", GroupCellFromImageTag);
    (wxT "pagebreak", GroupCellFromKind GC_TYPE_PAGEBREAK);
    (wxT "text", GroupCellFromKind GC_TYPE_TEXT);
    (wxT "title", GroupCellFromKind GC_TYPE_TITLE);
    (wxT "section", GroupCellFromKind GC_TYPE_SECTION);
    (wxT "subsection", GroupCellFromSubsectionTag);
    (wxT "subsubsection", GroupCellFromKind GC_TYPE_SUBSUBSECTION);
    (wxT "heading5", GroupCellFromKind GC_TYPE_HEADING5);
    (wxT "heading6", GroupCellFromKind GC_TYPE_HEADING6) ].

(** [table[key]]: the routine, or null for a key that is not there. *)
Fixpoint lookup {V} (table : list (wxString * V)) (key : wxString) : option V :=
  match table with
  | [] => None
  | (k, v) :: r => if wx.eqb k key then Some v else lookup r key
  end.

(** Modelled from the spec: the setters of [GroupCell], a class outside
    the sources.  The routine "attaches them into parent structures
    (including ... editable blocks, and folded/collapsed sections)"
    (section 2): the editable content and the hidden tree are stored, an
    output is appended to the outputs the group already has. *)
Definition SetEditableContent (text : wxString) (group : Cell) : Cell :=
  set_prop "EditableContent" (PStr text) group.
(** Modelled from the spec: [GroupCell::HideTree], as said above. *)
Definition HideTree (tree : OwningCellPtr) (group : Cell) : Cell :=
  set_child "HiddenTree" tree group.
(** Modelled from the spec: [GroupCell::AppendOutput], as said above. *)
Definition AppendOutput (cell : OwningCellPtr) (group : Cell) : Cell :=
  match get_child "Output" group with
  | [] => set_child "Output" cell group
  | out => set_child "Output" (AppendCell cell out) group
  end.

(** [l[i] = f(l[i])] *)
Fixpoint update_nth {A} (i : nat) (f : A -> A) (l : list A) : list A :=
  match l, i with
  | [], _ => []
  | a :: r, O => f a :: r
  | a :: r, S i' => a :: update_nth i' f r
  end.

(** The state of the loop over the children of a [fold]: the node, the
    tree assembled so far, and [last], a pointer into the tree. *)
Definition fold_state : Type := wxXmlNodePtr * OwningCellPtr * option nat.

(** The body of the loop that assembles the cells of a [fold]. *)
Definition fold_body (st : fold_state) : M (step fold_state) :=
  let '(xmlcells, tree, last) := st in
  ownedCell <- ParseTag_rec xmlcells false ;;
  if is_null ownedCell then
    (* [if (!cell) continue;] *)
    ret (Continue (xmlcells, tree, last))
  else
    match is_null tree, last with
    | true, None =>
        (* the first cell becomes the tree, and [last] *)
        ret (Continue (GetNextTag xmlcells, ownedCell, Some O))
    | false, Some i =>
        let tree := firstn (S i) tree ++ ownedCell in
        let tree := update_nth i (SetNextToDraw (get ownedCell)) tree in
        ret (Continue (GetNextTag xmlcells, tree, Some (S i)))
    | _, _ =>
        (* [tree] and [last] are set together: these cases do not arise *)
        crash
    end.

(** The loop of [ParseCellTag] over the children of a [fold]. *)
Definition fold_loop (xmlcells : wxXmlNodePtr) : M fold_state :=
  while_ fuel (fun '(xmlcells, _, _) => non_null xmlcells) fold_body
         (xmlcells, [], None).

(** [MathParser::ParseCellTag] *)
Definition ParseCellTag (node : wxXmlNode) : M OwningCellPtr :=
  let hide := wx.eqb (GetAttribute node (wxT "hide") (wxT "false")) (wxT "true") in
  let type := GetAttribute node (wxT "type") (wxT "text") in
  match lookup m_groupTags type with
  | None => ret []
  | Some function =>
      group <- function node ;;
      let children := SkipWhitespaceNode (GetChildren node) in
      r <- while_ fuel
             (fun '(children, _) => non_null children)
             (fun '(children, group) =>
                match children with
                | [] => ret (Break (children, group))
                | child :: _ =>
                    group <-
                      (if wx.eqb (GetName child) (wxT "editor") then
                         ed <- ParseEditorTag child ;;
                         match ed with
                         | e :: _ => ret (SetEditableContent (GetValue e) group)
                         | [] => ret group
                         end
                       else if wx.eqb (GetName child) (wxT "fold") then
                         let xmlcells := SkipWhitespaceNode (GetChildren child) in
                         f <- fold_loop xmlcells ;;
                         let '(_, tree, _) := f in
                         if non_null tree then ret (HideTree tree group)
                         else ret group
                       else if wx.eqb (GetName child) (wxT "input") then
                         editor <- ParseTag_rec (GetChildren child) true ;;
                         editor <-
                           (if is_null editor then
                              e <- MakeOwned ClsEditorCell (Some (m_this (base_of group))) ;;
                              ret [SetValue missing_contents e]
                            else ret editor) ;;
                         match editor with
                         | e :: _ => ret (SetEditableContent (GetValue e) group)
                         | [] => ret group
                         end
                       else
                         out <- parse_child children true ;;
                         ret (AppendOutput out group)) ;;
                    ret (Continue (GetNextTag children, group))
                end)
             (children, group) ;;
      let group := snd r in
      let group := map_base (set_group (Some (m_this (base_of group)))) group in
      let group := set_prop "Hide" (PBool hide) group in
      ret [group]
  end.

(** [cell->SetType(m_ParserStyle); cell->SetStyle(TS_VARIABLE);] *)
Definition typed_variable (c : Cell) : M Cell :=
  parserStyle <- gets m_ParserStyle ;;
  ret (SetStyle TS_VARIABLE (SetType parserStyle c)).

(** [MathParser::ParseFracTag] *)
Definition ParseFracTag (node : wxXmlNode) : M OwningCellPtr :=
  frac <- MakeOwned ClsFracCell nullptr ;;
  fracStyle <- gets m_FracStyle ;;
  let frac := set_prop "FracStyle" (PFrac fracStyle) frac in
  highlight <- gets m_highlight ;;
  let frac := SetHighlight highlight frac in
  let child := SkipWhitespaceNode (GetChildren node) in
  num <- parse_child child false ;;
  let frac := set_child "Num" num frac in
  let child := GetNextTag child in
  denom <- parse_child child false ;;
  let frac := set_child "Denom" denom frac in
  let frac := if wx.eqb (GetAttribute node (wxT "line") wxEmptyString) (wxT "no")
              then set_prop "FracStyle" (PFrac FC_CHOOSE) frac else frac in
  let frac := if wx.eqb (GetAttribute node (wxT "diffstyle") wxEmptyString) (wxT "yes")
              then set_prop "FracStyle" (PFrac FC_DIFF) frac else frac in
  frac <- typed_variable frac ;;
  let frac := call_prop "SetupBreakUps" frac in
  ret [ParseCommonAttrs1 node frac].

(** [MathParser::ParseDiffTag] *)
Definition ParseDiffTag (node : wxXmlNode) : M OwningCellPtr :=
  diff <- MakeOwned ClsDiffCell nullptr ;;
  let child := SkipWhitespaceNode (GetChildren node) in
  diff <-
    (if non_null child then
       fc <- gets m_FracStyle ;;
       modify (set_FracStyle FC_DIFF) ;;;
       d <- parse_child child false ;;
       let diff := set_child "Diff" d diff in
       modify (set_FracStyle fc) ;;;
       let child := GetNextTag child in
       b <- parse_child child true ;;
       let diff := set_child "Base" b diff in
       typed_variable diff
     else ret diff) ;;
  ret [ParseCommonAttrs1 node diff].

(** [MathParser::ParseSupTag] *)
Definition ParseSupTag (node : wxXmlNode) : M OwningCellPtr :=
  expt <- MakeOwned ClsExptCell nullptr ;;
  let expt := if non_null (GetAttributes node)
              then set_prop "IsMatrix" (PBool true) expt else expt in
  let child := SkipWhitespaceNode (GetChildren node) in
  base <- parse_child child false ;;
  let baseString := Cell_ToString base in
  let expt := set_child "Base" base expt in
  let child := GetNextTag child in
  power <- parse_child child false ;;
  let power := on_head SetExponentFlag power in
  expt <- typed_variable expt ;;
  let powerString := Cell_ToString power in
  let expt := set_child "Power" power expt in
  let expt := ParseCommonAttrs1 node expt in
  let expt := if wx.eqb (GetAttribute node (wxT "mat") (wxT "false")) (wxT "true")
              then SetAltCopyText (baseString ++ wxT "^^" ++ powerString) expt
              else expt in
  ret [expt].

(** [MathParser::ParseSubSupTag] *)
Definition ParseSubSupTag (node : wxXmlNode) : M OwningCellPtr :=
  subsup <- liftA (SubSupCell.new nullptr) ;;
  let child := SkipWhitespaceNode (GetChildren node) in
  base <- parse_child child false ;;
  let subsup := SubSupCell.SetBase base subsup in
  let child := GetNextTag child in
  let has_pos :=
    match child with
    | c :: _ => negb (IsEmpty (GetAttribute c (wxT "pos") wxEmptyString))
    | [] => false
    end in
  if has_pos then
    r <- while_ fuel
           (fun '(child, _) => non_null child)
           (fun '(child, subsup) =>
              let pos := match child with
                         | c :: _ => GetAttribute c (wxT "pos") wxEmptyString
                         | [] => wxEmptyString
                         end in
              cell <- parse_child child false ;;
              let subsup :=
                if wx.eqb pos (wxT "presub") then SubSupCell.SetPreSub cell subsup
                else if wx.eqb pos (wxT "presup") then SubSupCell.SetPreSup cell subsup
                else if wx.eqb pos (wxT "postsup") then SubSupCell.SetPostSup cell subsup
                else if wx.eqb pos (wxT "postsub") then SubSupCell.SetPostSub cell subsup
                else subsup in
              let child := SkipWhitespaceNode child in
              let child := GetNextTag child in
              ret (Continue (child, subsup)))
           (child, subsup) ;;
    ret [SubSupCell.upcast (snd r)]
  else
    index <- parse_child child false ;;
    let index := on_head SetExponentFlag index in
    let subsup := SubSupCell.SetIndex index subsup in
    let child := GetNextTag child in
    power <- parse_child child false ;;
    let power := on_head SetExponentFlag power in
    let subsup := SubSupCell.SetExponent power subsup in
    parserStyle <- gets m_ParserStyle ;;
    let subsup := SubSupCell.with_base (set_type parserStyle) subsup in
    let subsup := SubSupCell.with_base (set_textStyle TS_VARIABLE) subsup in
    ret [ParseCommonAttrs1 node (SubSupCell.upcast subsup)].

(** [MathParser::ParseMmultiscriptsTag] *)
Definition ParseMmultiscriptsTag (node : wxXmlNode) : M OwningCellPtr :=
  subsup <- liftA (SubSupCell.new nullptr) ;;
  let pre := false in
  let subscript := true in
  let child := SkipWhitespaceNode (GetChildren node) in
  base <- parse_child child false ;;
  let subsup := SubSupCell.SetBase base subsup in
  let child := GetNextTag child in
  r <- while_ fuel
         (fun '(child, _, _, _) => non_null child)
         (fun '(child, pre, subscript, subsup) =>
            match child with
            | [] => ret (Break (child, pre, subscript, subsup))
            | c :: _ =>
                if wx.eqb (GetName c) (wxT "mprescripts") then
                  ret (Continue (GetNextTag child, true, true, subsup))
                else
                  subsup <-
                    (if negb (wx.eqb (GetName c) (wxT "none")) then
                       cell <- ParseTag_rec child false ;;
                       ret (if pre && subscript then SubSupCell.SetPreSub cell subsup
                            else if pre && negb subscript then SubSupCell.SetPreSup cell subsup
                            else if negb pre && subscript then SubSupCell.SetPostSub cell subsup
                            else SubSupCell.SetPostSup cell subsup)
                     else ret subsup) ;;
                  let subscript := negb subscript in
                  let child := SkipWhitespaceNode child in
                  let child := GetNextTag child in
                  ret (Continue (child, pre, subscript, subsup))
            end)
         (child, pre, subscript, subsup) ;;
  ret [SubSupCell.upcast (snd r)].

(** The routines that install a base and one more child, both required:
    [ParseSubTag] ([SubCell], index with the exponent flag) and
    [ParseAtTag] ([AtCell]). *)

(** [MathParser::ParseSubTag] *)
Definition ParseSubTag (node : wxXmlNode) : M OwningCellPtr :=
  sub <- MakeOwned ClsSubCell nullptr ;;
  let child := SkipWhitespaceNode (GetChildren node) in
  base <- parse_child child false ;;
  let sub := set_child "Base" base sub in
  let child := GetNextTag child in
  index <- parse_child child false ;;
  let index := on_head SetExponentFlag index in
  let sub := set_child "Index" index sub in
  sub <- typed_variable sub ;;
  ret [ParseCommonAttrs1 node sub].

(** [MathParser::ParseAtTag] *)
Definition ParseAtTag (node : wxXmlNode) : M OwningCellPtr :=
  at_ <- MakeOwned ClsAtCell nullptr ;;
  let child := SkipWhitespaceNode (GetChildren node) in
  base <- parse_child child false ;;
  let at_ := set_child "Base" base at_ in
  highlight <- gets m_highlight ;;
  let at_ := SetHighlight highlight at_ in
  let child := GetNextTag child in
  index <- parse_child child false ;;
  let at_ := set_child "Index" index at_ in
  at_ <- typed_variable at_ ;;
  ret [ParseCommonAttrs1 node at_].

(** [MathParser::ParseFunTag] *)
Definition ParseFunTag (node : wxXmlNode) : M OwningCellPtr :=
  fun_ <- liftA (FunCell.new nullptr true) ;;
  let child := SkipWhitespaceNode (GetChildren node) in
  name <- parse_child child false ;;
  fun_ <- liftA (FunCell.SetName name fun_) ;;
  let child := GetNextTag child in
  parserStyle <- gets m_ParserStyle ;;
  let fun_ := FunCell.with_base (set_type parserStyle) fun_ in
  let fun_ := FunCell.with_base (set_textStyle TS_FUNCTION) fun_ in
  arg <- parse_child child false ;;
  fun_ <- liftA (FunCell.SetArg arg fun_) ;;
  let fun_ := FunCell.with_base (common_attrs node) fun_ in
  let fun_ :=
    if Contains (FunCell.ToString fun_) (wxT ")(")
    then FunCell.with_base
           (set_toolTip (wxT "If this isn't a function returning a lambda() expression, a multiplication sign (*) between closing and opening parenthesis is missing here."))
           fun_
    else fun_ in
  ret [FunCell.upcast fun_].

(** [MathParser::ParseCharCode] *)
Definition ParseCharCode (node : wxXmlNode) : M OwningCellPtr :=
  cell <- liftA (TextCell_new nullptr wxEmptyString) ;;
  let str := GetContent node in
  cell <-
    (if negb (IsEmpty str) then
       let str := match ToLong str with
                  | Some code => [Z.to_N (code mod 2 ^ 32)]
                  | None => str
                  end in
       let cell := SetValue str cell in
       parserStyle <- gets m_ParserStyle ;;
       let cell := SetType parserStyle cell in
       let cell := SetStyle TS_DEFAULT cell in
       highlight <- gets m_highlight ;;
       ret (SetHighlight highlight cell)
     else ret cell) ;;
  ret [ParseCommonAttrs1 node cell].

(** [MathParser::ParseSqrtTag], [ParseAbsTag], [ParseConjugateTag] differ by
    the class they allocate. *)
Definition parse_inner (cls : CellClass) (node : wxXmlNode) : M OwningCellPtr :=
  let child := SkipWhitespaceNode (GetChildren node) in
  cell <- MakeOwned cls nullptr ;;
  inner <- parse_child child true ;;
  let cell := set_child "Inner" inner cell in
  cell <- typed_variable cell ;;
  highlight <- gets m_highlight ;;
  let cell := SetHighlight highlight cell in
  ret [ParseCommonAttrs1 node cell].

Definition ParseSqrtTag := parse_inner ClsSqrtCell.
Definition ParseAbsTag := parse_inner ClsAbsCell.
Definition ParseConjugateTag := parse_inner ClsConjugateCell.

(** [MathParser::ParseParenTag]: a null inner cell is legal here. *)
Definition ParseParenTag (node : wxXmlNode) : M OwningCellPtr :=
  let child := SkipWhitespaceNode (GetChildren node) in
  cell <- MakeOwned ClsParenCell nullptr ;;
  inner <- ParseTag_rec child true ;;
  parserStyle <- gets m_ParserStyle ;;
  let cell := set_child "Inner" inner cell in
  let cell := set_prop "InnerType" (PType parserStyle) cell in
  highlight <- gets m_highlight ;;
  let cell := SetHighlight highlight cell in
  let cell := SetStyle TS_VARIABLE cell in
  let cell := if non_null (GetAttributes node)
              then set_prop "Print" (PBool false) cell else cell in
  ret [ParseCommonAttrs1 node cell].

(** [MathParser::ParseLimitTag] *)
Definition ParseLimitTag (node : wxXmlNode) : M OwningCellPtr :=
  limit <- liftA (LimitCell.new nullptr true) ;;
  let child := SkipWhitespaceNode (GetChildren node) in
  name <- parse_child child false ;;
  limit <- liftA (LimitCell.SetName name limit) ;;
  let child := GetNextTag child in
  under <- parse_child child false ;;
  limit <- liftA (LimitCell.SetUnder under limit) ;;
  let child := GetNextTag child in
  base <- parse_child child false ;;
  limit <- liftA (LimitCell.SetBase base limit) ;;
  parserStyle <- gets m_ParserStyle ;;
  let limit := LimitCell.with_base (set_type parserStyle) limit in
  let limit := LimitCell.with_base (set_textStyle TS_VARIABLE) limit in
  ret [ParseCommonAttrs1 node (LimitCell.upcast limit)].

(** [MathParser::ParseSumTag] *)
Definition ParseSumTag (node : wxXmlNode) : M OwningCellPtr :=
  sum <- MakeOwned ClsSumCell nullptr ;;
  let child := SkipWhitespaceNode (GetChildren node) in
  let type := GetAttribute node (wxT "type") (wxT "sum") in
  let sum := if wx.eqb type (wxT "prod")
             then set_prop "SumStyle" (PEnum "SM_PROD") sum else sum in
  highlight <- gets m_highlight ;;
  let sum := SetHighlight highlight sum in
  under <- parse_child child false ;;
  let sum := set_child "Under" under sum in
  let child := GetNextTag child in
  sum <- (if negb (wx.eqb type (wxT "lsum"))
          then over <- parse_child child false ;; ret (set_child "Over" over sum)
          else ret sum) ;;
  let child := GetNextTag child in
  base <- parse_child child false ;;
  let sum := set_child "Base" base sum in
  sum <- typed_variable sum ;;
  ret [ParseCommonAttrs1 node sum].

(** [MathParser::ParseIntTag] *)
Definition ParseIntTag (node : wxXmlNode) : M OwningCellPtr :=
  in_ <- MakeOwned ClsIntCell nullptr ;;
  let child := SkipWhitespaceNode (GetChildren node) in
  highlight <- gets m_highlight ;;
  let in_ := SetHighlight highlight in_ in
  let definiteAtt := GetAttribute node (wxT "def") (wxT "true") in
  in_ <-
    (if negb (wx.eqb definiteAtt (wxT "true")) then
       base <- parse_child child false ;;
       let in_ := set_child "Base" base in_ in
       let child := GetNextTag child in
       var <- parse_child child true ;;
       let in_ := set_child "Var" var in_ in
       typed_variable in_
     else
       let in_ := set_prop "IntStyle" (PEnum "INT_DEF") in_ in
       under <- parse_child child false ;;
       let in_ := set_child "Under" under in_ in
       let child := GetNextTag child in
       over <- parse_child child false ;;
       let in_ := set_child "Over" over in_ in
       let child := GetNextTag child in
       base <- parse_child child false ;;
       let in_ := set_child "Base" base in_ in
       let child := GetNextTag child in
       var <- parse_child child true ;;
       let in_ := set_child "Var" var in_ in
       typed_variable in_) ;;
  ret [ParseCommonAttrs1 node in_].

(** [MathParser::ParseTableTag] *)
Definition ParseTableTag (node : wxXmlNode) : M OwningCellPtr :=
  matrix <- MakeOwned ClsMatrCell nullptr ;;
  highlight <- gets m_highlight ;;
  let matrix := SetHighlight highlight matrix in
  let flag (name : string) := wx.eqb (GetAttribute node (wxT name) (wxT "false")) (wxT "true") in
  let matrix := if flag "special"%string
                then set_prop "SpecialFlag" (PBool true) matrix else matrix in
  let matrix := if flag "inference"%string
                then set_prop "SpecialFlag" (PBool true)
                       (set_prop "InferenceFlag" (PBool true) matrix)
                else matrix in
  let matrix := if flag "colnames"%string
                then set_prop "ColNames" (PBool true) matrix else matrix in
  let matrix := if flag "rownames"%string
                then set_prop "RowNames" (PBool true) matrix else matrix in
  let matrix := if flag "roundedParens"%string
                then set_prop "RoundedParens" (PBool true) matrix else matrix in
  let rows := SkipWhitespaceNode (GetChildren node) in
  r <- while_ fuel
         (fun '(rows, _) => non_null rows)
         (fun '(rows, matrix) =>
            let matrix := call_prop "NewRow" matrix in
            let cells := SkipWhitespaceNode
                           (match rows with r :: _ => GetChildren r | [] => [] end) in
            c <- while_ fuel
                   (fun '(cells, _) => non_null cells)
                   (fun '(cells, matrix) =>
                      let matrix := call_prop "NewColumn" matrix in
                      cell <- parse_child cells false ;;
                      let matrix := add_child "Cell" cell matrix in
                      ret (Continue (GetNextTag cells, matrix)))
                   (cells, matrix) ;;
            ret (Continue (GetNextTag rows, snd c)))
         (rows, matrix) ;;
  matrix <- typed_variable (snd r) ;;
  let matrix := call_prop "SetDimension" matrix in
  ret [ParseCommonAttrs1 node matrix].

(** [m_innerTags], as the constructor fills it. *)
Definition m_innerTags : list (wxString * (wxXmlNode -> M OwningCellPtr)) :=
  [ (wxT "v", ParseVariableNameTag);
    (wxT "mi", ParseVariableNameTag);
    (wxT "mo", ParseOperatorNameTag);
    (wxT "t", ParseMiscTextTag);
    (wxT "n", ParseNumberTag);
    (wxT "mn", ParseNumberTag);
    (wxT "p", ParseParenTag);
    (wxT "f", ParseFracTag);
    (wxT "mfrac", ParseFracTag);
    (wxT "e", ParseSupTag);
    (wxT "msup", ParseSupTag);
    (wxT "i", ParseSubTag);
    (wxT "munder", ParseSubTag);
    (wxT "fn", ParseFunTag);
    (wxT "g", ParseGreekTag);
    (wxT "s", ParseSpecialConstantTag);
    (wxT "fnm", ParseFunctionNameTag);
    (wxT "q", ParseSqrtTag);
    (wxT "d", ParseDiffTag);
    (wxT "sm", ParseSumTag);
    (wxT "in", ParseIntTag);
    (wxT "mspace", ParseSpaceTag);
    (wxT "at", ParseAtTag);
    (wxT "a", ParseAbsTag);
    (wxT "cj", ParseConjugateTag);
    (wxT "ie", ParseSubSupTag);
    (wxT "mmultiscripts", ParseMmultiscriptsTag);
    (wxT "lm", ParseLimitTag);
    (wxT "r", ParseTagContents);
    (wxT "mrow", ParseTagContents);
    (wxT "tb", ParseTableTag);
    (wxT "mth", ParseMthTag);
    (wxT "line", ParseMthTag);
    (wxT "lbl", ParseOutputLabelTag);
    (wxT "st", ParseStringTag);
    (wxT "hl", ParseHighlightTag);
    (wxT "h", ParseHiddenOperatorTag);
    (wxT "img", ParseImageTag);
    (wxT "slide", ParseSlideshowTag);
    (wxT "editor", ParseEditorTag);
    (wxT "cell", ParseCellTag);
    (wxT "ascii", ParseCharCode) ].

(** The raw pointer [cell] of [ParseTag]: null, or a position in the chain
    [retval] owns, or a position in the chain [ownedCell] owns. *)
Inductive cursor := AtNull | InRetval (i : nat) | InOwned (i : nat).

(** The local variables of [ParseTag]. *)
Record locals := mkLocals {
  retval : OwningCellPtr;
  ownedCell : OwningCellPtr;
  cell : cursor;
  warning : bool;
  node : wxXmlNodePtr
}.

Definition cursor_is_null (c : cursor) : bool :=
  match c with AtNull => true | _ => false end.

(** The chain from the cell [cell] points to. *)
Definition pointee (l : locals) : OwningCellPtr :=
  match cell l with
  | AtNull => []
  | InRetval i => skipn i (retval l)
  | InOwned i => skipn i (ownedCell l)
  end.

(** [cell->AppendCell(p)]: the walk to the end of the chain starts at
    [cell] and ends where it ends from the head. *)
Definition append_at_cursor (p : OwningCellPtr) (l : locals) : M locals :=
  match cell l with
  | AtNull => crash
  | InRetval _ =>
      ret (mkLocals (AppendCell p (retval l)) (ownedCell l) (cell l) (warning l) (node l))
  | InOwned _ =>
      ret (mkLocals (retval l) (AppendCell p (ownedCell l)) (cell l) (warning l) (node l))
  end.

(** [cell = cell->m_next.get()] *)
Definition advance (l : locals) : cursor :=
  match cell l with
  | AtNull => AtNull
  | InRetval i =>
      if Nat.ltb (S i) (List.length (retval l)) then InRetval (S i) else AtNull
  | InOwned i =>
      if Nat.ltb (S i) (List.length (ownedCell l)) then InOwned (S i) else AtNull
  end.

(** [cell = p.get(); ownedCell = std::move(p);] *)
Definition own (p : OwningCellPtr) (l : locals) : locals :=
  mkLocals (retval l) p (if is_null p then AtNull else InOwned O)
           (warning l) (node l).

(** [retval = std::move(ownedCell)]: [cell] points where it pointed. *)
Definition move_to_retval (l : locals) : locals :=
  mkLocals (ownedCell l) []
           (match cell l with InOwned i => InRetval i | c => c end)
           (warning l) (node l).

(** One turn of the loop of [MathParser::ParseTag]. *)
Definition ParseTag_body (all : bool) (l : locals) : M (step locals) :=
  match node l with
  | [] => ret (Break l)
  | n :: _ =>
      l <-
        (if wxXmlNodeType_eqb (GetType n) wxXML_ELEMENT_NODE then
           let tagName := GetName n in
           tmp <- match lookup m_innerTags tagName with
                  | Some function => function n
                  | None => ret []
                  end ;;
           tmp <- (if is_null tmp && non_null (GetChildren n)
                   then ParseTag_rec (GetChildren n) true
                   else ret tmp) ;;
           if is_null tmp then
             let tmp := ParseCommonAttrs (node l) tmp in
             if cursor_is_null (cell l) then ret (own tmp l)
             else append_at_cursor tmp l
           else ret l
         else
           if cursor_is_null (cell l) then
             t <- ParseText (node l) TS_DEFAULT ;; ret (own t l)
           else
             t <- ParseText (node l) TS_DEFAULT ;; append_at_cursor t l) ;;
      l <-
        (if negb (cursor_is_null (cell l)) then
           if is_null (retval l) then ret (move_to_retval l)
           else ret (mkLocals (retval l) (ownedCell l) (advance l) (warning l) (node l))
         else if warning l && negb all then
           let name := Trim false (Trim true wxEmptyString) in
           let name := if negb (cursor_is_null (cell l))
                       then Cell_ToString (pointee l) else name in
           if negb (Length name =? 0) then
             LoggingMessageBox ;;;
             ret (mkLocals (retval l) (ownedCell l) (cell l) false (node l))
           else ret l
         else ret l) ;;
      let l := mkLocals (retval l) (ownedCell l) (cell l) (warning l)
                        (GetNextTag (node l)) in
      if negb all then ret (Break l) else ret (Continue l)
  end.

(** [MathParser::ParseTag], the recursive calls being [ParseTag_rec]. *)
Definition ParseTag_step (first : wxXmlNodePtr) (all : bool) : M OwningCellPtr :=
  let l := mkLocals [] [] AtNull all (SkipWhitespaceNode first) in
  l <- while_ fuel (fun l => non_null (node l)) (ParseTag_body all) l ;;
  ret (retval l).

End Routines.

Section Parser.
Context {services : CellServices}.
Variable env : Environment.

(** [MathParser::ParseTag]: [fuel] bounds the depth of the recursion and
    the turns of every loop. *)
Fixpoint ParseTag (fuel : nat) (node : wxXmlNodePtr) (all : bool)
  : M OwningCellPtr :=
  match fuel with
  | O => out_of_fuel
  | S fuel' => ParseTag_step env (ParseTag fuel') fuel node all
  end.

(** The class [[:cntrl:]] of [m_graphRegex]. *)
Definition is_cntrl (c : wxUniChar) : bool := (N.ltb c 32 || N.eqb c 127)%bool.

(** [m_graphRegex.Replace(&s, ...)]: every control character becomes the
    replacement character U+FFFD, one character for one character. *)
Definition graphRegex_Replace (s : wxString) : wxString :=
  map (fun c => if is_cntrl c then 65533%N else c) s.

(** The threshold [ParseLine] computes from the configuration. *)
Definition showLength : Z :=
  match ShowLength env with
  | 0 => 6000
  | 1 => 20000
  | 2 => 250000
  | 3 => 0
  | _ => 50000
  end.

Definition too_long_text : wxString :=
  wxT "(Expression longer than allowed by the configuration setting)".
Definition too_long_tooltip : wxString :=
  wxT "The maximum size of the expressions wxMaxima is allowed to display can be changed in the configuration dialogue.".

(** [MathParser::ParseLine] *)
Definition ParseLine (fuel : nat) (s : wxString) (style : CellType)
  : M OwningCellPtr :=
  modify (set_ParserStyle style) ;;;
  modify (set_FracStyle FC_NORMAL) ;;;
  modify (set_m_highlight false) ;;;
  let s := graphRegex_Replace s in
  if (Length s <? showLength) || (showLength =? 0) then
    count_xml_load ;;;
    match xml_Load env s with
    | Some doc => ParseTag fuel (GetChildren doc) true
    | None => ret []
    end
  else
    cell <- liftA (TextCell_new nullptr too_long_text) ;;
    let cell := SetStyle TS_WARNING cell in
    let cell := SetToolTip too_long_tooltip cell in
    let cell := ForceBreakLine true cell in
    ret [cell].

End Parser.

(** The state a parser starts from. *)
Definition initial_state : State :=
  mkState MC_TYPE_DEFAULT FC_NORMAL false 0%N O O.

End MathParser.

(** ** A plain implementation of the virtual methods

    Text cells render as their text and are as wide, and as high, as the
    font size; a composite cell renders as nothing.  It is there to run
    the definitions on examples. *)

Module Plain.

Definition text_of (c : Cell) : wxString :=
  match c with CText _ t _ => t | _ => wxEmptyString end.

Definition render (p : OwningCellPtr) : wxString := List.concat (map text_of p).

Definition sum_widths (p : OwningCellPtr) : Z :=
  fold_right (fun c acc => m_width (base_of c) + acc) 0 p.

Definition max_of (f : Cell -> Z) (p : OwningCellPtr) : Z :=
  fold_right (fun c acc => Z.max (f c) acc) 0 p.

#[export] Instance services : CellServices := {|
  Scale_Px := fun px => px;
  RecalculateWidthsList := fun fontsize => map (map_base (set_width fontsize));
  RecalculateHeightList := fun fontsize =>
    map (map_base (fun b => set_center (fontsize / 2) (set_height fontsize b)));
  GetFullWidth := sum_widths;
  GetCenterList := max_of (fun c => m_center (base_of c));
  GetMaxDrop := max_of (fun c => m_height (base_of c) - m_center (base_of c));
  GetHeightList := fun p =>
    max_of (fun c => m_center (base_of c)) p
    + max_of (fun c => m_height (base_of c) - m_center (base_of c)) p;
  Cell_ToString := fun p => match p with c :: _ => text_of c | [] => wxEmptyString end;
  ListToString := render;
  ListToMatlab := render;
  ListToTeX := render;
  ListToXML := render
|}.

(** The rest of the virtual methods: text cells are not compound, the
    other cells are; nothing is escaped. *)
#[export] Instance serializers : SerializerServices := {|
  IsCompound := fun p => match p with
                         | CText _ _ _ :: _ | [] => false
                         | _ => true
                         end;
  ListToMathML := render;
  ListToOMML := render;
  XMLescape := fun s => s;
  TeXExponentsAfterSubscript := false
|}.

(** An environment without files; the document is handed over parsed. *)
Definition env (length_setting : Z) (doc : option wxXmlNode) : MathParser.Environment :=
  {| MathParser.ShowLength := length_setting;
     MathParser.GetWorkingDirectory := wxEmptyString;
     MathParser.xml_Load := fun _ => doc;
     MathParser.wxImage_GetImageCount := fun _ => 1;
     MathParser.wxFileExists := fun _ => false;
     MathParser.ToDouble_ok := fun _ => false;
     MathParser.m_fileSystem := false;
     MathParser.m_userDefinedLabel := wxEmptyString |}.

End Plain.

(** ** Names and examples the properties are stated with *)

(** The names [FunCell::ToTeX] knows. *)
Definition tex_names : list wxString :=
  map wxT ["sin"; "cos"; "cosh"; "sinh"; "log"; "cot"; "sec"; "csc"; "tan"]%string.

(** A function cell whose name renders as [name] and whose argument
    renders as [arg], under the plain virtual methods. *)
Definition plain_fun (name arg : string) (broken : bool) : FunCell.t :=
  FunCell.mk (set_isBrokenIntoLines broken (Cell_new 0 nullptr))
             [CText (Cell_new 1 nullptr) (wxT name) wxEmptyString]
             [CText (Cell_new 2 nullptr) (wxT arg) wxEmptyString].

(** A limit cell whose children render as [under] and [base_], under the
    plain virtual methods. *)
Definition plain_limit (under base_ : string) : LimitCell.t :=
  LimitCell.mk (Cell_new 0 nullptr)
               [CText (Cell_new 1 nullptr) (wxT "lim") wxEmptyString]
               [CText (Cell_new 2 nullptr) (wxT under) wxEmptyString]
               [CText (Cell_new 3 nullptr) (wxT base_) wxEmptyString]
               [CText (Cell_new 4 nullptr) (wxT "(") wxEmptyString]
               [CText (Cell_new 5 nullptr) (wxT ",") wxEmptyString]
               [CText (Cell_new 6 nullptr) (wxT ")") wxEmptyString].

(** A null child was replaced: the pointer holds one cell, a placeholder
    for missing contents, of the given style. *)
Definition placeholder_installed (style : TextStyle) (p : OwningCellPtr) : Prop :=
  exists c, p = [c] /\ is_placeholder c = true /\ m_textStyle (base_of c) = style.



(** What [ParseLine] resets before it looks at its input. *)
Definition reset_state (style : CellType) (st : MathParser.State) : MathParser.State :=
  MathParser.set_m_highlight false
    (MathParser.set_FracStyle FC_NORMAL (MathParser.set_ParserStyle style st)).

(** The cell [ParseLine] returns for an input over the limit, allocated at
    address [a]. *)
Definition too_long_cell (a : N) : Cell :=
  ForceBreakLine true
    (SetToolTip MathParser.too_long_tooltip
       (SetStyle TS_WARNING
          (CText (Cell_new a nullptr) MathParser.too_long_text wxEmptyString))).

(** Documents. *)
Definition v_x : wxXmlNode := Element "v" [] [Text "x"].
Definition n_1 : wxXmlNode := Element "n" [] [Text "1"].
Definition r_ (l : list wxXmlNode) : wxXmlNode := Element "r" [] l.

(** [<fn><r><fnm>f</fnm></r><p><v>x</v></p></fn>] *)
Definition fn_minimal : wxXmlNode :=
  Element "fn" [] [r_ [Element "fnm" [] [Text "f"]]; Element "p" [] [v_x]].

(** For every tag of the inline dispatch table, a minimal well-formed
    instance. *)
Definition minimal_instances : list (string * wxXmlNode) :=
  [ ("v", v_x);
    ("mi", Element "mi" [] [Text "x"]);
    ("mo", Element "mo" [] [Text "+"]);
    ("t", Element "t" [] [Text "a"]);
    ("n", n_1);
    ("mn", Element "mn" [] [Text "1"]);
    ("p", Element "p" [] [v_x]);
    ("f", Element "f" [] [r_ [n_1]; r_ [v_x]]);
    ("mfrac", Element "mfrac" [] [r_ [n_1]; r_ [v_x]]);
    ("e", Element "e" [] [r_ [v_x]; r_ [n_1]]);
    ("msup", Element "msup" [] [r_ [v_x]; r_ [n_1]]);
    ("i", Element "i" [] [r_ [v_x]; r_ [n_1]]);
    ("munder", Element "munder" [] [r_ [v_x]; r_ [n_1]]);
    ("fn", fn_minimal);
    ("g", Element "g" [] [Text "alpha"]);
    ("s", Element "s" [] [Text "%pi"]);
    ("fnm", Element "fnm" [] [Text "f"]);
    ("q", Element "q" [] [v_x]);
    ("d", Element "d" [] [Element "f" [("diffstyle", "yes")] [r_ [v_x]; r_ [v_x]]; v_x]);
    ("sm", Element "sm" [] [r_ [v_x]; r_ [n_1]; r_ [v_x]]);
    ("in", Element "in" [("def", "false")] [r_ [v_x]; r_ [v_x]]);
    ("mspace", Element "mspace" [] []);
    ("at", Element "at" [] [r_ [v_x]; r_ [n_1]]);
    ("a", Element "a" [] [v_x]);
    ("cj", Element "cj" [] [v_x]);
    ("ie", Element "ie" [] [r_ [v_x]; r_ [n_1]; r_ [n_1]]);
    ("mmultiscripts", Element "mmultiscripts" [] [v_x; n_1; n_1]);
    ("lm", Element "lm" [] [r_ [Element "fnm" [] [Text "lim"]];
                            r_ [v_x; Element "t" [] [Text "->"]; n_1];
                            r_ [v_x]]);
    ("r", r_ [v_x]);
    ("mrow", Element "mrow" [] [v_x]);
    ("tb", Element "tb" [] [Element "mtr" [] [Element "mtd" [] [n_1]]]);
    ("mth", Element "mth" [] [v_x]);
    ("line", Element "line" [] [v_x]);
    ("lbl", Element "lbl" [] [Text "(%o1)"]);
    ("st", Element "st" [] [Text "a"]);
    ("hl", Element "hl" [] [v_x]);
    ("h", Element "h" [] [Text "*"]);
    ("img", Element "img" [] [Text "image1.png"]);
    ("slide", Element "slide" [] [Text "image1.png;image2.png"]);
    ("editor", Element "editor" [("type", "input")]
                       [Element "line" [] [Text "1+1;"]]);
    ("cell", Element "cell" [("type", "code")]
                     [Element "input" []
                        [Element "editor" [("type", "input")]
                                 [Element "line" [] [Text "1+1;"]]]]);
    ("ascii", Element "ascii" [] [Text "65"]) ]%string.

(** [<bogus><v>x</v></bogus>] *)
Definition bogus_doc : wxXmlNode := Element "bogus" [] [v_x].

(** [<cell type="bogus"/>]: no group routine is registered for the type. *)
Definition bogus_cell : wxXmlNode :=
  Element "cell" [("type", "bogus")%string] [].

(** [<cell type="code"><fold>...</fold></cell>] *)
Definition folded_doc (cells : list wxXmlNode) : wxXmlNode :=
  Element "cell" [("type", "code")%string] [Element "fold" [] cells].

(** [<cell type="code"><fold><cell type="bogus"/></fold></cell>] *)
Definition fold_doc : wxXmlNode := folded_doc [bogus_cell].

(** A text of [n] letters. *)
Definition letters (n : Z) : wxString := repeat 97%N (Z.to_nat n).

(** The one-sided limit notation, in the words of the spec: "a trailing
    [+]/[-] on the target value is translated to a textual
    [,plus]/[,minus] suffix". *)
Definition one_sided (to : wxString) : wxString :=
  match rev to with
  | c :: r =>
      if N.eqb c 43 then rev r ++ wxT ",plus"
      else if N.eqb c 45 then rev r ++ wxT ",minus"
      else to
  | [] => to
  end.

(** A computation that, when it returns, has called [LoggingMessageBox]
    no more often than it had been called before. *)
Definition quiet {A} (m : MathParser.M A) : Prop :=
  forall st a st',
    m st = MathParser.Ok (a, st') ->
    MathParser.warnings st' = MathParser.warnings st.

(** Every entry of [m_scriptCells] points to a script child the cell
    owns: it is not null and it is the address of the head of one of the
    four script children. *)
Definition scripts_owned (s : SubSupCell.t) : Prop :=
  Forall (fun p => p <> nullptr /\ In p (map get (SubSupCell.scripts s)))
         (SubSupCell.m_scriptCells s).

(** The script children the entries of [m_scriptCells] lead to, in the
    order of the entries. *)
Definition script_children (s : SubSupCell.t) : list OwningCellPtr :=
  flat_map (fun p => match SubSupCell.follow s p with
                     | Some c => [c]
                     | None => []
                     end)
           (SubSupCell.m_scriptCells s).

(** A cell as the constructor leaves it, after a sequence of setters. *)
Definition SubSupCell_after (ops : list SubSupCell.op) (parent : CellPtr) (n : N)
  : SubSupCell.t :=
  SubSupCell.run_all ops (fst (SubSupCell.new parent n)).

(** A text cell at address [a]. *)
Definition text_at (a : N) (text : string) : OwningCellPtr :=
  [CText (Cell_new a nullptr) (wxT text) wxEmptyString].

(** The lines [ParseText] makes text cells of: the content of the node,
    its hyphens turned into minus signs, cut at the line ends; empty
    lines are not kept. *)
Definition text_lines (node : wxXmlNodePtr) : list wxString :=
  match node with
  | [] => []
  | n :: _ => tokens_strtok 10%N (Replace (GetContent n) (wxT "-") [8722%N])
  end.

(** The cell type [ParseText] gives to a cell of a style. *)
Definition type_of_style (style : TextStyle) (parserStyle : CellType) : CellType :=
  match style with
  | TS_ERROR => MC_TYPE_ERROR
  | TS_WARNING => MC_TYPE_WARNING
  | TS_LABEL | TS_USERLABEL => MC_TYPE_LABEL
  | _ => parserStyle
  end.

Definition is_text (c : Cell) : bool :=
  match c with CText _ _ _ => true | _ => false end.

(** A cell carries the style, the type that goes with it and the
    highlight flag of the parser. *)
Definition styled (st : MathParser.State) (style : TextStyle) (c : Cell) : Prop :=
  m_textStyle (base_of c) = style
  /\ m_type (base_of c) = type_of_style style (MathParser.m_ParserStyle st)
  /\ m_highlight (base_of c) = MathParser.m_highlight st.

(** The state after [k] allocations. *)
Definition allocated (k : nat) (st : MathParser.State) : MathParser.State :=
  MathParser.set_next_addr (MathParser.next_addr st + N.of_nat k) st.

(** What the parser records in a text cell. *)
Definition shown (c : Cell) :=
  (is_text c, GetValue c, m_textStyle (base_of c), m_type (base_of c),
   m_highlight (base_of c), m_forceBreakLine (base_of c)).

(** A computation that, when it returns, has changed nothing of the
    parser but the allocator: the parser style, the fraction style, the
    highlight flag and the two counters are what they were. *)
Definition allocates_only {A} (m : MathParser.M A) : Prop :=
  forall st a st',
    m st = MathParser.Ok (a, st') ->
    st' = MathParser.set_next_addr (MathParser.next_addr st') st.

(** [<hl><d><v>x</v><v>y</v></d></hl>] *)
Definition highlighted_diff : wxXmlNode :=
  Element "hl" [] [Element "d" [] [v_x; Element "v" [] [Text "y"]]].

(** A computation whose result, when it returns, satisfies [P]. *)
Definition returns_with {A} (P : A -> Prop) (m : MathParser.M A) : Prop :=
  forall st a st', m st = MathParser.Ok (a, st') -> P a.

(** The tags whose routine hands on what the recursive call, or the
    group table, gives it: [ParseTagContents], [ParseHighlightTag] and
    [ParseCellTag]. *)
Definition pass_through : list wxString :=
  [wxT "r"; wxT "mrow"; wxT "hl"; wxT "cell"].

(** The keys of [m_groupTags]. *)
Definition group_types : list wxString :=
  [wxT "code"; wxT "image"; wxT "pagebreak"; wxT "text"; wxT "title";
   wxT "section"; wxT "subsection"; wxT "subsubsection"; wxT "heading5";
   wxT "heading6"].

(** The contents of the [line] children of an [editor] element. *)
Definition editor_lines (node : wxXmlNode) : list wxString :=
  map GetNodeContent
      (filter (fun c => wx.eqb (GetName c) (wxT "line")) (GetChildren node)).

(** A list of lines without the empty lines it starts with. *)
Fixpoint drop_empty (l : list wxString) : list wxString :=
  match l with
  | [] :: r => drop_empty r
  | _ => l
  end.

(** Lines joined by line ends. *)
Fixpoint join_lines (l : list wxString) : wxString :=
  match l with
  | [] => []
  | [a] => a
  | a :: r => a ++ [10%N] ++ join_lines r
  end.

(** Whether the element has the attribute [answer<i>]. *)
Definition has_answer (node : wxXmlNode) (i : Z) : bool :=
  match HasAttribute node (wxT "answer" ++ MathParser.Format_i i) with
  | Some _ => true
  | None => false
  end.

(** The question and the answer number [i], and the [k - 1] that follow:
    the question is the attribute [question<i>] or, without it,
    [Question #<i>]. *)
Fixpoint code_answers (node : wxXmlNode) (i : Z) (k : nat)
  : list (wxString * wxString) :=
  match k with
  | O => []
  | S k' =>
      (match HasAttribute node (wxT "question" ++ MathParser.Format_i i) with
       | Some question => question
       | None => wxT "Question #" ++ MathParser.Format_i i
       end,
       GetAttribute node (wxT "answer" ++ MathParser.Format_i i) wxEmptyString)
      :: code_answers node (i + 1) k'
  end.

Definition is_obj (c : Cell) : bool :=
  match c with CObj _ _ _ _ => true | _ => false end.

(** A code cell with two answers, a question for the first one, and an
    answer number 4 that follows a gap. *)
Definition answers_doc : wxXmlNode :=
  Element "cell" [("type", "code"); ("answer1", "yes"); ("question1", "Sure?");
                  ("answer2", "no"); ("answer4", "lost")]%string [].

(** The last cell of a chain is there and is not broken into lines:
    [SetNextToDraw] on it sets its own draw link. *)
Definition ends_unbroken (p : OwningCellPtr) : Prop :=
  match rev p with
  | c :: _ => m_isBrokenIntoLines (base_of c) = false
  | [] => False
  end.

(** The draw link of the last cell of a chain. *)
Definition last_link (p : OwningCellPtr) : CellPtr :=
  match rev p with
  | c :: _ => m_nextToDraw (base_of c)
  | [] => nullptr
  end.

(** The same for the head of a chain. *)
Definition starts_unbroken (p : OwningCellPtr) : Prop :=
  match p with
  | c :: _ => m_isBrokenIntoLines (base_of c) = false
  | [] => False
  end.

Definition head_link (p : OwningCellPtr) : CellPtr :=
  match p with
  | c :: _ => m_nextToDraw (base_of c)
  | [] => nullptr
  end.

(** ** Documents on which the parser terminates *)

(** The number of nodes of a tree. *)
Fixpoint node_size (n : wxXmlNode) : nat :=
  match n with
  | XmlNode _ _ _ _ children =>
      S (fold_right (fun c acc => (node_size c + acc)%nat) O children)
  end.

(** The number of nodes of a list of siblings and their descendants. *)
Definition nodes_size (l : list wxXmlNode) : nat :=
  fold_right (fun c acc => (node_size c + acc)%nat) O l.

(** No node of the tree is named [cell]: [ParseCellTag], the one routine
    with a loop that can fail to advance, is never called. *)
Fixpoint cell_free (n : wxXmlNode) : bool :=
  match n with
  | XmlNode _ name _ _ children =>
      negb (wx.eqb name (wxT "cell")) && forallb cell_free children
  end.

(** A computation that ends, with a result or with a crash, in the turns
    it was given. *)
Definition terminates {A} (m : MathParser.M A) : Prop :=
  forall st, m st <> MathParser.OutOfFuel.

(** A list of siblings without [cell] elements and of size below [k]. *)
Definition small (k : nat) (l : wxXmlNodePtr) : Prop :=
  forallb cell_free l = true /\ (nodes_size l < k)%nat.

(** * Properties *)

(** ** Strings *)

Lemma wx_eqb_eq (a b : wxString) : wx.eqb a b = true <-> a = b.
Proof.
  revert b; induction a as [|x a IH]; intros [|y b]; simpl;
    try (split; [discriminate | discriminate]); try tauto.
  rewrite andb_true_iff, N.eqb_eq, IH.
  split; [intros [-> ->]; reflexivity | intros H; inversion H; auto].
Qed.

(** A string equals itself. *)
Lemma wx_eqb_refl (a : wxString) : wx.eqb a a = true.
Proof. apply wx_eqb_eq; reflexivity. Qed.

(** The test fails exactly on different strings. *)
Lemma wx_eqb_neq (a b : wxString) : wx.eqb a b = false <-> a <> b.
Proof.
  rewrite <- wx_eqb_eq. destruct (wx.eqb a b); split; congruence.
Qed.

(** ** The shared data *)

Lemma ResetData_keeps (b : CellBase) :
  m_isBrokenIntoLines (ResetData b) = m_isBrokenIntoLines b
  /\ m_width (ResetData b) = m_width b
  /\ m_height (ResetData b) = m_height b
  /\ m_center (ResetData b) = m_center b
  /\ m_fontsize_old (ResetData b) = m_fontsize_old b
  /\ m_nextToDraw (ResetData b) = m_nextToDraw b.
Proof. destruct b; simpl; repeat split. Qed.


(** ** C8: FunCell::ToTeX *)

(** The test [FunCell::ToTeX] makes on the name is membership in
    [tex_names]. *)
Lemma tex_name_test (name : wxString) :
  wx.eqb name (wxT "sin") || wx.eqb name (wxT "cos")
  || wx.eqb name (wxT "cosh") || wx.eqb name (wxT "sinh")
  || wx.eqb name (wxT "log") || wx.eqb name (wxT "cot")
  || wx.eqb name (wxT "sec") || wx.eqb name (wxT "csc")
  || wx.eqb name (wxT "tan") = true <-> In name tex_names.
Proof.
  unfold tex_names; simpl In.
  repeat rewrite orb_true_iff. repeat rewrite wx_eqb_eq.
  intuition (auto; try contradiction).
Qed.

Section C8_examples.
#[local] Existing Instance Plain.services.

(** C8, as stated, fails on a cell that is broken into lines: the name is
    [sin], yet the TeX form is empty, not [\sin{(x)}]. *)
Lemma FunCell_ToTeX_broken_counterexample :
  let f := plain_fun "sin" "(x)" true in
  In (Cell_ToString (FunCell.m_nameCell f)) tex_names
  /\ FunCell.ToTeX f <>
     wxT "\" ++ Cell_ToString (FunCell.m_nameCell f) ++ wxT "{"
     ++ ListToTeX (FunCell.m_argCell f) ++ wxT "}".
Proof.
  split; [left; reflexivity | vm_compute; discriminate].
Qed.

End C8_examples.

(** C8, amended: a function cell that is not broken into lines serializes
    to backslash, name, and the argument's TeX between braces when the
    name's string rendering is one of the nine names, and to the
    concatenation of the two TeX renderings for every other name; a cell
    broken into lines serializes to the empty text. *)
Theorem FunCell_ToTeX_spec {services : CellServices} (f : FunCell.t) :
  let name := Cell_ToString (FunCell.m_nameCell f) in
  (m_isBrokenIntoLines (FunCell.base f) = true ->
   FunCell.ToTeX f = wxEmptyString)
  /\ (m_isBrokenIntoLines (FunCell.base f) = false ->
      In name tex_names ->
      FunCell.ToTeX f =
      wxT "\" ++ name ++ wxT "{" ++ ListToTeX (FunCell.m_argCell f) ++ wxT "}")
  /\ (m_isBrokenIntoLines (FunCell.base f) = false ->
      ~ In name tex_names ->
      FunCell.ToTeX f =
      ListToTeX (FunCell.m_nameCell f) ++ ListToTeX (FunCell.m_argCell f)).
Proof.
  intros name. unfold FunCell.ToTeX. fold name.
  repeat split; intros Hb.
  - rewrite Hb; reflexivity.
  - intros Hin. rewrite Hb. apply tex_name_test in Hin. rewrite Hin. reflexivity.
  - intros Hnin. rewrite Hb.
    destruct (wx.eqb name (wxT "sin") || wx.eqb name (wxT "cos")
              || wx.eqb name (wxT "cosh") || wx.eqb name (wxT "sinh")
              || wx.eqb name (wxT "log") || wx.eqb name (wxT "cot")
              || wx.eqb name (wxT "sec") || wx.eqb name (wxT "csc")
              || wx.eqb name (wxT "tan")) eqn:E; [|reflexivity].
    apply tex_name_test in E. contradiction.
Qed.

Lemma FunCell_ToTeX_spec_witness :
  let ToTeX := @FunCell.ToTeX Plain.services in
  ToTeX (plain_fun "sin" "(x)" true) = wxEmptyString
  /\ ToTeX (plain_fun "sin" "(x)" false) = wxT "\sin{(x)}"
  /\ ToTeX (plain_fun "foo" "(x)" false) = wxT "foo(x)".
Proof.
  cbv zeta. split; [|split].
  - exact (proj1 (FunCell_ToTeX_spec (services := Plain.services)
                    (plain_fun "sin" "(x)" true)) eq_refl).
  - refine (proj1 (proj2 (FunCell_ToTeX_spec (services := Plain.services)
                            (plain_fun "sin" "(x)" false))) eq_refl _).
    left; reflexivity.
  - refine (proj2 (proj2 (FunCell_ToTeX_spec (services := Plain.services)
                            (plain_fun "foo" "(x)" false))) eq_refl _).
    unfold tex_names; simpl.
    intros H; repeat (destruct H as [H|H]; [discriminate H|]); exact H.
Defined.

(** ** C7: LimitCell::ToString *)

Lemma Length_app (a b : wxString) : Length (a ++ b) = Length a + Length b.
Proof. unfold Length. rewrite length_app. lia. Qed.

(** Lengths are never negative. *)
Lemma Length_nonneg (a : wxString) : 0 <= Length a.
Proof. unfold Length. lia. Qed.

(** Conversion to [size_t] is the identity on the range of the type. *)
Lemma size_t_small (z : Z) : 0 <= z < 2 ^ 64 -> size_t z = z.
Proof. intros H. unfold size_t. apply Z.mod_small. exact H. Qed.

(** [Right(1)] of a string that ends in [c] is [c]. *)
Lemma Right_last (t : wxString) (c : wxUniChar) : Right (t ++ [c]) 1 = [c].
Proof.
  unfold Right. rewrite Length_app. change (Length [c]) with 1.
  change (size_t 1) with 1.
  pose proof (Length_nonneg t).
  rewrite Z.min_l by lia.
  replace (Length t + 1 - 1) with (Length t) by lia.
  unfold Length. rewrite Nat2Z.id.
  rewrite skipn_app, skipn_all, Nat.sub_diag. reflexivity.
Qed.

Lemma Left_init (t : wxString) (c : wxUniChar) :
  Length t < 2 ^ 63 ->
  Left (t ++ [c]) (Length (t ++ [c]) - 1) = t.
Proof.
  intros Hb. unfold Left. rewrite Length_app. change (Length [c]) with 1.
  pose proof (Length_nonneg t).
  replace (Length t + 1 - 1) with (Length t) by lia.
  rewrite size_t_small by lia.
  rewrite Z.min_l by lia.
  unfold Length. rewrite Nat2Z.id.
  rewrite firstn_app, firstn_all, Nat.sub_diag. simpl. apply app_nil_r.
Qed.

(** A string is empty or has a last unit. *)
Lemma rev_cases (to : wxString) : to = [] \/ exists t c, to = t ++ [c].
Proof.
  destruct (rev to) as [|c r] eqn:E.
  - left. apply (f_equal (@rev _)) in E. rewrite rev_involutive in E. exact E.
  - right. exists (rev r), c.
    apply (f_equal (@rev _)) in E. rewrite rev_involutive in E. exact E.
Qed.

(** Comparing two one-unit strings compares the units. *)
Lemma eqb_single (c d : wxUniChar) : wx.eqb [c] [d] = N.eqb c d.
Proof. simpl. apply andb_true_r. Qed.

(** The two tests of [text_form] on the target compute [one_sided]. *)
Lemma sign_translation (to : wxString) :
  Length to < 2 ^ 63 ->
  (let to := if wx.eqb (Right to 1) (wxT "+")
             then Left to (Length to - 1) ++ wxT ",plus" else to in
   if wx.eqb (Right to 1) (wxT "-")
   then Left to (Length to - 1) ++ wxT ",minus" else to)
  = one_sided to.
Proof.
  intros Hb. destruct (rev_cases to) as [->|(t & c & ->)]; [reflexivity|].
  assert (Ht : Length t < 2 ^ 63).
  { rewrite Length_app in Hb. change (Length [c]) with 1 in Hb. lia. }
  unfold one_sided. rewrite rev_app_distr. simpl rev. cbn [app].
  rewrite rev_involutive.
  change (wxT "+") with [43%N]. change (wxT "-") with [45%N].
  cbv zeta. rewrite Right_last, Left_init by exact Ht.
  rewrite eqb_single.
  destruct (N.eqb c 43) eqn:Ep.
  - change (wxT ",plus") with ([44; 112; 108; 117]%N ++ [115%N]).
    rewrite app_assoc, Right_last. reflexivity.
  - rewrite Right_last, eqb_single, Left_init by exact Ht. reflexivity.
Qed.


Lemma text_form_arrow (var tgt base_ : wxString) :
  Find (var ++ wxT "->" ++ tgt) (wxT "->") = Length var ->
  Length (var ++ wxT "->" ++ tgt) < 2 ^ 31 ->
  LimitCell.text_form (var ++ wxT "->" ++ tgt) base_
  = wxT "limit(" ++ base_ ++ wxT "," ++ var ++ wxT "," ++ one_sided tgt ++ wxT ")".
Proof.
  intros HF Hb. unfold LimitCell.text_form. rewrite HF.
  set (u := var ++ wxT "->" ++ tgt) in *.
  assert (Lu : Length u = Length var + 2 + Length tgt).
  { unfold u. rewrite !Length_app. change (Length (wxT "->")) with 2. lia. }
  pose proof (Length_nonneg var) as Hv. pose proof (Length_nonneg tgt) as Ht.
  assert (E1 : SubString u 0 (Length var - 1) = var).
  { unfold SubString, Mid. change (size_t 0) with 0.
    destruct (Z.eq_dec (Length var) 0) as [Z0|NZ].
    - rewrite Z0. change (size_t (size_t (0 - 1) - 0 + 1)) with 0.
      destruct (Length u <? 0); [|rewrite Z.min_l by lia]; simpl;
        destruct var; [reflexivity | discriminate | reflexivity| discriminate].
    - rewrite (size_t_small (Length var - 1)) by lia.
      replace (Length var - 1 - 0 + 1) with (Length var) by lia.
      rewrite size_t_small by lia.
      replace (Length u <? 0) with false by (symmetry; apply Z.ltb_ge; lia).
      rewrite Z.min_l by lia. simpl skipn.
      unfold u, Length. rewrite Nat2Z.id.
      rewrite firstn_app, firstn_all, Nat.sub_diag. simpl. apply app_nil_r. }
  assert (E2 : SubString u (Length var + 2) (Length u - 1) = tgt).
  { unfold SubString, Mid.
    rewrite (size_t_small (Length var + 2)) by lia.
    rewrite (size_t_small (Length u - 1)) by lia.
    replace (Length u - 1 - (Length var + 2) + 1) with (Length tgt) by lia.
    rewrite size_t_small by lia.
    replace (Length u <? Length var + 2) with false by (symmetry; apply Z.ltb_ge; lia).
    rewrite Z.min_l by lia.
    unfold u. rewrite app_assoc.
    replace (Z.to_nat (Length var + 2)) with (List.length (var ++ wxT "->")).
    2:{ rewrite length_app. unfold Length. change (List.length (wxT "->")) with 2%nat. lia. }
    rewrite skipn_app, skipn_all, Nat.sub_diag. simpl.
    unfold Length. rewrite Nat2Z.id. apply firstn_all. }
  rewrite E1, E2.
  rewrite sign_translation by lia.
  reflexivity.
Qed.

Lemma one_sided_sign (t : wxString) :
  one_sided (t ++ wxT "+") = t ++ wxT ",plus"
  /\ one_sided (t ++ wxT "-") = t ++ wxT ",minus".
Proof.
  unfold one_sided. change (wxT "+") with [43%N]. change (wxT "-") with [45%N].
  rewrite !rev_app_distr. simpl. rewrite rev_involutive. split; reflexivity.
Qed.

(** C7: a limit cell whose base renders as [f(x)] serializes to
    [limit(f(x),x,0)] when its under child renders as [x->0] and to
    [limit(f(x),x,0,plus)] when it renders as [x->0+].  In general, when
    the under child renders as a variable, the arrow and a target, the
    text is [limit(base,variable,target')], where [target'] is the target
    with a trailing [+] turned into the suffix [,plus] and a trailing [-]
    into the suffix [,minus]. *)
Theorem LimitCell_ToString_spec {services : CellServices} (l : LimitCell.t)
  (var tgt t : wxString) :
  let under := ListToString (LimitCell.m_under l) in
  let base_ := ListToString (LimitCell.m_base l) in
  (base_ = wxT "f(x)" -> under = wxT "x->0" ->
   LimitCell.ToString l = wxT "limit(f(x),x,0)")
  /\ (base_ = wxT "f(x)" -> under = wxT "x->0+" ->
      LimitCell.ToString l = wxT "limit(f(x),x,0,plus)")
  /\ (under = var ++ wxT "->" ++ tgt ->
      Find under (wxT "->") = Length var ->
      Length under < 2 ^ 31 ->
      LimitCell.ToString l
      = wxT "limit(" ++ base_ ++ wxT "," ++ var ++ wxT "," ++ one_sided tgt ++ wxT ")")
  /\ one_sided (t ++ wxT "+") = t ++ wxT ",plus"
  /\ one_sided (t ++ wxT "-") = t ++ wxT ",minus".
Proof.
  intros under base_. unfold LimitCell.ToString. fold under base_.
  split; [|split; [|split]].
  - intros -> ->. vm_compute. reflexivity.
  - intros -> ->. vm_compute. reflexivity.
  - intros E HF Hb. rewrite E in *. apply text_form_arrow; assumption.
  - apply one_sided_sign.
Qed.

Lemma LimitCell_ToString_spec_witness :
  let ToString := @LimitCell.ToString Plain.services in
  ToString (plain_limit "x->0" "f(x)") = wxT "limit(f(x),x,0)"
  /\ ToString (plain_limit "x->0+" "f(x)") = wxT "limit(f(x),x,0,plus)"
  /\ ToString (plain_limit "y->inf-" "g(y)") = wxT "limit(g(y),y,inf,minus)".
Proof.
  cbv zeta. split; [|split].
  - exact (proj1 (LimitCell_ToString_spec (services := Plain.services)
                    (plain_limit "x->0" "f(x)") [] [] [])
             eq_refl eq_refl).
  - exact (proj1 (proj2 (LimitCell_ToString_spec (services := Plain.services)
                           (plain_limit "x->0+" "f(x)") [] [] []))
             eq_refl eq_refl).
  - refine (proj1 (proj2 (proj2
              (LimitCell_ToString_spec (services := Plain.services)
                 (plain_limit "y->inf-" "g(y)") (wxT "y") (wxT "inf-") [])))
              eq_refl eq_refl _).
    vm_compute. reflexivity.
Defined.

(** ** C9: a null child is replaced by a placeholder *)

Lemma MakeVisiblyInvalidCell_placeholder (parent : CellPtr) (n : N) :
  let c := fst (MakeVisiblyInvalidCell parent n) in
  is_placeholder c = true /\ m_textStyle (base_of c) = TS_ERROR.
Proof. split; reflexivity. Qed.

(** [InvalidCellOr] on the null pointer builds the placeholder. *)
Lemma InvalidCellOr_null (parent : CellPtr) (n : N) :
  placeholder_installed TS_ERROR (fst (InvalidCellOr parent [] n)).
Proof.
  eexists; split; [reflexivity|]. split; reflexivity.
Qed.

(** [InvalidCellOr] hands a non-null pointer back and allocates nothing. *)
Lemma InvalidCellOr_non_null (parent : CellPtr) (p : OwningCellPtr) (n : N) :
  fst (InvalidCellOr parent p n) <> [].
Proof. destruct p; simpl; discriminate. Qed.

(** C9, as stated, fails for [FunCell::SetName]: the placeholder it
    installs for a null name is restyled [TS_FUNCTION]. *)
Lemma SetName_placeholder_counterexample :
  let f := fst (FunCell.new nullptr false 0%N) in
  exists c, FunCell.m_nameCell (fst (FunCell.SetName [] f 1%N)) = [c]
            /\ is_placeholder c = true
            /\ m_textStyle (base_of c) <> TS_ERROR.
Proof.
  eexists; split; [reflexivity|]. split; [reflexivity | discriminate].
Qed.

(** C9, amended: passing a null child to a setter of the function or
    limit cell, or to the parser's [HandleNullPointer], installs (returns)
    a placeholder cell that carries the diagnostic text and tooltip; the
    placeholder is error-styled, except that [FunCell::SetName] restyles
    the name it installs, placeholder included, as a function name.
    Whatever is passed, the child installed (the pointer returned) is not
    null. *)
Theorem null_child_replaced (f : FunCell.t) (l : LimitCell.t)
  (p : OwningCellPtr) (n : N) (st : MathParser.State) :
  (placeholder_installed TS_FUNCTION (FunCell.m_nameCell (fst (FunCell.SetName [] f n)))
   /\ placeholder_installed TS_ERROR (FunCell.m_argCell (fst (FunCell.SetArg [] f n)))
   /\ placeholder_installed TS_ERROR (LimitCell.m_name (fst (LimitCell.SetName [] l n)))
   /\ placeholder_installed TS_ERROR (LimitCell.m_under (fst (LimitCell.SetUnder [] l n)))
   /\ placeholder_installed TS_ERROR (LimitCell.m_base (fst (LimitCell.SetBase [] l n)))
   /\ exists q st', MathParser.HandleNullPointer [] st = MathParser.Ok (q, st')
                    /\ placeholder_installed TS_ERROR q)
  /\ (FunCell.m_nameCell (fst (FunCell.SetName p f n)) <> []
      /\ FunCell.m_argCell (fst (FunCell.SetArg p f n)) <> []
      /\ LimitCell.m_name (fst (LimitCell.SetName p l n)) <> []
      /\ LimitCell.m_under (fst (LimitCell.SetUnder p l n)) <> []
      /\ LimitCell.m_base (fst (LimitCell.SetBase p l n)) <> []
      /\ exists q st', MathParser.HandleNullPointer p st = MathParser.Ok (q, st')
                       /\ q <> []).
Proof.
  assert (HN : forall q, exists r st',
             MathParser.HandleNullPointer q st = MathParser.Ok (r, st')
             /\ r <> [] /\ (q = [] -> placeholder_installed TS_ERROR r)).
  { intros [|c r].
    - do 2 eexists. split; [cbv; reflexivity|].
      split; [discriminate|]. intros _.
      eexists; split; [reflexivity|]; split; reflexivity.
    - do 2 eexists. split; [reflexivity|].
      split; [discriminate | discriminate]. }
  split.
  - repeat split;
      try (eexists; split; [reflexivity|]; split; reflexivity).
    destruct (HN []) as (r & st' & E & _ & H).
    exists r, st'; auto.
  - destruct (HN p) as (r & st' & E & Hr & _).
    repeat split; try apply InvalidCellOr_non_null.
    + unfold FunCell.SetName, abind.
      pose proof (InvalidCellOr_non_null (m_group (FunCell.base f)) p n) as H.
      destruct (InvalidCellOr (m_group (FunCell.base f)) p n) as [[|c q] n'];
        simpl in *; [congruence | discriminate].
    + unfold FunCell.SetArg, abind.
      pose proof (InvalidCellOr_non_null (m_group (FunCell.base f)) p n) as H.
      destruct (InvalidCellOr (m_group (FunCell.base f)) p n) as [q n'];
        simpl in *; exact H.
    + unfold LimitCell.SetName, abind.
      pose proof (InvalidCellOr_non_null (m_group (LimitCell.base l)) p n) as H.
      destruct (InvalidCellOr (m_group (LimitCell.base l)) p n) as [q n'];
        simpl in *; exact H.
    + unfold LimitCell.SetUnder, abind.
      pose proof (InvalidCellOr_non_null (m_group (LimitCell.base l)) p n) as H.
      destruct (InvalidCellOr (m_group (LimitCell.base l)) p n) as [q n'];
        simpl in *; exact H.
    + unfold LimitCell.SetBase, abind.
      pose proof (InvalidCellOr_non_null (m_group (LimitCell.base l)) p n) as H.
      destruct (InvalidCellOr (m_group (LimitCell.base l)) p n) as [q n'];
        simpl in *; exact H.
    + exists r, st'; auto.
Qed.

(** ** C4: BreakUp is one-way *)

Section CellClasses.
Context {services : CellServices}.

(** No operation of [FunCell] clears the broken-into-lines flag. *)
Lemma FunCell_run_keeps_broken (o : FunCell.op) (f : FunCell.t) (n : N) :
  m_isBrokenIntoLines (FunCell.base f) = true ->
  m_isBrokenIntoLines (FunCell.base (fst (FunCell.run o f n))) = true.
Proof.
  intros H. destruct f as [b nm ar]; destruct b; simpl in H; subst.
  destruct o; simpl;
    unfold FunCell.SetName, FunCell.SetArg, FunCell.RecalculateWidths,
      FunCell.RecalculateHeight, FunCell.BreakUp, abind; simpl.
  - destruct (InvalidCellOr _ name n); reflexivity.
  - destruct (InvalidCellOr _ arg n); reflexivity.
  - destruct (negb _); reflexivity.
  - destruct (negb _); reflexivity.
  - reflexivity.
  - reflexivity.
Qed.

Lemma FunCell_run_all_keeps_broken (ops : list FunCell.op) (f : FunCell.t) (n : N) :
  m_isBrokenIntoLines (FunCell.base f) = true ->
  m_isBrokenIntoLines (FunCell.base (fst (FunCell.run_all ops f n))) = true.
Proof.
  revert f n; induction ops as [|o r IH]; intros f n H; simpl; [exact H|].
  unfold abind.
  pose proof (FunCell_run_keeps_broken o f n H) as H1.
  destruct (FunCell.run o f n) as [f' n']. apply IH. exact H1.
Qed.

(** No operation of [LimitCell] clears the broken-into-lines flag. *)
Lemma LimitCell_run_keeps_broken (o : LimitCell.op) (l : LimitCell.t) (n : N) :
  m_isBrokenIntoLines (LimitCell.base l) = true ->
  m_isBrokenIntoLines (LimitCell.base (fst (LimitCell.run o l n))) = true.
Proof.
  intros H. destruct l as [b nm un ba op co cl]; destruct b; simpl in H; subst.
  destruct o; simpl;
    unfold LimitCell.SetName, LimitCell.SetBase, LimitCell.SetUnder,
      LimitCell.RecalculateWidths, LimitCell.RecalculateHeight,
      LimitCell.BreakUp, abind; simpl.
  - destruct (InvalidCellOr _ name n); reflexivity.
  - destruct (InvalidCellOr _ b n); reflexivity.
  - destruct (InvalidCellOr _ under n); reflexivity.
  - destruct (negb _); reflexivity.
  - destruct (negb _); reflexivity.
  - reflexivity.
  - reflexivity.
Qed.

Lemma LimitCell_run_all_keeps_broken (ops : list LimitCell.op) (l : LimitCell.t) (n : N) :
  m_isBrokenIntoLines (LimitCell.base l) = true ->
  m_isBrokenIntoLines (LimitCell.base (fst (LimitCell.run_all ops l n))) = true.
Proof.
  revert l n; induction ops as [|o r IH]; intros l n H; simpl; [exact H|].
  unfold abind.
  pose proof (LimitCell_run_keeps_broken o l n H) as H1.
  destruct (LimitCell.run o l n) as [l' n']. apply IH. exact H1.
Qed.

(** After [BreakUp] the function cell is broken, whatever it was before. *)
Lemma FunCell_BreakUp_broken (f : FunCell.t) :
  m_isBrokenIntoLines (FunCell.base f) = true -> FunCell.BreakUp f = (false, f).
Proof. intros H; unfold FunCell.BreakUp; rewrite H; reflexivity. Qed.

(** After [BreakUp] the limit cell is broken, whatever it was before. *)
Lemma LimitCell_BreakUp_broken (l : LimitCell.t) :
  m_isBrokenIntoLines (LimitCell.base l) = true -> LimitCell.BreakUp l = (false, l).
Proof. intros H; unfold LimitCell.BreakUp; rewrite H; reflexivity. Qed.

Lemma FunCell_BreakUp_unbroken (f : FunCell.t) :
  m_isBrokenIntoLines (FunCell.base f) = false ->
  fst (FunCell.BreakUp f) = true
  /\ m_isBrokenIntoLines (FunCell.base (snd (FunCell.BreakUp f))) = true.
Proof.
  intros H. destruct f as [b nm ar]; destruct b; simpl in H; subst.
  split; reflexivity.
Qed.

Lemma LimitCell_BreakUp_unbroken (l : LimitCell.t) :
  m_isBrokenIntoLines (LimitCell.base l) = false ->
  fst (LimitCell.BreakUp l) = true
  /\ m_isBrokenIntoLines (LimitCell.base (snd (LimitCell.BreakUp l))) = true.
Proof.
  intros H. destruct l as [b nm un ba op co cl]; destruct b; simpl in H; subst.
  split; reflexivity.
Qed.

End CellClasses.

(** C4: on an unbroken function or limit cell, [BreakUp] returns true and
    sets the broken-into-lines state; from then on, whatever operations
    of the class are run on the cell, the state stays set and every call
    of [BreakUp] returns false and leaves the whole cell, draw links
    included, as it was. *)
Theorem BreakUp_one_way {services : CellServices}
  (f : FunCell.t) (l : LimitCell.t)
  (fops : list FunCell.op) (lops : list LimitCell.op) (n : N) :
  m_isBrokenIntoLines (FunCell.base f) = false ->
  m_isBrokenIntoLines (LimitCell.base l) = false ->
  let f1 := snd (FunCell.BreakUp f) in
  let f2 := fst (FunCell.run_all fops f1 n) in
  let l1 := snd (LimitCell.BreakUp l) in
  let l2 := fst (LimitCell.run_all lops l1 n) in
  (fst (FunCell.BreakUp f) = true
   /\ m_isBrokenIntoLines (FunCell.base f1) = true
   /\ FunCell.BreakUp f1 = (false, f1)
   /\ m_isBrokenIntoLines (FunCell.base f2) = true
   /\ FunCell.BreakUp f2 = (false, f2))
  /\ (fst (LimitCell.BreakUp l) = true
      /\ m_isBrokenIntoLines (LimitCell.base l1) = true
      /\ LimitCell.BreakUp l1 = (false, l1)
      /\ m_isBrokenIntoLines (LimitCell.base l2) = true
      /\ LimitCell.BreakUp l2 = (false, l2)).
Proof.
  intros Hf Hl f1 f2 l1 l2.
  destruct (FunCell_BreakUp_unbroken f Hf) as [F1 F2].
  destruct (LimitCell_BreakUp_unbroken l Hl) as [L1 L2].
  pose proof (FunCell_run_all_keeps_broken fops f1 n F2) as F3.
  pose proof (LimitCell_run_all_keeps_broken lops l1 n L2) as L3.
  repeat split; auto using FunCell_BreakUp_broken, LimitCell_BreakUp_broken.
Qed.

Lemma BreakUp_one_way_witness :
  let f := plain_fun "f" "(x)" false in
  let l := plain_limit "x->0" "f(x)" in
  let f1 := snd (FunCell.BreakUp f) in
  let l1 := snd (LimitCell.BreakUp l) in
  let fops := [FunCell.OpRecalculateWidths 12; FunCell.OpSetArg [];
               FunCell.OpBreakUp; FunCell.OpSetNextToDrawImpl (Some 7%N)] in
  let lops := [LimitCell.OpRecalculateHeight 12; LimitCell.OpSetUnder [];
               LimitCell.OpBreakUp] in
  (fst (FunCell.BreakUp f) = true /\ FunCell.BreakUp f1 = (false, f1)
   /\ m_isBrokenIntoLines
        (FunCell.base (fst (FunCell.run_all (services := Plain.services) fops f1 10%N))) = true)
  /\ (fst (LimitCell.BreakUp l) = true /\ LimitCell.BreakUp l1 = (false, l1)
      /\ m_isBrokenIntoLines
           (LimitCell.base (fst (LimitCell.run_all (services := Plain.services) lops l1 10%N))) = true).
Proof.
  intros f l f1 l1 fops lops.
  destruct (BreakUp_one_way (services := Plain.services) f l fops lops 10%N
              eq_refl eq_refl) as [(A & _ & B & C & _) (D & _ & E & G & _)].
  repeat split; assumption.
Defined.

(** ** C5: the metrics of a cell that is broken into lines *)




(** ** C6: the guard on the font size *)

Section Guard.
Context {services : CellServices}.



End Guard.



(** ** C3: the size governor of ParseLine *)

Lemma graphRegex_Replace_Length (s : wxString) :
  Length (MathParser.graphRegex_Replace s) = Length s.
Proof.
  unfold MathParser.graphRegex_Replace, Length. rewrite length_map. reflexivity.
Qed.

(** C3: with a threshold other than 0 and an input at or above it,
    [ParseLine] returns one warning-styled text cell and neither loads nor
    parses any XML; with the threshold 0, or an input below the threshold,
    it loads the XML and returns what [ParseTag] makes of the children of
    the root (nothing when there is no root). *)
Theorem ParseLine_size_governor {services : CellServices}
  (env : MathParser.Environment) (fuel : nat) (s : wxString)
  (style : CellType) (st : MathParser.State) :
  let st0 := reset_state style st in
  (MathParser.showLength env <> 0 ->
   MathParser.showLength env <= Length s ->
   MathParser.ParseLine env fuel s style st
   = MathParser.Ok ([too_long_cell (MathParser.next_addr st)],
                    MathParser.set_next_addr (N.succ (MathParser.next_addr st)) st0)
   /\ m_textStyle (base_of (too_long_cell (MathParser.next_addr st))) = TS_WARNING
   /\ MathParser.xml_loads
        (MathParser.set_next_addr (N.succ (MathParser.next_addr st)) st0)
      = MathParser.xml_loads st)
  /\ (MathParser.showLength env = 0 \/ Length s < MathParser.showLength env ->
      MathParser.ParseLine env fuel s style st
      = MathParser.bind MathParser.count_xml_load
          (fun _ =>
             match MathParser.xml_Load env (MathParser.graphRegex_Replace s) with
             | Some doc => MathParser.ParseTag env fuel (GetChildren doc) true
             | None => MathParser.ret []
             end) st0).
Proof.
  intros st0. unfold MathParser.ParseLine.
  split.
  - intros Hnz Hle.
    assert (E : (Length (MathParser.graphRegex_Replace s) <? MathParser.showLength env)
                || (MathParser.showLength env =? 0) = false).
    { rewrite graphRegex_Replace_Length. apply orb_false_iff. split.
      - apply Z.ltb_ge. exact Hle.
      - apply Z.eqb_neq. exact Hnz. }
    unfold MathParser.bind at 1 2 3. simpl. rewrite E.
    split; [reflexivity|]. split; reflexivity.
  - intros H.
    assert (E : (Length (MathParser.graphRegex_Replace s) <? MathParser.showLength env)
                || (MathParser.showLength env =? 0) = true).
    { rewrite graphRegex_Replace_Length. apply orb_true_iff.
      destruct H as [H|H]; [right; apply Z.eqb_eq | left; apply Z.ltb_lt]; exact H. }
    unfold MathParser.bind at 1 2 3. simpl. rewrite E. reflexivity.
Qed.

Lemma ParseLine_size_governor_witness :
  (exists st',
      MathParser.ParseLine (services := Plain.services) (Plain.env 0 (Some (r_ [Text "ab"])))
        10 (letters 6000) MC_TYPE_DEFAULT MathParser.initial_state
      = MathParser.Ok ([too_long_cell 0], st')
      /\ MathParser.xml_loads st' = O)
  /\ (exists c st',
         MathParser.ParseLine (services := Plain.services) (Plain.env 0 (Some (r_ [Text "ab"])))
           10 (letters 5999) MC_TYPE_DEFAULT MathParser.initial_state
         = MathParser.Ok ([c], st')
         /\ GetValue c = wxT "ab" /\ MathParser.xml_loads st' = 1%nat)
  /\ (exists c st',
         MathParser.ParseLine (services := Plain.services) (Plain.env 3 (Some (r_ [Text "ab"])))
           10 (letters 6000) MC_TYPE_DEFAULT MathParser.initial_state
         = MathParser.Ok ([c], st')
         /\ GetValue c = wxT "ab" /\ MathParser.xml_loads st' = 1%nat).
Proof.
  split; [|split].
  - eexists. split.
    + refine (proj1 (proj1 (ParseLine_size_governor (services := Plain.services)
                              (Plain.env 0 (Some (r_ [Text "ab"]))) 10 (letters 6000)
                              MC_TYPE_DEFAULT MathParser.initial_state) _ _)).
      * discriminate.
      * vm_compute. discriminate.
    + reflexivity.
  - do 2 eexists. split.
    + rewrite (proj2 (ParseLine_size_governor (services := Plain.services)
                        (Plain.env 0 (Some (r_ [Text "ab"]))) 10 (letters 5999)
                        MC_TYPE_DEFAULT MathParser.initial_state)).
      * vm_compute. reflexivity.
      * right. vm_compute. reflexivity.
    + split; reflexivity.
  - do 2 eexists. split.
    + rewrite (proj2 (ParseLine_size_governor (services := Plain.services)
                        (Plain.env 3 (Some (r_ [Text "ab"]))) 10 (letters 6000)
                        MC_TYPE_DEFAULT MathParser.initial_state)).
      * vm_compute. reflexivity.
      * left. reflexivity.
    + split; reflexivity.
Defined.

(** ** C1 and C2: what ParseTag returns for an element *)

Section RoutineChildren.
Context {services : CellServices}.
Import MathParser.

(** What [HandleNullPointer] returns is never null. *)
Lemma HandleNullPointer_non_null (p : OwningCellPtr) (st st' : State) (q : OwningCellPtr) :
  HandleNullPointer p st = Ok (q, st') -> q <> [].
Proof.
  destruct p as [|c r]; cbv; intros H; inversion H; discriminate.
Qed.

(** Nor is a child that went through it. *)
Lemma parse_child_non_null (rec : wxXmlNodePtr -> bool -> M OwningCellPtr)
  (n : wxXmlNodePtr) (all : bool) (st st' : State) (q : OwningCellPtr) :
  parse_child rec n all st = Ok (q, st') -> q <> [].
Proof.
  unfold parse_child, bind.
  destruct (rec n all st) as [[p st1]| |]; try discriminate.
  apply HandleNullPointer_non_null.
Qed.



End RoutineChildren.

Section ParseTagExamples.
#[local] Existing Instance Plain.services.

(** The examples cover the inline dispatch table, key by key. *)
Lemma minimal_instances_cover_table :
  map (fun kv => wxT (fst kv)) minimal_instances
  = map fst (MathParser.m_innerTags (Plain.env 0 None)
               (MathParser.ParseTag (Plain.env 0 None) 0) 0)
  /\ Forall (fun kv => GetName (snd kv) = wxT (fst kv)
                       /\ GetType (snd kv) = wxXML_ELEMENT_NODE)
            minimal_instances.
Proof.
  split; [reflexivity|].
  unfold minimal_instances. repeat constructor.
Qed.

(** The routine bound to [fn] does build a function cell, with both
    children in place, from the minimal instance. *)
Lemma ParseFunTag_fn_minimal :
  exists b name arg st',
    MathParser.ParseFunTag (MathParser.ParseTag (Plain.env 0 None) 9) fn_minimal
      MathParser.initial_state
    = MathParser.Ok ([CFun b name arg], st')
    /\ name <> [] /\ arg <> [].
Proof.
  do 4 eexists. split; [vm_compute; reflexivity|].
  split; discriminate.
Qed.

(** C1, evaluated: for the minimal instance of every tag of the dispatch
    table, and so for [fn], [ParseTag] returns the null fragment, whether
    it is asked for the node alone or for the node and its siblings. *)
Theorem ParseTag_supported_tag_absent :
  Forall (fun kv =>
            forall all : bool,
              exists st',
                MathParser.ParseTag (Plain.env 0 None) 10 [snd kv] all
                  MathParser.initial_state
                = MathParser.Ok ([], st'))
         minimal_instances
  /\ In ("fn"%string, fn_minimal) minimal_instances.
Proof.
  split.
  - unfold minimal_instances.
    repeat (apply Forall_cons;
            [intros [|]; eexists; vm_compute; reflexivity|]).
    apply Forall_nil.
  - unfold minimal_instances; simpl; tauto.
Qed.

(** The routine bound to [v] makes a variable-name cell of [<v>x</v>]. *)
Lemma ParseVariableNameTag_v_x :
  exists b st',
    MathParser.ParseVariableNameTag v_x MathParser.initial_state
    = MathParser.Ok ([CText b (wxT "x") wxEmptyString], st')
    /\ m_textStyle b = TS_VARIABLE.
Proof.
  do 2 eexists. split; [vm_compute; reflexivity | reflexivity].
Qed.

(** C2, evaluated: [ParseTag] returns the null fragment for
    [<bogus><v>x</v></bogus>], not the variable-name cell; no warning is
    emitted. *)
Theorem ParseTag_unknown_wrapper_absent :
  forall all : bool,
    exists st',
      MathParser.ParseTag (Plain.env 0 None) 10 [bogus_doc] all
        MathParser.initial_state
      = MathParser.Ok ([], st')
      /\ MathParser.warnings st' = O.
Proof.
  intros [|]; eexists; (split; [vm_compute; reflexivity | reflexivity]).
Qed.

End ParseTagExamples.

(** ** C2: no warning is ever emitted *)

Create HintDb quiet.

Section Quiet.
Context {services : CellServices}.
Variable env : MathParser.Environment.
Import MathParser.

Lemma quiet_ret {A} (a : A) : quiet (ret a).
Proof. intros st b st' H; inversion H; reflexivity. Qed.

Lemma quiet_crash {A} : quiet (@crash A).
Proof. intros st b st' H; discriminate. Qed.

Lemma quiet_out_of_fuel {A} : quiet (@out_of_fuel A).
Proof. intros st b st' H; discriminate. Qed.

Lemma quiet_gets {A} (f : State -> A) : quiet (gets f).
Proof. intros st b st' H; inversion H; reflexivity. Qed.

Lemma quiet_modify (f : State -> State) :
  (forall st, warnings (f st) = warnings st) -> quiet (modify f).
Proof. intros Hf st b st' H; inversion H; apply Hf. Qed.

Lemma quiet_liftA {A} (m : Alloc A) : quiet (liftA m).
Proof.
  intros st b st' H. unfold liftA in H.
  destruct (m (next_addr st)) as [a n]. inversion H; reflexivity.
Qed.

Lemma quiet_bind {A B} (m : M A) (k : A -> M B) :
  quiet m -> (forall a, quiet (k a)) -> quiet (bind m k).
Proof.
  intros Hm Hk st b st' H. unfold bind in H.
  destruct (m st) as [[a st1]| |] eqn:E; try discriminate.
  rewrite (Hk a st1 b st' H). exact (Hm st a st1 E).
Qed.

Lemma quiet_while {S} (fuel : nat) (cond : S -> bool) (body : S -> M (step S)) :
  (forall s, quiet (body s)) -> forall s, quiet (while_ fuel cond body s).
Proof.
  intros Hb. induction fuel as [|fuel IH]; intros s; simpl;
    destruct (cond s); try apply quiet_ret; try apply quiet_out_of_fuel.
  apply quiet_bind; [apply Hb|].
  intros [s'|s']; [apply IH | apply quiet_ret].
Qed.

Lemma quiet_for_each {A S} (l : list A) (body : A -> S -> M S) :
  (forall a s, quiet (body a s)) -> forall s, quiet (for_each l body s).
Proof.
  intros Hb. induction l as [|a l IH]; intros s; simpl; [apply quiet_ret|].
  apply quiet_bind; [apply Hb | apply IH].
Qed.

(** A routine found in a table is as quiet as the routines of the table. *)
Lemma quiet_lookup {R} (T : list (wxString * (wxXmlNode -> M R)))
  (k : wxString) (f : wxXmlNode -> M R) :
  Forall (fun e => forall n, quiet (snd e n)) T ->
  lookup T k = Some f -> forall n, quiet (f n).
Proof.
  intros HT. induction HT as [|[k' f'] T H _ IH]; simpl; [discriminate|].
  destruct (wx.eqb k' k); [intros E; inversion E; subst; exact H | exact IH].
Qed.

(** The proof follows the structure of the routine. *)
Ltac quiet_step :=
  cbv beta zeta;
  lazymatch goal with
  | |- quiet (ret _) => apply quiet_ret
  | |- quiet crash => apply quiet_crash
  | |- quiet out_of_fuel => apply quiet_out_of_fuel
  | |- quiet (gets _) => apply quiet_gets
  | |- quiet (modify _) => apply quiet_modify; intros ?; reflexivity
  | |- quiet (liftA _) => apply quiet_liftA
  | |- quiet (bind _ _) => apply quiet_bind; [|intros ?]
  | |- quiet (while_ _ _ _ _) => apply quiet_while; intros ?
  | |- quiet (for_each _ _ _) => apply quiet_for_each; intros ? ?
  | |- quiet (if ?c then _ else _) => destruct c
  | |- quiet (match ?x with _ => _ end) => destruct x
  | |- _ => solve [auto with quiet]
  end.

Ltac quiet_auto := repeat quiet_step.

Lemma quiet_MakeOwned cls parent : quiet (MakeOwned cls parent).
Proof. unfold MakeOwned. quiet_auto. Qed.

Lemma quiet_HandleNullPointer p : quiet (HandleNullPointer p).
Proof. unfold HandleNullPointer. quiet_auto. Qed.

#[local] Hint Resolve quiet_MakeOwned quiet_HandleNullPointer : quiet.

Lemma quiet_GroupCell_new g : quiet (GroupCell_new g).
Proof. unfold GroupCell_new. quiet_auto. Qed.

#[local] Hint Resolve quiet_GroupCell_new : quiet.

Lemma quiet_ParseText n s : quiet (ParseText n s).
Proof. unfold ParseText. quiet_auto. Qed.

Lemma quiet_typed_variable c : quiet (typed_variable c).
Proof. unfold typed_variable. quiet_auto. Qed.

Lemma quiet_ParseEditorTag n : quiet (ParseEditorTag n).
Proof. unfold ParseEditorTag. quiet_auto. Qed.

#[local] Hint Resolve quiet_ParseText quiet_typed_variable quiet_ParseEditorTag : quiet.

Variable rec : wxXmlNodePtr -> bool -> M OwningCellPtr.
Hypothesis Hrec : forall n a, quiet (rec n a).
Variable fuel : nat.

Lemma quiet_parse_child n a : quiet (parse_child rec n a).
Proof. unfold parse_child. quiet_auto. Qed.

#[local] Hint Resolve Hrec quiet_parse_child : quiet.

Lemma quiet_m_groupTags :
  Forall (fun e => forall n, quiet (snd e n)) (m_groupTags fuel).
Proof.
  unfold m_groupTags.
  repeat (apply Forall_cons; [intros n; cbn [snd]|]); try apply Forall_nil.
  all: unfold GroupCellFromCodeTag, GroupCellFromImageTag, GroupCellFromKind,
         GroupCellFromSubsectionTag; quiet_auto.
Qed.

Lemma quiet_fold_loop n : quiet (fold_loop rec fuel n).
Proof. unfold fold_loop. apply quiet_while. intros s. unfold fold_body. quiet_auto. Qed.

#[local] Hint Resolve quiet_fold_loop : quiet.

Lemma quiet_ParseCellTag n : quiet (ParseCellTag rec fuel n).
Proof.
  unfold ParseCellTag. cbv zeta.
  destruct (lookup (m_groupTags fuel) _) as [f|] eqn:E; [|apply quiet_ret].
  apply quiet_bind; [exact (quiet_lookup _ _ _ quiet_m_groupTags E n)|].
  intros g. quiet_auto.
Qed.

Lemma quiet_m_innerTags :
  Forall (fun e => forall n, quiet (snd e n)) (m_innerTags env rec fuel).
Proof.
  unfold m_innerTags.
  repeat (apply Forall_cons; [intros n; cbn [snd]|]); try apply Forall_nil.
  all: try apply quiet_ParseCellTag; try apply quiet_ParseEditorTag.
  all: unfold ParseVariableNameTag, ParseOperatorNameTag, ParseMiscTextTag,
         ParseNumberTag, ParseParenTag, ParseFracTag, ParseSupTag, ParseSubTag,
         ParseFunTag, ParseGreekTag, ParseSpecialConstantTag,
         ParseFunctionNameTag, ParseSqrtTag, ParseAbsTag, ParseConjugateTag,
         parse_inner, ParseDiffTag, ParseSumTag, ParseIntTag, ParseSpaceTag,
         ParseAtTag, ParseSubSupTag, ParseMmultiscriptsTag, ParseLimitTag,
         ParseTagContents, ParseTableTag, ParseMthTag, ParseOutputLabelTag,
         ParseStringTag, ParseHighlightTag, ParseHiddenOperatorTag,
         ParseImageTag, ParseSlideshowTag, ParseCharCode;
       quiet_auto.
Qed.

Lemma quiet_append_at_cursor p l : quiet (append_at_cursor p l).
Proof. unfold append_at_cursor. quiet_auto. Qed.

#[local] Hint Resolve quiet_append_at_cursor : quiet.

(** The branch of [ParseTag] that warns is taken with [cell] null, and
    then the name it would report is empty: the message box is never
    reached. *)
Lemma quiet_ParseTag_body all l : quiet (ParseTag_body env rec fuel all l).
Proof.
  unfold ParseTag_body.
  destruct (node l) as [|n rest]; [apply quiet_ret|].
  apply quiet_bind.
  - destruct (wxXmlNodeType_eqb (GetType n) wxXML_ELEMENT_NODE).
    + cbv zeta.
      apply quiet_bind.
      * destruct (lookup _ _) as [f|] eqn:E; [|apply quiet_ret].
        exact (quiet_lookup _ _ _ quiet_m_innerTags E n).
      * intros tmp. quiet_auto.
    + quiet_auto.
  - intros l1. apply quiet_bind; [|intros l2; quiet_auto].
    destruct (cursor_is_null (cell l1)) eqn:E; cbn [negb].
    + destruct (warning l1 && negb all); [|apply quiet_ret].
      cbn. apply quiet_ret.
    + quiet_auto.
Qed.

Lemma quiet_ParseTag_step n all : quiet (ParseTag_step env rec fuel n all).
Proof.
  unfold ParseTag_step. cbv zeta.
  apply quiet_bind; [|intros l; apply quiet_ret].
  apply quiet_while. intros l. apply quiet_ParseTag_body.
Qed.

End Quiet.

(** [ParseTag] never calls [LoggingMessageBox]: whatever the document and
    however many unrecognized tags it holds, the count of warnings after
    a call is the count before it. *)
Lemma ParseTag_never_warns {services : CellServices}
  (env : MathParser.Environment) (fuel : nat) (n : wxXmlNodePtr) (all : bool) :
  quiet (MathParser.ParseTag env fuel n all).
Proof.
  revert n all. induction fuel as [|fuel IH]; intros n all.
  - apply quiet_out_of_fuel.
  - cbn [MathParser.ParseTag]. apply quiet_ParseTag_step. exact IH.
Qed.

(** ** What ParseTag makes of elements *)

Section ParseTagGeneral.
Context {services : CellServices}.
Variable env : MathParser.Environment.
Import MathParser.

(** An element node is not whitespace: the skip stops on it. *)
Lemma SkipWhitespaceNode_element (n : wxXmlNode) (rest : wxXmlNodePtr) :
  GetType n = wxXML_ELEMENT_NODE ->
  SkipWhitespaceNode (n :: rest) = n :: rest.
Proof. intros H; unfold SkipWhitespaceNode; rewrite H; reflexivity. Qed.

Lemma SkipWhitespaceNode_elements (nodes : wxXmlNodePtr) :
  Forall (fun n => GetType n = wxXML_ELEMENT_NODE) nodes ->
  SkipWhitespaceNode nodes = nodes.
Proof.
  intros [|n rest H _]; [reflexivity|].
  apply SkipWhitespaceNode_element; exact H.
Qed.

(** One turn of the loop on an element, nothing having been parsed so
    far: whatever the routine returns, nothing has been parsed after it
    either. *)
Lemma ParseTag_body_element
  (rec : wxXmlNodePtr -> bool -> M OwningCellPtr) (fuel : nat) (all w : bool)
  (n : wxXmlNode) (rest : wxXmlNodePtr) (st st' : State) (r : step locals) :
  GetType n = wxXML_ELEMENT_NODE ->
  ParseTag_body env rec fuel all (mkLocals [] [] AtNull w (n :: rest)) st
  = Ok (r, st') ->
  r = (if negb all then Break (mkLocals [] [] AtNull w (GetNextTag (n :: rest)))
       else Continue (mkLocals [] [] AtNull w (GetNextTag (n :: rest)))).
Proof.
  intros Ht. unfold ParseTag_body.
  set (T := m_innerTags env rec fuel).
  destruct n as [ty nm ct at_ ch]. simpl in Ht. subst ty.
  cbn -[T GetNextTag]. unfold bind.
  destruct (lookup T nm) as [f|].
  - destruct (f _ st) as [[tmp st1]| |]; try discriminate.
    destruct tmp as [|c tmp]; cbn -[GetNextTag].
    + destruct ch as [|c1 ch]; cbn -[GetNextTag].
      * destruct w, all; cbn -[GetNextTag]; intros H; inversion H; reflexivity.
      * destruct (rec _ true st1) as [[tmp2 st2]| |]; try discriminate.
        destruct tmp2; destruct w, all; cbn -[GetNextTag];
          intros H; inversion H; reflexivity.
    + destruct w, all; cbn -[GetNextTag]; intros H; inversion H; reflexivity.
  - cbn -[GetNextTag].
    destruct ch as [|c1 ch]; cbn -[GetNextTag].
    + destruct w, all; cbn -[GetNextTag]; intros H; inversion H; reflexivity.
    + destruct (rec _ true st) as [[tmp2 st2]| |]; try discriminate.
      destruct tmp2; destruct w, all; cbn -[GetNextTag];
        intros H; inversion H; reflexivity.
Qed.

Lemma ParseTag_loop_elements
  (rec : wxXmlNodePtr -> bool -> M OwningCellPtr) (fuel0 : nat) (all w : bool) :
  forall (fuel : nat) (nodes : wxXmlNodePtr) (st st' : State) (l : locals),
    Forall (fun n => GetType n = wxXML_ELEMENT_NODE) nodes ->
    while_ fuel (fun l => non_null (node l)) (ParseTag_body env rec fuel0 all)
           (mkLocals [] [] AtNull w nodes) st = Ok (l, st') ->
    retval l = [].
Proof.
  induction fuel as [|fuel IH]; intros nodes st st' l Hall.
  - destruct nodes; simpl; [intros H; inversion H; reflexivity | discriminate].
  - destruct nodes as [|n rest]; [simpl; intros H; inversion H; reflexivity|].
    inversion Hall as [|? ? Hn Hrest]; subst.
    cbn [while_ non_null is_null negb node]. unfold bind at 1.
    destruct (ParseTag_body env rec fuel0 all _ st) as [[r st1]| |] eqn:E;
      try discriminate.
    apply ParseTag_body_element in E; [|exact Hn]. subst r.
    assert (G : GetNextTag (n :: rest) = rest).
    { unfold GetNextTag. apply SkipWhitespaceNode_elements. exact Hrest. }
    rewrite G.
    destruct all; cbn [negb].
    + apply IH. exact Hrest.
    + intros H; inversion H; reflexivity.
Qed.

(** Whenever [ParseTag], given element nodes only, returns, it returns the
    null fragment: what the routines return is dropped. *)
Lemma ParseTag_elements_absent (fuel : nat) (nodes : wxXmlNodePtr) (all : bool)
  (st st' : State) (r : OwningCellPtr) :
  Forall (fun n => GetType n = wxXML_ELEMENT_NODE) nodes ->
  ParseTag env fuel nodes all st = Ok (r, st') ->
  r = [].
Proof.
  intros Hall. destruct fuel as [|fuel]; [discriminate|].
  cbn [ParseTag]. unfold ParseTag_step.
  rewrite (SkipWhitespaceNode_elements nodes Hall).
  unfold bind.
  destruct (while_ _ _ _ _ st) as [[l st1]| |] eqn:E; try discriminate.
  apply ParseTag_loop_elements in E; [|exact Hall].
  unfold ret. intros H; inversion H; subst. exact E.
Qed.

(** ** C10: the loop over the children of a fold *)

(** [<cell type="bogus"/>] parses to nothing, and leaves the state as it
    is, whenever the fuel suffices. *)
Lemma bogus_cell_absent (k : nat) (st : State) :
  ParseTag env k [bogus_cell] false st = OutOfFuel
  \/ ParseTag env k [bogus_cell] false st = Ok ([], st).
Proof.
  destruct k as [|k]; [left; reflexivity | right; reflexivity].
Qed.

(** A child whose parse is absent keeps the loop where it is. *)
Lemma fold_loop_diverges (rec : wxXmlNodePtr -> bool -> M OwningCellPtr) :
  (forall st, rec [bogus_cell] false st = OutOfFuel
              \/ rec [bogus_cell] false st = Ok ([], st)) ->
  forall (j : nat) (st : State),
    fold_loop rec j [bogus_cell] st = OutOfFuel.
Proof.
  intros Hrec j. unfold fold_loop.
  induction j as [|j IH]; intros st; [reflexivity|].
  simpl while_. cbn [non_null is_null negb].
  unfold bind at 1. unfold fold_body at 1. unfold bind at 1.
  destruct (Hrec st) as [E|E]; rewrite E; [reflexivity|].
  cbn [is_null]. unfold ret at 1. apply IH.
Qed.

Lemma ParseCellTag_fold_diverges
  (rec : wxXmlNodePtr -> bool -> M OwningCellPtr) (k : nat) (st : State) :
  (forall st, rec [bogus_cell] false st = OutOfFuel
              \/ rec [bogus_cell] false st = Ok ([], st)) ->
  ParseCellTag rec (S k) fold_doc st = OutOfFuel.
Proof.
  intros Hrec. unfold ParseCellTag.
  lazy -[fold_loop].
  rewrite (fold_loop_diverges rec Hrec).
  reflexivity.
Qed.

(** A routine that does not return keeps [ParseTag] from returning. *)
Lemma ParseTag_step_routine_diverges
  (rec : wxXmlNodePtr -> bool -> M OwningCellPtr) (fuel : nat)
  (n : wxXmlNode) (rest : wxXmlNodePtr) (all : bool) (st : State)
  (f : wxXmlNode -> M OwningCellPtr) :
  GetType n = wxXML_ELEMENT_NODE ->
  lookup (m_innerTags env rec (S fuel)) (GetName n) = Some f ->
  f n st = OutOfFuel ->
  ParseTag_step env rec (S fuel) (n :: rest) all st = OutOfFuel.
Proof.
  intros Ht Hl Hf.
  unfold ParseTag_step, ParseTag_body.
  set (T := m_innerTags env rec (S fuel)) in *.
  destruct n as [ty nm ct at_ ch]. simpl in Ht. subst ty.
  cbn [GetName] in Hl. cbn -[T]. rewrite Hl.
  unfold bind. rewrite Hf. reflexivity.
Qed.

(** Asked for one node, an element, [ParseTag] returns the null fragment
    whenever it returns. *)
Lemma ParseTag_first_element_absent (fuel : nat) (n : wxXmlNode)
  (rest : wxXmlNodePtr) (st st' : State) (r : OwningCellPtr) :
  GetType n = wxXML_ELEMENT_NODE ->
  ParseTag env fuel (n :: rest) false st = Ok (r, st') ->
  r = [].
Proof.
  intros Hn. destruct fuel as [|fuel]; [discriminate|].
  cbn [ParseTag]. unfold ParseTag_step.
  rewrite (SkipWhitespaceNode_element n rest Hn).
  cbn [while_ non_null is_null negb node]. unfold bind at 1 2.
  destruct (ParseTag_body env _ _ false _ st) as [[s st1]| |] eqn:E;
    try discriminate.
  apply ParseTag_body_element in E; [|exact Hn]. subst s.
  cbn [negb]. unfold ret. intros H; inversion H; reflexivity.
Qed.

(** With a first child that is an element, the loop over the children of
    a fold does not return. *)
Lemma fold_loop_never_returns (rec : wxXmlNodePtr -> bool -> M OwningCellPtr)
  (n : wxXmlNode) (rest : wxXmlNodePtr) :
  (forall st r st', rec (n :: rest) false st = Ok (r, st') -> r = []) ->
  forall (j : nat) (st st' : State) (s : fold_state),
    fold_loop rec j (n :: rest) st <> Ok (s, st').
Proof.
  intros Hrec j. unfold fold_loop.
  induction j as [|j IH]; intros st st' s; [discriminate|].
  simpl while_. cbn [non_null is_null negb].
  unfold bind at 1. unfold fold_body at 1. unfold bind at 1.
  destruct (rec (n :: rest) false st) as [[r st1]| |] eqn:E; try discriminate.
  apply Hrec in E. subst r. cbn [is_null]. unfold ret at 1. apply IH.
Qed.

Lemma ParseCellTag_fold_never_returns
  (rec : wxXmlNodePtr -> bool -> M OwningCellPtr) (k : nat)
  (n : wxXmlNode) (rest : wxXmlNodePtr) (st st' : State) (r : OwningCellPtr) :
  GetType n = wxXML_ELEMENT_NODE ->
  (forall st r st', rec (n :: rest) false st = Ok (r, st') -> r = []) ->
  ParseCellTag rec (S k) (folded_doc (n :: rest)) st <> Ok (r, st').
Proof.
  intros Hn Hrec. unfold ParseCellTag, folded_doc.
  destruct n as [ty nm ct at_ ch]. simpl in Hn. subst ty.
  lazy -[fold_loop].
  match goal with
  | |- context [fold_loop rec (S k) ?l ?s] =>
      destruct (fold_loop rec (S k) l s) as [[f st1]| |] eqn:E
  end; try discriminate.
  exfalso. exact (fold_loop_never_returns rec _ rest Hrec _ _ _ _ E).
Qed.

Lemma ParseTag_step_routine_never_returns
  (rec : wxXmlNodePtr -> bool -> M OwningCellPtr) (fuel : nat)
  (n : wxXmlNode) (rest : wxXmlNodePtr) (all : bool) (st st' : State)
  (r : OwningCellPtr) (f : wxXmlNode -> M OwningCellPtr) :
  GetType n = wxXML_ELEMENT_NODE ->
  lookup (m_innerTags env rec (S fuel)) (GetName n) = Some f ->
  (forall q st1, f n st <> Ok (q, st1)) ->
  ParseTag_step env rec (S fuel) (n :: rest) all st <> Ok (r, st').
Proof.
  intros Ht Hl Hf.
  unfold ParseTag_step, ParseTag_body.
  set (T := m_innerTags env rec (S fuel)) in *.
  destruct n as [ty nm ct at_ ch]. simpl in Ht. subst ty.
  cbn [GetName] in Hl. cbn -[T]. rewrite Hl.
  unfold bind.
  destruct (f _ st) as [[q st1]| |]; try discriminate.
  exfalso. exact (Hf q st1 eq_refl).
Qed.

(** In these sources every fold whose first child is an element, a folded
    cell for one, keeps the parser from returning: the parse of an element
    is always absent. *)
Lemma fold_with_element_never_returns (fuel : nat) (n : wxXmlNode)
  (rest : wxXmlNodePtr) (st st' : State) (r : OwningCellPtr) :
  GetType n = wxXML_ELEMENT_NODE ->
  ParseTag env fuel [folded_doc (n :: rest)] true st <> Ok (r, st').
Proof.
  intros Hn. destruct fuel as [|k]; [discriminate|].
  cbn [ParseTag].
  apply ParseTag_step_routine_never_returns
    with (f := ParseCellTag (ParseTag env k) (S k)).
  - reflexivity.
  - reflexivity.
  - intros q st1. apply ParseCellTag_fold_never_returns; [exact Hn|].
    intros st2 r2 st3. apply ParseTag_first_element_absent. exact Hn.
Qed.

End ParseTagGeneral.

(** C10, refuted: on the finite document
    [<cell type="code"><fold><cell type="bogus"/></fold></cell>] the
    parser does not return, whatever fuel it is given: the loop over the
    children of the fold never leaves its first child. *)
Theorem fold_loop_never_ends {services : CellServices}
  (env : MathParser.Environment) (fuel : nat) (st : MathParser.State) :
  MathParser.ParseTag env fuel [fold_doc] true st = MathParser.OutOfFuel.
Proof.
  destruct fuel as [|k]; [reflexivity|].
  cbn [MathParser.ParseTag].
  apply ParseTag_step_routine_diverges
    with (f := MathParser.ParseCellTag (MathParser.ParseTag env k) (S k)).
  - reflexivity.
  - reflexivity.
  - apply ParseCellTag_fold_diverges. intros st'. apply bogus_cell_absent.
Qed.

(** * Further properties of the sources *)

(** ** LimitCell: the forms of the text, without and with an arrow *)

(** [SubString] from the start to the last unit of a prefix is the
    prefix. *)
Lemma SubString_prefix (a b : wxString) :
  Length (a ++ b) < 2 ^ 63 ->
  SubString (a ++ b) 0 (Length a - 1) = a.
Proof.
  intros Hb. rewrite Length_app in Hb.
  pose proof (Length_nonneg a) as Ha. pose proof (Length_nonneg b) as Hb'.
  unfold SubString, Mid. change (size_t 0) with 0.
  destruct (Z.eq_dec (Length a) 0) as [Z0|NZ].
  - rewrite Z0. change (size_t (size_t (0 - 1) - 0 + 1)) with 0.
    destruct a; [|discriminate].
    destruct (Length ([] ++ b) <? 0); [reflexivity|].
    rewrite Z.min_l by (rewrite Length_app; change (Length []) with 0; lia).
    reflexivity.
  - rewrite (size_t_small (Length a - 1)) by lia.
    replace (Length a - 1 - 0 + 1) with (Length a) by lia.
    rewrite size_t_small by lia.
    rewrite Length_app.
    replace (Length a + Length b <? 0) with false by (symmetry; apply Z.ltb_ge; lia).
    rewrite Z.min_l by lia. simpl skipn.
    unfold Length. rewrite Nat2Z.id.
    rewrite firstn_app, firstn_all, Nat.sub_diag. simpl. apply app_nil_r.
Qed.

(** [SubString] from the end of a prefix to the last unit of the string
    is what follows the prefix. *)
Lemma SubString_suffix (a b : wxString) :
  Length (a ++ b) < 2 ^ 63 ->
  SubString (a ++ b) (Length a) (Length (a ++ b) - 1) = b.
Proof.
  intros Hb. rewrite Length_app in *.
  pose proof (Length_nonneg a) as Ha. pose proof (Length_nonneg b) as Hb'.
  unfold SubString, Mid. rewrite Length_app.
  rewrite (size_t_small (Length a)) by lia.
  destruct (Z.eq_dec (Length a + Length b) 0) as [Z0|NZ].
  - assert (Length a = 0) as A0 by lia. assert (Length b = 0) as B0 by lia.
    destruct a; [|discriminate]. destruct b; [|discriminate]. reflexivity.
  - rewrite (size_t_small (Length a + Length b - 1)) by lia.
    replace (Length a + Length b - 1 - Length a + 1) with (Length b) by lia.
    rewrite size_t_small by lia.
    replace (Length a + Length b <? Length a) with false
      by (symmetry; apply Z.ltb_ge; lia).
    rewrite Z.min_l by lia.
    unfold Length. rewrite !Nat2Z.id.
    rewrite skipn_app, skipn_all, Nat.sub_diag. simpl. apply firstn_all.
Qed.

(** With the position [-1] that [Find] returns when there is no arrow,
    the variable [SubString(0, -2)] is the whole text and the target
    [SubString(1, Length - 1)] is the text without its first unit. *)
Lemma SubString_not_found (u : wxString) :
  Length u < 2 ^ 63 ->
  SubString u 0 (wxNOT_FOUND - 1) = u
  /\ SubString u (wxNOT_FOUND + 2) (Length u - 1) = tl u.
Proof.
  intros Hb. pose proof (Length_nonneg u) as Hu. split.
  - unfold SubString, Mid.
    change (size_t (size_t (wxNOT_FOUND - 1) - size_t 0 + 1)) with (2 ^ 64 - 1).
    change (size_t 0) with 0.
    replace (Length u <? 0) with false by (symmetry; apply Z.ltb_ge; lia).
    rewrite Z.min_r by lia. rewrite Z.sub_0_r. simpl skipn.
    unfold Length. rewrite Nat2Z.id. apply firstn_all.
  - change (wxNOT_FOUND + 2) with 1. unfold SubString, Mid.
    change (size_t 1) with 1.
    destruct u as [|c u]; [reflexivity|].
    change (Length (c :: u)) with (Z.of_nat (S (List.length u))) in *.
    rewrite (size_t_small (Z.of_nat (S (List.length u)) - 1)) by lia.
    replace (Z.of_nat (S (List.length u)) - 1 - 1 + 1)
      with (Z.of_nat (List.length u)) by lia.
    rewrite size_t_small by lia.
    replace (Z.of_nat (S (List.length u)) <? 1) with false
      by (symmetry; apply Z.ltb_ge; lia).
    rewrite Z.min_l by lia. rewrite Nat2Z.id. simpl. apply firstn_all.
Qed.

(** The text form of a limit whose under child renders without any
    arrow. *)
Lemma text_form_no_arrow (under base_ : wxString) :
  Find under (wxT "->") = wxNOT_FOUND ->
  Length under < 2 ^ 31 ->
  LimitCell.text_form under base_
  = wxT "limit(" ++ base_ ++ wxT "," ++ under ++ wxT ","
    ++ one_sided (tl under) ++ wxT ")".
Proof.
  intros HF Hb. unfold LimitCell.text_form. rewrite HF.
  destruct (SubString_not_found under) as [E1 E2]; [lia|].
  rewrite E1, E2.
  rewrite sign_translation; [reflexivity|].
  pose proof (Length_nonneg under).
  destruct under as [|c u]; [simpl; unfold Length; simpl; lia|].
  simpl tl. unfold Length in *. simpl List.length in Hb. lia.
Qed.

(** [LimitCell::ToMatlab] on a limit cell whose under child renders, for
    Matlab, as a variable, the first arrow of the text and a target:
    the result is [limit(base,variable,target')], the target having its
    trailing sign, if any, turned into [,plus] or [,minus]. *)
Theorem LimitCell_ToMatlab_arrow {services : CellServices} (l : LimitCell.t)
  (var tgt : wxString) :
  let under := ListToMatlab (LimitCell.m_under l) in
  let base_ := ListToMatlab (LimitCell.m_base l) in
  under = var ++ wxT "->" ++ tgt ->
  Find under (wxT "->") = Length var ->
  Length under < 2 ^ 31 ->
  LimitCell.ToMatlab l
  = wxT "limit(" ++ base_ ++ wxT "," ++ var ++ wxT "," ++ one_sided tgt ++ wxT ")".
Proof.
  intros under base_ E HF Hb. unfold LimitCell.ToMatlab. fold under base_.
  rewrite E in *. apply text_form_arrow; assumption.
Qed.

Lemma LimitCell_ToMatlab_arrow_witness :
  @LimitCell.ToMatlab Plain.services (plain_limit "t->a-" "h(t)")
  = wxT "limit(h(t),t,a,minus)".
Proof.
  refine (LimitCell_ToMatlab_arrow (services := Plain.services)
            (plain_limit "t->a-" "h(t)") (wxT "t") (wxT "a-") eq_refl eq_refl _).
  vm_compute. reflexivity.
Defined.

(** [LimitCell::ToString] and [LimitCell::ToMatlab] on a limit cell whose
    under child renders without any arrow: [Find] returns [-1], the whole
    rendering is taken for the variable and the rendering without its
    first unit for the target. *)
Theorem LimitCell_text_without_arrow {services : CellServices} (l : LimitCell.t) :
  let form (under base_ : wxString) :=
    wxT "limit(" ++ base_ ++ wxT "," ++ under ++ wxT ","
    ++ one_sided (tl under) ++ wxT ")" in
  (Find (ListToString (LimitCell.m_under l)) (wxT "->") = wxNOT_FOUND ->
   Length (ListToString (LimitCell.m_under l)) < 2 ^ 31 ->
   LimitCell.ToString l
   = form (ListToString (LimitCell.m_under l)) (ListToString (LimitCell.m_base l)))
  /\ (Find (ListToMatlab (LimitCell.m_under l)) (wxT "->") = wxNOT_FOUND ->
      Length (ListToMatlab (LimitCell.m_under l)) < 2 ^ 31 ->
      LimitCell.ToMatlab l
      = form (ListToMatlab (LimitCell.m_under l)) (ListToMatlab (LimitCell.m_base l))).
Proof.
  cbv zeta. split; intros HF Hb; apply text_form_no_arrow; assumption.
Qed.

Lemma LimitCell_text_without_arrow_witness :
  @LimitCell.ToString Plain.services (plain_limit "xy" "f(x)")
  = wxT "limit(f(x),xy,y)"
  /\ @LimitCell.ToMatlab Plain.services (plain_limit "" "f(x)")
     = wxT "limit(f(x),,)".
Proof.
  split.
  - refine (proj1 (LimitCell_text_without_arrow (services := Plain.services)
                     (plain_limit "xy" "f(x)")) eq_refl _).
    vm_compute. reflexivity.
  - refine (proj2 (LimitCell_text_without_arrow (services := Plain.services)
                     (plain_limit "" "f(x)")) eq_refl _).
    vm_compute. reflexivity.
Defined.

(** ** LimitCell::ToTeX *)

(** [LimitCell::ToTeX] splits the TeX rendering of the under child at its
    first arrow, the plain [->] or, when there is none, the TeX arrow
    [\mbox{\rightarrow }], and returns [\lim_{variable\to target}{base}];
    a trailing sign of the target is kept as it is.  When the rendering
    holds neither arrow, the variable is empty and the target is the
    whole rendering. *)
Theorem LimitCell_ToTeX_forms {services : CellServices} (l : LimitCell.t)
  (var tgt : wxString) :
  let under := ListToTeX (LimitCell.m_under l) in
  let base_ := ListToTeX (LimitCell.m_base l) in
  let form (var tgt : wxString) :=
    wxT "\lim_{" ++ var ++ wxT "\to " ++ tgt ++ wxT "}{" ++ base_ ++ wxT "}" in
  Length under < 2 ^ 31 ->
  (under = var ++ wxT "->" ++ tgt ->
   Find under (wxT "->") = Length var ->
   LimitCell.ToTeX l = form var tgt)
  /\ (under = var ++ wxT "\mbox{\rightarrow }" ++ tgt ->
      Find under (wxT "->") = wxNOT_FOUND ->
      Find under (wxT "\mbox{\rightarrow }") = Length var ->
      LimitCell.ToTeX l = form var tgt)
  /\ (Find under (wxT "->") = wxNOT_FOUND ->
      Find under (wxT "\mbox{\rightarrow }") = wxNOT_FOUND ->
      LimitCell.ToTeX l = form wxEmptyString under).
Proof.
  intros under base_ form Hb. unfold LimitCell.ToTeX. fold under base_.
  pose proof (Length_nonneg var) as Hv.
  split; [|split].
  - intros E HF. rewrite HF.
    replace (Length var =? wxNOT_FOUND) with false
      by (symmetry; apply Z.eqb_neq; unfold wxNOT_FOUND; lia).
    rewrite E in *.
    rewrite SubString_prefix by lia.
    replace (Length var + 2) with (Length (var ++ wxT "->"))
      by (rewrite Length_app; reflexivity).
    rewrite (app_assoc var (wxT "->") tgt) in *.
    rewrite SubString_suffix by lia.
    reflexivity.
  - intros E HA HF. rewrite HA, HF. rewrite Z.eqb_refl.
    replace (Length var =? wxNOT_FOUND) with false
      by (symmetry; apply Z.eqb_neq; unfold wxNOT_FOUND; lia).
    cbn [negb]. rewrite E in *.
    rewrite SubString_prefix by lia.
    replace (Length var + 19) with (Length (var ++ wxT "\mbox{\rightarrow }"))
      by (rewrite Length_app; reflexivity).
    rewrite (app_assoc var (wxT "\mbox{\rightarrow }") tgt) in *.
    rewrite SubString_suffix by lia.
    reflexivity.
  - intros HA HF. rewrite HA, HF. rewrite Z.eqb_refl. cbn [negb].
    assert (E1 : SubString under 0 wxNOT_FOUND = [])
      by (apply (SubString_prefix [] under); simpl; lia).
    assert (E2 : SubString under 0 (Length under - 1) = under)
      by (apply (SubString_suffix [] under); simpl; lia).
    rewrite E1, E2. reflexivity.
Qed.

Lemma LimitCell_ToTeX_forms_witness :
  let ToTeX := @LimitCell.ToTeX Plain.services in
  ToTeX (plain_limit "x->0+" "f(x)") = wxT "\lim_{x\to 0+}{f(x)}"
  /\ ToTeX (plain_limit "x\mbox{\rightarrow }0" "f(x)") = wxT "\lim_{x\to 0}{f(x)}"
  /\ ToTeX (plain_limit "x" "f(x)") = wxT "\lim_{\to x}{f(x)}".
Proof.
  cbv zeta. split; [|split].
  - refine (proj1 (LimitCell_ToTeX_forms (services := Plain.services)
                     (plain_limit "x->0+" "f(x)") (wxT "x") (wxT "0+") _)
              eq_refl eq_refl).
    vm_compute. reflexivity.
  - refine (proj1 (proj2 (LimitCell_ToTeX_forms (services := Plain.services)
                            (plain_limit "x\mbox{\rightarrow }0" "f(x)")
                            (wxT "x") (wxT "0") _))
              eq_refl eq_refl eq_refl).
    vm_compute. reflexivity.
  - refine (proj2 (proj2 (LimitCell_ToTeX_forms (services := Plain.services)
                            (plain_limit "x" "f(x)") [] [] _))
              eq_refl eq_refl).
    vm_compute. reflexivity.
Defined.

(** ** SubSupCell: the setters *)

Lemma CellPtr_eqb_eq (a b : CellPtr) : SubSupCell.CellPtr_eqb a b = true <-> a = b.
Proof.
  destruct a as [x|], b as [y|]; simpl; try (split; [discriminate|discriminate]);
    [|tauto].
  rewrite N.eqb_eq. split; [intros ->; reflexivity | intros H; inversion H; reflexivity].
Qed.

(** The pointer to a chain that is not null is not null. *)
Lemma get_non_null (p : OwningCellPtr) : p <> [] -> get p <> nullptr.
Proof. destruct p; [congruence | discriminate]. Qed.

Lemma is_null_false {A} (p : list A) : is_null p = false <-> p <> [].
Proof. destruct p; simpl; split; congruence. Qed.

(** What is left of [m_scriptCells] once the pointer to a child has been
    erased points to the other three children. *)
Lemma RemoveCell_owned (cells : list CellPtr) (old : OwningCellPtr)
  (before after : list CellPtr) :
  Forall (fun p => p <> nullptr /\ In p before) cells ->
  (forall p, In p before -> p <> get old -> In p after) ->
  Forall (fun p => p <> nullptr /\ In p after) (SubSupCell.RemoveCell cells old).
Proof.
  intros H Hother. unfold SubSupCell.RemoveCell.
  rewrite Forall_forall in *. intros p Hp.
  apply filter_In in Hp. destruct Hp as [Hin Hne].
  destruct (H p Hin) as [Hnn Hb]. split; [exact Hnn|].
  apply Hother; [exact Hb|].
  intros E. rewrite negb_true_iff in Hne.
  apply (proj2 (CellPtr_eqb_eq p (get old))) in E. congruence.
Qed.

(** Every setter keeps the entries of [m_scriptCells] pointing to script
    children the cell owns, and keeps the base in place. *)
Lemma run_keeps_owned (o : SubSupCell.op) (s : SubSupCell.t) :
  SubSupCell.m_baseCell s <> [] -> scripts_owned s ->
  SubSupCell.m_baseCell (SubSupCell.run o s) <> []
  /\ scripts_owned (SubSupCell.run o s).
Proof.
  intros Hb Hs. unfold scripts_owned in *.
  destruct o as [c|c|c|c|c|c|c]; cbn [SubSupCell.run];
    unfold SubSupCell.SetPreSup, SubSupCell.SetPreSub, SubSupCell.SetPostSup,
      SubSupCell.SetPostSub, SubSupCell.SetIndex, SubSupCell.SetBase,
      SubSupCell.SetExponent;
    destruct (is_null c) eqn:Ec; try (split; assumption);
    apply is_null_false in Ec;
    (split; [cbn; assumption|]); cbn [SubSupCell.m_scriptCells SubSupCell.scripts
      SubSupCell.m_preSupCell SubSupCell.m_preSubCell SubSupCell.m_postSupCell
      SubSupCell.m_postSubCell];
    try apply Forall_app; try split;
    try (apply Forall_cons; [|apply Forall_nil]; split;
         [apply get_non_null; exact Ec | cbn; tauto]);
    try (eapply RemoveCell_owned; [exact Hs|];
         cbn; intros p Hp Hne; intuition congruence).
  exact Hs.
Qed.

Lemma run_all_keeps_owned (ops : list SubSupCell.op) (s : SubSupCell.t) :
  SubSupCell.m_baseCell s <> [] -> scripts_owned s ->
  SubSupCell.m_baseCell (SubSupCell.run_all ops s) <> []
  /\ scripts_owned (SubSupCell.run_all ops s).
Proof.
  revert s. induction ops as [|o ops IH]; intros s Hb Hs; [split; assumption|].
  cbn [SubSupCell.run_all fold_left].
  destruct (run_keeps_owned o s Hb Hs) as [Hb' Hs'].
  exact (IH _ Hb' Hs').
Qed.

(** The constructor installs a base and leaves [m_scriptCells] empty. *)
Lemma new_owned (parent : CellPtr) (n : N) :
  SubSupCell.m_baseCell (fst (SubSupCell.new parent n)) <> []
  /\ scripts_owned (fst (SubSupCell.new parent n)).
Proof. split; [discriminate | apply Forall_nil]. Qed.

(** An entry of [m_scriptCells] that points to a script child can be
    followed to it. *)
Lemma owned_follow (s : SubSupCell.t) (p : CellPtr) :
  scripts_owned s -> In p (SubSupCell.m_scriptCells s) ->
  exists c, SubSupCell.follow s p = Some c /\ c <> [] /\ get c = p.
Proof.
  intros Hs Hp. unfold scripts_owned in Hs. rewrite Forall_forall in Hs.
  destruct (Hs p Hp) as [Hnn Hin].
  unfold SubSupCell.follow. destruct p as [a|]; [|exfalso; apply Hnn; reflexivity].
  destruct (find _ _) as [c|] eqn:E.
  - exists c. apply find_some in E. destruct E as [_ E].
    apply CellPtr_eqb_eq in E. split; [reflexivity|]. split; [|exact E].
    destruct c; [discriminate E | discriminate].
  - exfalso. apply in_map_iff in Hin. destruct Hin as (c & Ec & Hc).
    pose proof (find_none _ _ E c Hc) as F. cbn beta in F.
    rewrite Ec in F. rewrite (proj2 (CellPtr_eqb_eq _ _) eq_refl) in F.
    discriminate.
Qed.

(** A cell built by the constructor and the setters has its base and
    owns what [m_scriptCells] points to. *)
Lemma after_owned (ops : list SubSupCell.op) (parent : CellPtr) (n : N) :
  SubSupCell.m_baseCell (SubSupCell_after ops parent n) <> []
  /\ scripts_owned (SubSupCell_after ops parent n).
Proof.
  unfold SubSupCell_after.
  destruct (new_owned parent n) as [Hb Hs].
  exact (run_all_keeps_owned ops _ Hb Hs).
Qed.

(** Whatever setters are called on a [SubSupCell], in whatever order and
    with whatever arguments, null ones included: the base is never null
    and every entry of [m_scriptCells] is the address of a script child
    the cell owns at that moment; no entry is null, none is left pointing
    to a child that has been replaced. *)
Theorem SubSupCell_script_pointers_owned (ops : list SubSupCell.op)
  (parent : CellPtr) (n : N) :
  let s := SubSupCell_after ops parent n in
  SubSupCell.m_baseCell s <> []
  /\ scripts_owned s
  /\ forall p, In p (SubSupCell.m_scriptCells s) ->
               exists c, SubSupCell.follow s p = Some c /\ c <> [] /\ get c = p.
Proof.
  cbv zeta. destruct (after_owned ops parent n) as [Hb Hs].
  split; [exact Hb|]. split; [exact Hs|].
  intros p Hp. exact (owned_follow _ p Hs Hp).
Qed.

Lemma SubSupCell_script_pointers_owned_witness :
  let s := SubSupCell_after
             [SubSupCell.OpSetPostSub (text_at 10 "i");
              SubSupCell.OpSetPreSup (text_at 11 "j");
              SubSupCell.OpSetPostSub (text_at 12 "k");
              SubSupCell.OpSetPreSub []] nullptr 0 in
  SubSupCell.m_scriptCells s = [Some 11%N; Some 12%N]
  /\ exists c, SubSupCell.follow s (Some 12%N) = Some c /\ c <> [] /\ get c = Some 12%N.
Proof.
  cbv zeta. split; [reflexivity|].
  refine (proj2 (proj2 (SubSupCell_script_pointers_owned _ nullptr 0%N)) (Some 12%N) _).
  right; left; reflexivity.
Defined.

(** No setter resets a child to null: a null argument is ignored and a
    child is only ever replaced by another cell.  So, over any sequence of
    setters, a child that is there stays there. *)
Theorem SubSupCell_children_never_cleared (ops : list SubSupCell.op)
  (s : SubSupCell.t) :
  let s' := SubSupCell.run_all ops s in
  (SubSupCell.m_baseCell s <> [] -> SubSupCell.m_baseCell s' <> [])
  /\ (SubSupCell.m_postSubCell s <> [] -> SubSupCell.m_postSubCell s' <> [])
  /\ (SubSupCell.m_postSupCell s <> [] -> SubSupCell.m_postSupCell s' <> [])
  /\ (SubSupCell.m_preSubCell s <> [] -> SubSupCell.m_preSubCell s' <> [])
  /\ (SubSupCell.m_preSupCell s <> [] -> SubSupCell.m_preSupCell s' <> []).
Proof.
  cbv zeta. revert s. induction ops as [|o ops IH]; intros s; [tauto|].
  cbn [SubSupCell.run_all fold_left].
  specialize (IH (SubSupCell.run o s)).
  assert (H1 :
    (SubSupCell.m_baseCell s <> [] -> SubSupCell.m_baseCell (SubSupCell.run o s) <> [])
    /\ (SubSupCell.m_postSubCell s <> [] -> SubSupCell.m_postSubCell (SubSupCell.run o s) <> [])
    /\ (SubSupCell.m_postSupCell s <> [] -> SubSupCell.m_postSupCell (SubSupCell.run o s) <> [])
    /\ (SubSupCell.m_preSubCell s <> [] -> SubSupCell.m_preSubCell (SubSupCell.run o s) <> [])
    /\ (SubSupCell.m_preSupCell s <> [] -> SubSupCell.m_preSupCell (SubSupCell.run o s) <> [])).
  { destruct o as [c|c|c|c|c|c|c]; cbn [SubSupCell.run];
      unfold SubSupCell.SetPreSup, SubSupCell.SetPreSub, SubSupCell.SetPostSup,
        SubSupCell.SetPostSub, SubSupCell.SetIndex, SubSupCell.SetBase,
        SubSupCell.SetExponent;
      destruct (is_null c) eqn:Ec; try tauto;
      apply is_null_false in Ec; cbn; tauto. }
  unfold SubSupCell.run_all in IH. tauto.
Qed.

Lemma SubSupCell_children_never_cleared_witness :
  SubSupCell.m_postSubCell
    (SubSupCell.run_all [SubSupCell.OpSetPostSub []; SubSupCell.OpSetIndex [];
                         SubSupCell.OpSetPreSup (text_at 11 "j")]
       (SubSupCell_after [SubSupCell.OpSetIndex (text_at 10 "i")] nullptr 0))
  <> [].
Proof.
  refine (proj1 (proj2 (SubSupCell_children_never_cleared _ _)) _).
  discriminate.
Defined.

(** ** SubSupCell: the serializers *)

Section SubSupCellSerializers.
Context {services : CellServices} {serializers : SerializerServices}.

(** The loop of [ToString] over [m_scriptCells], when every entry can be
    followed. *)
Lemma ToString_scripts_loop (s : SubSupCell.t) (cells : list CellPtr) (str : wxString) :
  (forall p, In p cells -> exists c, SubSupCell.follow s p = Some c) ->
  fold_left
    (fun (acc : option wxString) (cell : CellPtr) =>
       match acc, SubSupCell.follow s cell with
       | Some str, Some c => Some (str ++ (wxT "[" ++ ListToString c ++ wxT "]"))
       | _, _ => None
       end) cells (Some str)
  = Some (str ++ List.concat
                   (map (fun c => wxT "[" ++ ListToString c ++ wxT "]")
                        (flat_map (fun p => match SubSupCell.follow s p with
                                            | Some c => [c]
                                            | None => []
                                            end) cells))).
Proof.
  revert str. induction cells as [|p cells IH]; intros str H.
  - simpl. rewrite app_nil_r. reflexivity.
  - destruct (H p (or_introl eq_refl)) as [c Ec].
    cbn [fold_left flat_map]. rewrite Ec.
    rewrite IH by (intros q Hq; apply H; right; exact Hq).
    cbn [app map List.concat]. rewrite <- !app_assoc. reflexivity.
Qed.

(** The loop of [ToMatlab], past its first turn. *)
Lemma ToMatlab_scripts_loop (s : SubSupCell.t) (cells : list CellPtr) (str : wxString) :
  (forall p, In p cells -> exists c, SubSupCell.follow s p = Some c) ->
  fold_left
    (fun (acc : option (wxString * bool)) (cell : CellPtr) =>
       match acc, SubSupCell.follow s cell with
       | Some (str, first), Some c =>
           let str := if negb first then str ++ wxT ";" else str in
           let first := true in
           Some (str ++ ListToMatlab c, first)
       | _, _ => None
       end) cells (Some (str, true))
  = Some (str ++ List.concat
                   (map ListToMatlab
                        (flat_map (fun p => match SubSupCell.follow s p with
                                            | Some c => [c]
                                            | None => []
                                            end) cells)), true).
Proof.
  revert str. induction cells as [|p cells IH]; intros str H.
  - simpl. rewrite app_nil_r. reflexivity.
  - destruct (H p (or_introl eq_refl)) as [c Ec].
    cbn [fold_left flat_map]. rewrite Ec. cbn [negb].
    rewrite IH by (intros q Hq; apply H; right; exact Hq).
    cbn [app map List.concat]. rewrite <- !app_assoc. reflexivity.
Qed.

End SubSupCellSerializers.

(** [SubSupCell::ToString] on a cell without alternative copy text, whose
    base is there and whose [m_scriptCells] point to children it owns.
    With [m_scriptCells] empty, the subscript and the superscript are
    dereferenced unconditionally: the call goes through a null pointer
    exactly when one of the two is missing.  With entries in
    [m_scriptCells], the text is the base followed by each script between
    brackets. *)
Theorem SubSupCell_ToString_defined {services : CellServices}
  {serializers : SerializerServices} (s : SubSupCell.t) :
  SubSupCell.m_baseCell s <> [] ->
  scripts_owned s ->
  m_altCopyText (SubSupCell.base s) = wxEmptyString ->
  (SubSupCell.m_scriptCells s = [] ->
   (SubSupCell.ToString s = None
    <-> SubSupCell.m_postSubCell s = [] \/ SubSupCell.m_postSupCell s = []))
  /\ (SubSupCell.m_scriptCells s <> [] ->
      SubSupCell.ToString s
      = Some (SubSupCell.base_text ListToString (SubSupCell.m_baseCell s)
              ++ List.concat (map (fun c => wxT "[" ++ ListToString c ++ wxT "]")
                                  (script_children s)))).
Proof.
  intros Hb Hs Ha. unfold SubSupCell.ToString. rewrite Ha. cbn [wx.eqb negb].
  destruct (SubSupCell.m_baseCell s) as [|b0 br] eqn:Eb; [congruence|].
  cbn [SubSupCell.arrow]. split.
  - intros E. rewrite E. cbn [is_null].
    destruct (SubSupCell.m_postSubCell s), (SubSupCell.m_postSupCell s);
      cbn [SubSupCell.arrow]; split; intros H; try reflexivity;
      try discriminate H; try (left; reflexivity); try (right; reflexivity).
    destruct H as [H|H]; discriminate H.
  - intros E. destruct (SubSupCell.m_scriptCells s) as [|p r] eqn:Ec; [congruence|].
    cbn [is_null]. unfold script_children. rewrite Ec.
    apply ToString_scripts_loop.
    intros q Hq. destruct (owned_follow s q Hs) as (c & Hc & _).
    + rewrite Ec. exact Hq.
    + exists c. exact Hc.
Qed.

Lemma SubSupCell_ToString_defined_witness :
  @SubSupCell.ToString Plain.services Plain.serializers
    (SubSupCell_after [SubSupCell.OpSetBase (text_at 9 "A")] nullptr 0) = None
  /\ @SubSupCell.ToString Plain.services Plain.serializers
       (SubSupCell_after [SubSupCell.OpSetBase (text_at 9 "A");
                          SubSupCell.OpSetPostSub (text_at 10 "i");
                          SubSupCell.OpSetPreSup (text_at 11 "j")] nullptr 0)
     = Some (wxT "A[i][j]").
Proof.
  split.
  - refine (proj2 (proj1 (SubSupCell_ToString_defined (services := Plain.services)
                            (serializers := Plain.serializers) _ _ _ _) _) _).
    + discriminate.
    + apply after_owned.
    + reflexivity.
    + reflexivity.
    + left; reflexivity.
  - refine (proj2 (SubSupCell_ToString_defined (services := Plain.services)
                     (serializers := Plain.serializers) _ _ _ _) _).
    + discriminate.
    + apply after_owned.
    + reflexivity.
    + discriminate.
Defined.

(** [SubSupCell::ToMatlab] on a cell with entries in [m_scriptCells]: the
    flag that should separate the scripts starts out [false], so the one
    semicolon the loop writes comes before the first script and none comes
    between two scripts. *)
Theorem SubSupCell_ToMatlab_scripts {services : CellServices}
  {serializers : SerializerServices} (s : SubSupCell.t) :
  SubSupCell.m_baseCell s <> [] ->
  scripts_owned s ->
  SubSupCell.m_scriptCells s <> [] ->
  SubSupCell.ToMatlab s
  = Some (SubSupCell.base_text ListToMatlab (SubSupCell.m_baseCell s)
          ++ wxT "[" ++ wxT ";"
          ++ List.concat (map ListToMatlab (script_children s))
          ++ wxT "]").
Proof.
  intros Hb Hs E. unfold SubSupCell.ToMatlab.
  destruct (SubSupCell.m_baseCell s) as [|b0 br] eqn:Eb; [congruence|].
  cbn [SubSupCell.arrow].
  destruct (SubSupCell.m_scriptCells s) as [|p r] eqn:Ec; [congruence|].
  cbn [is_null]. unfold script_children. rewrite Ec.
  assert (F : forall q, In q (p :: r) -> exists c, SubSupCell.follow s q = Some c).
  { intros q Hq. destruct (owned_follow s q Hs) as (c & Hc & _).
    - rewrite Ec. exact Hq.
    - exists c. exact Hc. }
  destruct (F p (or_introl eq_refl)) as [c Ec'].
  cbn [fold_left flat_map]. rewrite Ec'. cbn [negb].
  rewrite ToMatlab_scripts_loop by (intros q Hq; apply F; right; exact Hq).
  cbn [app map List.concat]. rewrite <- !app_assoc. reflexivity.
Qed.

Lemma SubSupCell_ToMatlab_scripts_witness :
  @SubSupCell.ToMatlab Plain.services Plain.serializers
    (SubSupCell_after [SubSupCell.OpSetBase (text_at 9 "A");
                       SubSupCell.OpSetPostSub (text_at 10 "i");
                       SubSupCell.OpSetPostSup (text_at 11 "j")] nullptr 0)
  = Some (wxT "A[;ij]").
Proof.
  refine (SubSupCell_ToMatlab_scripts (services := Plain.services)
            (serializers := Plain.serializers) _ _ _ _).
  - discriminate.
  - apply after_owned.
  - discriminate.
Defined.

(** The serializers to TeX, MathML, OMML and XML test the script children
    before they use them and dereference the base alone: on a cell built
    by the constructor and any sequence of setters none of them goes
    through a null pointer. *)
Theorem SubSupCell_markup_defined {services : CellServices}
  {serializers : SerializerServices} (ops : list SubSupCell.op)
  (parent : CellPtr) (n : N) :
  let s := SubSupCell_after ops parent n in
  (exists t, SubSupCell.ToTeX s = Some t)
  /\ (exists t, SubSupCell.ToMathML s = Some t)
  /\ (exists t, SubSupCell.ToOMML s = Some t)
  /\ (exists t, SubSupCell.ToXML s = Some t).
Proof.
  cbv zeta. destruct (after_owned ops parent n) as [Hb _].
  unfold SubSupCell.ToTeX, SubSupCell.ToMathML, SubSupCell.ToOMML, SubSupCell.ToXML.
  destruct (SubSupCell.m_baseCell (SubSupCell_after ops parent n)) as [|b0 br];
    [congruence|].
  cbn [SubSupCell.arrow].
  repeat split;
    repeat match goal with
           | |- context [if ?c then _ else _] => destruct c
           end; eexists; reflexivity.
Qed.

(** In the form with a subscript and a superscript ([m_scriptCells]
    empty), [SubSupCell::ToMathML] computes the MathML of the superscript
    and drops it: replacing the exponent by another cell leaves the MathML
    of the cell as it was. *)
Theorem SubSupCell_ToMathML_ignores_exponent
  {serializers : SerializerServices} (s : SubSupCell.t) (expt : OwningCellPtr) :
  SubSupCell.m_scriptCells s = [] ->
  SubSupCell.m_postSupCell s <> [] ->
  expt <> [] ->
  SubSupCell.ToMathML (SubSupCell.SetExponent expt s) = SubSupCell.ToMathML s.
Proof.
  intros Ec Hp He. unfold SubSupCell.SetExponent.
  destruct expt as [|e er]; [congruence|]. cbn [is_null].
  unfold SubSupCell.ToMathML.
  cbn [SubSupCell.m_baseCell SubSupCell.m_scriptCells SubSupCell.m_postSubCell
       SubSupCell.m_postSupCell].
  rewrite Ec. cbn [SubSupCell.RemoveCell filter is_null].
  destruct (SubSupCell.m_postSupCell s); [congruence|]. reflexivity.
Qed.

Lemma SubSupCell_ToMathML_ignores_exponent_witness :
  let s := SubSupCell_after [SubSupCell.OpSetBase (text_at 9 "A");
                             SubSupCell.OpSetIndex (text_at 10 "i");
                             SubSupCell.OpSetExponent (text_at 11 "j")] nullptr 0 in
  @SubSupCell.ToMathML Plain.serializers
    (SubSupCell.SetExponent (text_at 12 "k") s)
  = @SubSupCell.ToMathML Plain.serializers s.
Proof.
  cbv zeta.
  refine (SubSupCell_ToMathML_ignores_exponent
            (serializers := Plain.serializers) _ _ _ _ _).
  - reflexivity.
  - discriminate.
  - discriminate.
Defined.

(** ** The steps of a parse *)

Section ParserSteps.
Import MathParser.

(** A sequence returns when its first step returns and the rest does. *)
Lemma bind_Ok {A B} (m : M A) (k : A -> M B) (st st' : State) (b : B) :
  bind m k st = Ok (b, st') ->
  exists a st1, m st = Ok (a, st1) /\ k a st1 = Ok (b, st').
Proof.
  unfold bind. destruct (m st) as [[a st1]| |]; try discriminate.
  intros H. exists a, st1. split; [reflexivity | exact H].
Qed.

(** [ret] returns its argument and leaves the state. *)
Lemma ret_Ok {A} (a b : A) (st st' : State) :
  ret a st = Ok (b, st') -> b = a /\ st' = st.
Proof. unfold ret. intros H; inversion H; split; reflexivity. Qed.

End ParserSteps.

(** From a sequence that returned to its first step and the rest. *)
Ltac bind_inv H :=
  let a := fresh "a" in
  let st := fresh "st" in
  let E := fresh "E" in
  apply bind_Ok in H; destruct H as (a & st & E & H).

(** ** ParseSubSupTag *)

Section SubSupParse.
Context {services : CellServices} {serializers : SerializerServices}.
Import MathParser.

(** The routine bound to [ie], on an element whose second child carries
    no [pos] attribute (the form with an index and an exponent): when it
    returns, the cell has its base, its index and its exponent, parsed or
    placeholder, and nothing in [m_scriptCells]; so [ToString] and
    [ToMatlab], which dereference the index and the exponent in that
    form, do not go through a null pointer. *)
Theorem ParseSubSupTag_legacy (rec : wxXmlNodePtr -> bool -> M OwningCellPtr)
  (fuel : nat) (node : wxXmlNode) (st st' : State) (p : OwningCellPtr) :
  match GetNextTag (SkipWhitespaceNode (GetChildren node)) with
  | c :: _ => GetAttribute c (wxT "pos") wxEmptyString = wxEmptyString
  | [] => True
  end ->
  ParseSubSupTag rec fuel node st = Ok (p, st') ->
  exists s : SubSupCell.t,
    p = [SubSupCell.upcast s]
    /\ SubSupCell.m_scriptCells s = []
    /\ SubSupCell.m_baseCell s <> []
    /\ SubSupCell.m_postSubCell s <> []
    /\ SubSupCell.m_postSupCell s <> []
    /\ (exists t, SubSupCell.ToString s = Some t)
    /\ (exists t, SubSupCell.ToMatlab s = Some t).
Proof.
  intros Hpos H. unfold ParseSubSupTag in H.
  bind_inv H. cbv zeta in H. bind_inv H.
  apply parse_child_non_null in E0.
  match type of H with
  | (if ?c then _ else _) _ = _ => replace c with false in H
  end.
  2:{ destruct (GetNextTag _) as [|c r]; [reflexivity|]. rewrite Hpos. reflexivity. }
  bind_inv H. apply parse_child_non_null in E1.
  bind_inv H. apply parse_child_non_null in E2.
  bind_inv H. apply ret_Ok in H. destruct H as [-> _].
  unfold liftA in E. simpl in E. inversion E; subst; clear E.
  destruct a0 as [|b0 br]; [congruence|].
  destruct a1 as [|i0 ir]; [congruence|].
  destruct a2 as [|e0 er]; [congruence|].
  match goal with
  | |- exists s, [ParseCommonAttrs1 _ (SubSupCell.upcast ?X)] = _ /\ _ =>
      exists (SubSupCell.with_base (common_attrs node) X)
  end.
  split; [reflexivity|]. cbn.
  split; [reflexivity|]. repeat (split; [discriminate|]).
  unfold SubSupCell.ToString, SubSupCell.ToMatlab.
  cbn [SubSupCell.with_base SubSupCell.SetExponent SubSupCell.SetIndex
       SubSupCell.SetBase is_null on_head SubSupCell.m_baseCell
       SubSupCell.m_scriptCells SubSupCell.m_postSubCell SubSupCell.m_postSupCell
       SubSupCell.arrow SubSupCell.RemoveCell filter].
  split.
  - destruct (negb _); eexists; reflexivity.
  - eexists; reflexivity.
Qed.
End SubSupParse.

Lemma ParseSubSupTag_legacy_witness :
  let doc := Element "ie" [] [r_ [v_x]; r_ [n_1]; r_ [n_1]] in
  exists p st',
    MathParser.ParseSubSupTag
      (MathParser.ParseTag (services := Plain.services) (Plain.env 0 None) 4) 4
      doc MathParser.initial_state = MathParser.Ok (p, st')
    /\ exists s : SubSupCell.t,
         p = [SubSupCell.upcast s]
         /\ SubSupCell.m_scriptCells s = []
         /\ SubSupCell.m_baseCell s <> []
         /\ SubSupCell.m_postSubCell s <> []
         /\ SubSupCell.m_postSupCell s <> []
         /\ (exists t, @SubSupCell.ToString Plain.services Plain.serializers s = Some t)
         /\ (exists t, @SubSupCell.ToMatlab Plain.services Plain.serializers s = Some t).
Proof.
  cbv zeta.
  destruct (MathParser.ParseSubSupTag _ 4 _ MathParser.initial_state)
    as [[p st']| |] eqn:E.
  - exists p, st'. split; [reflexivity|].
    refine (ParseSubSupTag_legacy (services := Plain.services)
              (serializers := Plain.serializers) _ _ _ _ _ _ _ E).
    reflexivity.
  - vm_compute in E. discriminate E.
  - vm_compute in E. discriminate E.
Defined.

(** ** ParseText *)

Section ParseTextLines.

(** A change of the last cell that a view [g] of text cells does not see. *)
Lemma on_last_map {B} (g : Cell -> B) (f : Cell -> Cell) (l : OwningCellPtr) :
  (forall c, is_text c = true -> g (f c) = g c) ->
  Forall (fun c => is_text c = true) l ->
  map g (on_last f l) = map g l.
Proof.
  intros Hg H. induction H as [|c l Hc Hl IH]; [reflexivity|].
  destruct l as [|d l].
  - simpl. rewrite Hg by exact Hc. reflexivity.
  - change (on_last f (c :: d :: l)) with (c :: on_last f (d :: l)).
    cbn [map]. rewrite IH. reflexivity.
Qed.

(** Two lists with the same views satisfy the same properties of views. *)
Lemma Forall_map_eq {A B} (g : A -> B) (P : B -> Prop) (l l' : list A) :
  map g l' = map g l -> Forall (fun c => P (g c)) l -> Forall (fun c => P (g c)) l'.
Proof.
  intros E H. rewrite <- Forall_map in *. rewrite E. exact H.
Qed.

Lemma tl_map {A B} (f : A -> B) (l : list A) : tl (map f l) = map f (tl l).
Proof. destruct l; reflexivity. Qed.

(** A draw link is no part of what is shown. *)
Lemma shown_SetNextToDraw x c : is_text c = true -> shown (SetNextToDraw x c) = shown c.
Proof. destruct c; try discriminate. intros _. destruct b; reflexivity. Qed.

(** Counting allocations. *)
Lemma allocated_0 st : allocated 0 st = st.
Proof. unfold allocated. destruct st; cbn. rewrite N.add_0_r. reflexivity. Qed.

Lemma allocated_S k st :
  allocated k (MathParser.set_next_addr (N.succ (MathParser.next_addr st)) st)
  = allocated (S k) st.
Proof.
  unfold allocated, MathParser.set_next_addr. destruct st; cbn. f_equal. lia.
Qed.


(** The body of the loop of [ParseText] over the lines. *)
Lemma ParseText_loop (style : TextStyle) (tokens : list wxString) :
  forall (retval : OwningCellPtr) (st : MathParser.State),
    Forall (fun c => is_text c = true) retval ->
    Forall (styled st style) retval ->
    Forall (fun c => m_forceBreakLine (base_of c) = true) (tl retval) ->
    exists retval',
      MathParser.for_each tokens
        (fun token (retval : OwningCellPtr) =>
           MathParser.bind (MathParser.liftA (TextCell_new nullptr wxEmptyString))
             (fun cell =>
           MathParser.bind (MathParser.gets MathParser.m_ParserStyle)
             (fun parserStyle =>
           let cell :=
             match style with
             | TS_ERROR => SetType MC_TYPE_ERROR cell
             | TS_WARNING => SetType MC_TYPE_WARNING cell
             | TS_LABEL => SetType MC_TYPE_LABEL cell
             | TS_USERLABEL => SetType MC_TYPE_LABEL cell
             | _ => SetType parserStyle cell
             end in
           let cell := SetStyle style cell in
           MathParser.bind (MathParser.gets MathParser.m_highlight)
             (fun highlight =>
           let cell := SetHighlight highlight cell in
           let cell := MathParser.SetValue token cell in
           if is_null retval then MathParser.ret [cell]
           else
             let cell := ForceBreakLine true cell in
             MathParser.ret (AppendCell [cell] retval)))))
        retval st
      = MathParser.Ok (retval', allocated (List.length tokens) st)
      /\ map GetValue retval' = map GetValue retval ++ tokens
      /\ Forall (fun c => is_text c = true) retval'
      /\ Forall (styled st style) retval'
      /\ Forall (fun c => m_forceBreakLine (base_of c) = true) (tl retval').
Proof.
  induction tokens as [|token tokens IH]; intros retval st HT HS HB.
  - exists retval. cbn [MathParser.for_each List.length]. rewrite allocated_0.
    rewrite app_nil_r. repeat split; assumption.
  - match goal with
    | |- context [MathParser.for_each _ ?b _ _] => set (body := b) in *
    end.
    cbn [MathParser.for_each].
    set (st1 := MathParser.set_next_addr (N.succ (MathParser.next_addr st)) st).
    set (cell := MathParser.SetValue token
                   (SetHighlight (MathParser.m_highlight st)
                      (SetStyle style
                         (SetType (type_of_style style (MathParser.m_ParserStyle st))
                            (CText (Cell_new (MathParser.next_addr st) nullptr)
                                   wxEmptyString wxEmptyString))))).
    assert (Hc : is_text cell = true) by reflexivity.
    assert (Hs : styled st style cell) by (repeat split).
    assert (Hst : forall c, styled st style c -> styled st1 style c).
    { intros c H. exact H. }
    destruct retval as [|r0 rr].
    + destruct (IH [cell] st1) as (retval' & E & V & T & S & B).
      * repeat constructor.
      * constructor; [apply Hst; exact Hs | constructor].
      * constructor.
      * exists retval'. split; [|split; [|split; [|split]]]; try assumption.
        -- assert (Eb : body token [] st = MathParser.Ok ([cell], st1))
             by (unfold body; destruct style; reflexivity).
           unfold MathParser.bind at 1. rewrite Eb.
           rewrite E. unfold st1. rewrite allocated_S. reflexivity.
    + set (next := on_last (SetNextToDraw (Some (MathParser.next_addr st))) (r0 :: rr)
                   ++ [ForceBreakLine true cell]).
      assert (M : map shown (on_last (SetNextToDraw (Some (MathParser.next_addr st)))
                               (r0 :: rr))
                  = map shown (r0 :: rr)).
      { apply on_last_map; [|exact HT]. intros c. apply shown_SetNextToDraw. }
      destruct (IH next st1) as (retval' & E & V & T & S & B).
      * unfold next. apply Forall_app. split; [|repeat constructor].
        apply (Forall_map_eq shown (fun v => fst (fst (fst (fst (fst v)))) = true) _ _ M HT).
      * unfold next. apply Forall_app. split; [|repeat constructor].
        apply (Forall_map_eq shown
                 (fun v => snd (fst (fst (fst v))) = style
                           /\ snd (fst (fst v))
                              = type_of_style style (MathParser.m_ParserStyle st)
                           /\ snd (fst v) = MathParser.m_highlight st) _ _ M HS).
      * unfold next.
        assert (F : Forall (fun c => m_forceBreakLine (base_of c) = true)
                      (tl (on_last (SetNextToDraw (Some (MathParser.next_addr st)))
                             (r0 :: rr)))).
        { apply (f_equal (@tl _)) in M. rewrite !tl_map in M.
          apply (Forall_map_eq shown (fun v => snd v = true) _ _ M HB). }
        destruct (on_last _ (r0 :: rr)) as [|x xs] eqn:Eo.
        { apply (f_equal (@List.length _)) in M. discriminate M. }
        cbn [app tl] in *. apply Forall_app. split; [exact F|].
        repeat constructor.
      * exists retval'. split; [|split; [|split; [|split]]]; try assumption.
        -- assert (Eb : body token (r0 :: rr) st = MathParser.Ok (next, st1))
             by (unfold body; destruct style; reflexivity).
           unfold MathParser.bind at 1. rewrite Eb.
           rewrite E. unfold st1. rewrite allocated_S. reflexivity.
        -- rewrite V. unfold next. rewrite map_app.
           apply (f_equal (map (fun v => snd (fst (fst (fst (fst v))))))) in M.
           rewrite !map_map in M. cbn [shown fst snd] in M.
           change (map (fun x => GetValue x) ?l) with (map GetValue l) in M.
           rewrite M. rewrite <- app_assoc. reflexivity.
Qed.


Lemma allocated_1 st :
  allocated 1 st = MathParser.set_next_addr (N.succ (MathParser.next_addr st)) st.
Proof. rewrite <- (allocated_S 0), allocated_0. reflexivity. Qed.

(** The common attributes change neither text, style, type nor
    highlight. *)
Lemma common_attrs_shown (n : wxXmlNode) (c : Cell) :
  is_text (map_base (MathParser.common_attrs n) c) = is_text c
  /\ GetValue (map_base (MathParser.common_attrs n) c) = GetValue c
  /\ (forall st style, styled st style c ->
                       styled st style (map_base (MathParser.common_attrs n) c)).
Proof.
  assert (K : forall b,
             m_textStyle (MathParser.common_attrs n b) = m_textStyle b
             /\ m_type (MathParser.common_attrs n b) = m_type b
             /\ m_highlight (MathParser.common_attrs n b) = m_highlight b).
  { intros b. unfold MathParser.common_attrs.
    destruct (wx.eqb _ _), (HasAttribute n (wxT "tooltip")),
      (HasAttribute n (wxT "altCopy")); destruct b; repeat split. }
  split; [|split].
  - destruct c; reflexivity.
  - destruct c; reflexivity.
  - intros st style (H1 & H2 & H3).
    assert (B : base_of (map_base (MathParser.common_attrs n) c)
                = MathParser.common_attrs n (base_of c)) by (destruct c; reflexivity).
    unfold styled. rewrite B. destruct (K (base_of c)) as (K1 & K2 & K3).
    rewrite K1, K2, K3. repeat split; assumption.
Qed.

(** What [ParseText] returns, and the state it leaves. *)
Lemma ParseText_spec (node : wxXmlNodePtr) (style : TextStyle)
  (st : MathParser.State) :
  exists p,
    MathParser.ParseText node style st
    = MathParser.Ok (p, allocated (List.length p) st)
    /\ map GetValue p = match text_lines node with
                        | [] => [wxEmptyString]
                        | ls => ls
                        end
    /\ Forall (fun c => is_text c = true) p
    /\ (text_lines node <> [] -> Forall (styled st style) p)
    /\ Forall (fun c => m_forceBreakLine (base_of c) = true) (tl p).
Proof.
  unfold MathParser.ParseText.
  set (fresh_cell := CText (Cell_new (MathParser.next_addr st) nullptr)
                           wxEmptyString wxEmptyString).
  destruct node as [|n rest].
  - exists [fresh_cell].
    split; [cbn [List.length]; rewrite allocated_1; reflexivity|].
    split; [reflexivity|].
    split; [repeat constructor|]. split; [intros H; exfalso; apply H; reflexivity|].
    constructor.
  - cbn [MathParser.non_null is_null negb andb].
    destruct (wx.eqb (GetContent n) wxEmptyString) eqn:Ee.
    + apply wx_eqb_eq in Ee.
      assert (L : text_lines (n :: rest) = []).
      { unfold text_lines. rewrite Ee. reflexivity. }
      rewrite L. cbn [negb].
      exists [map_base (MathParser.common_attrs n) fresh_cell].
      split; [cbn [List.length]; rewrite allocated_1; reflexivity|].
      split; [reflexivity|].
      split; [repeat constructor|]. split; [congruence | constructor].
    + cbn [negb]. cbv zeta.
      destruct (ParseText_loop style (text_lines (n :: rest)) [] st)
        as (retval & E & V & T & S & B); try constructor.
      unfold MathParser.bind at 1.
      match goal with
      | |- context [MathParser.for_each ?t ?b [] st] =>
          replace (MathParser.for_each t b [] st)
            with (MathParser.Ok (retval,
                                 allocated (List.length (text_lines (n :: rest))) st))
            by (symmetry; exact E)
      end.
      assert (Len : List.length retval = List.length (text_lines (n :: rest))).
      { apply (f_equal (@List.length _)) in V. rewrite !length_map in V. exact V. }
      destruct retval as [|r0 rr].
      * destruct (text_lines (n :: rest)) as [|l ls] eqn:L; [|discriminate Len].
        cbn [is_null List.length]. rewrite allocated_0.
        exists [map_base (MathParser.common_attrs n) fresh_cell].
        split; [cbn [List.length]; rewrite allocated_1; reflexivity|].
        split; [reflexivity|].
        split; [repeat constructor|]. split; [congruence | constructor].
      * cbn [is_null]. unfold MathParser.bind, MathParser.ret.
        cbn [MathParser.ParseCommonAttrs on_head].
        exists (map_base (MathParser.common_attrs n) r0 :: rr).
        destruct (common_attrs_shown n r0) as (C1 & C2 & C3).
        split; [|split; [|split; [|split]]].
        -- cbn [List.length] in *. rewrite Len. reflexivity.
        -- cbn [map app] in *. rewrite C2.
           destruct (text_lines (n :: rest)); [discriminate Len | exact V].
        -- inversion T; subst. constructor; [rewrite C1; assumption | assumption].
        -- intros _. inversion S; subst. constructor; [apply C3; assumption | assumption].
        -- exact B.
Qed.


(** [Replace] of the hyphen is a substitution, unit by unit. *)
Lemma replace_fuel_minus (s : wxString) (n : nat) :
  (List.length s <= n)%nat ->
  replace_fuel n (wxT "-") [8722%N] s
  = map (fun c => if N.eqb 45 c then 8722%N else c) s.
Proof.
  change (wxT "-") with [45%N].
  revert s. induction n as [|n IH]; intros s H.
  - destruct s; [reflexivity | simpl in H; lia].
  - destruct s as [|c s]; [reflexivity|].
    simpl in H.
    assert (E : StartsWith (c :: s) [45%N] && negb (IsEmpty [45%N]) = N.eqb 45 c).
    { destruct s; cbn [StartsWith IsEmpty negb]; rewrite !andb_true_r; reflexivity. }
    cbn [replace_fuel map]. rewrite E.
    destruct (N.eqb 45 c).
    + cbn [skipn List.length app]. rewrite IH by lia. reflexivity.
    + rewrite IH by lia. reflexivity.
Qed.

Lemma Replace_minus_no_hyphen (s : wxString) :
  ~ In 45%N (Replace s (wxT "-") [8722%N]).
Proof.
  unfold Replace. rewrite replace_fuel_minus by lia.
  intros H. apply in_map_iff in H. destruct H as (c & E & _).
  destruct (N.eqb 45 c) eqn:Ec; [discriminate E|].
  subst c. discriminate Ec.
Qed.

(** The units of a token are units of the text. *)
Lemma split_acc_units (d : wxUniChar) (s acc : wxString) :
  Forall (fun t => forall x, In x t -> In x s \/ In x acc) (split_acc d s acc).
Proof.
  revert acc. induction s as [|c s IH]; intros acc; cbn [split_acc].
  - constructor; [|constructor]. intros x Hx. right. apply in_rev. exact Hx.
  - destruct (N.eqb c d).
    + constructor.
      * intros x Hx. right. apply in_rev. exact Hx.
      * eapply Forall_impl; [|apply IH]. cbv beta.
        intros t Ht x Hx. destruct (Ht x Hx) as [H|[]]. left. right. exact H.
    + eapply Forall_impl; [|apply IH]. cbv beta.
      intros t Ht x Hx. destruct (Ht x Hx) as [H|[H|H]].
      * left. right. exact H.
      * left. left. exact H.
      * right. exact H.
Qed.

Lemma tokens_strtok_units (d : wxUniChar) (s : wxString) :
  Forall (fun t => forall x, In x t -> In x s) (tokens_strtok d s).
Proof.
  unfold tokens_strtok, split. apply Forall_forall. intros t Ht.
  apply filter_In in Ht. destruct Ht as [Ht _].
  pose proof (split_acc_units d s []) as H. rewrite Forall_forall in H.
  intros x Hx. destruct (H t Ht x Hx) as [K|[]]. exact K.
Qed.

Lemma text_lines_no_hyphen (node : wxXmlNodePtr) :
  Forall (fun t => ~ In 45%N t) (text_lines node).
Proof.
  destruct node as [|n rest]; [constructor|].
  unfold text_lines.
  eapply Forall_impl; [|apply tokens_strtok_units]. cbv beta.
  intros t H K. exact (Replace_minus_no_hyphen _ (H _ K)).
Qed.

(** [ParseText] always returns, and never the null pointer: it returns
    one text cell per non-empty line of the content of the node, in
    order, with the hyphens of the content turned into minus signs, or a
    single empty text cell when there is no such line (null node, empty
    content, line ends only).  The cells of lines carry the requested
    style, the cell type that goes with it and the highlight flag of the
    parser; every cell after the first forces a line break; one address
    is allocated per cell and nothing else of the state changes. *)
Theorem ParseText_lines (node : wxXmlNodePtr) (style : TextStyle)
  (st : MathParser.State) :
  exists p,
    MathParser.ParseText node style st
    = MathParser.Ok (p, allocated (List.length p) st)
    /\ p <> []
    /\ map GetValue p = match text_lines node with
                        | [] => [wxEmptyString]
                        | ls => ls
                        end
    /\ Forall (fun c => is_text c = true) p
    /\ (text_lines node <> [] -> Forall (styled st style) p)
    /\ Forall (fun c => m_forceBreakLine (base_of c) = true) (tl p).
Proof.
  destruct (ParseText_spec node style st) as (p & E & V & T & S & B).
  exists p. split; [exact E|]. split; [|tauto].
  intros ->. destruct (text_lines node); discriminate V.
Qed.

(** No text cell [ParseText] builds holds a hyphen (U+002D): every one of
    the content has been replaced by the minus sign U+2212. *)
Theorem ParseText_no_hyphen (node : wxXmlNodePtr) (style : TextStyle)
  (st : MathParser.State) :
  exists p st',
    MathParser.ParseText node style st = MathParser.Ok (p, st')
    /\ Forall (fun c => Forall (fun u => u <> 45%N) (GetValue c)) p.
Proof.
  destruct (ParseText_spec node style st) as (p & E & V & _).
  exists p, (allocated (List.length p) st). split; [exact E|].
  rewrite <- Forall_map with (f := GetValue) (P := fun t => Forall (fun u => u <> 45%N) t).
  rewrite V.
  assert (H : Forall (fun t => Forall (fun u => u <> 45%N) t) (text_lines node)).
  { eapply Forall_impl; [|apply text_lines_no_hyphen]. cbv beta.
    intros t Ht. apply Forall_forall. intros u Hu ->. exact (Ht Hu). }
  destruct (text_lines node); [repeat constructor | exact H].
Qed.

End ParseTextLines.

(** ** ParseTag on a text node *)

Section TextNodes.
Context {services : CellServices}.
Variable env : MathParser.Environment.

(** A text node with more than one unit left by the trim is not
    skipped. *)
Lemma SkipWhitespaceNode_text (n : wxXmlNode) (rest : wxXmlNodePtr) :
  GetType n = wxXML_TEXT_NODE ->
  MathParser.SkipWhitespaceNode (n :: rest)
  = if Length (Trim true (GetContent n)) <=? 1 then rest else n :: rest.
Proof. intros H. unfold MathParser.SkipWhitespaceNode. rewrite H. reflexivity. Qed.

(** [ParseTag] on a text node.  A node whose content, trimmed on the
    right, has at most one unit is taken for white space and skipped,
    a one-letter text included: alone, it parses to the null fragment and
    nothing is allocated.  A node with a longer content is parsed by
    [ParseText] with the default style, and its cells are what [ParseTag]
    returns when it is asked for one node or when no node is left after
    it. *)
Theorem ParseTag_text_node (fuel : nat) (n : wxXmlNode) (rest : wxXmlNodePtr)
  (all : bool) (st : MathParser.State) :
  GetType n = wxXML_TEXT_NODE ->
  (Length (Trim true (GetContent n)) <= 1 ->
   MathParser.ParseTag env (S fuel) [n] all st = MathParser.Ok ([], st))
  /\ (1 < Length (Trim true (GetContent n)) ->
      all = false \/ MathParser.GetNextTag (n :: rest) = [] ->
      MathParser.ParseTag env (S fuel) (n :: rest) all st
      = MathParser.ParseText (n :: rest) TS_DEFAULT st).
Proof.
  intros Ht. cbn [MathParser.ParseTag]. unfold MathParser.ParseTag_step.
  rewrite !SkipWhitespaceNode_text by exact Ht. split.
  - intros H. replace (_ <=? 1) with true by (symmetry; apply Z.leb_le; exact H).
    destruct fuel; reflexivity.
  - intros H Hall. replace (_ <=? 1) with false by (symmetry; apply Z.leb_gt; exact H).
    destruct (ParseText_spec (n :: rest) TS_DEFAULT st) as (p & E & V & _).
    assert (Hp : p <> []).
    { intros ->. destruct (text_lines (n :: rest)); discriminate V. }
    destruct p as [|c p]; [congruence|].
    rewrite E.
    cbn [MathParser.while_ MathParser.non_null is_null negb MathParser.node].
    unfold MathParser.bind at 1.
    assert (B : MathParser.ParseTag_body env (MathParser.ParseTag env fuel) (S fuel) all
                  (MathParser.mkLocals [] [] MathParser.AtNull all (n :: rest)) st
                = MathParser.Ok
                    ((if negb all then @MathParser.Break _ else @MathParser.Continue _)
                       (MathParser.mkLocals (c :: p) [] (MathParser.InRetval 0) all
                          (MathParser.GetNextTag (n :: rest))),
                     allocated (List.length (c :: p)) st)).
    { unfold MathParser.ParseTag_body.
      cbn [MathParser.node]. rewrite Ht.
      cbn [wxXmlNodeType_eqb MathParser.cell MathParser.cursor_is_null].
      unfold MathParser.bind at 1. unfold MathParser.bind at 1. rewrite E.
      destruct all; reflexivity. }
    unfold MathParser.bind at 1. rewrite B.
    destruct Hall as [->|G].
    + reflexivity.
    + rewrite G. destruct all; cbn [negb]; [|reflexivity].
      destruct fuel; reflexivity.
Qed.

End TextNodes.


Lemma ParseText_lines_witness :
  exists p,
    MathParser.ParseText [Text "a-b"] TS_ERROR MathParser.initial_state
    = MathParser.Ok (p, allocated (List.length p) MathParser.initial_state)
    /\ map GetValue p = [[97; 8722; 98]%N]
    /\ Forall (styled MathParser.initial_state TS_ERROR) p.
Proof.
  destruct (ParseText_lines [Text "a-b"] TS_ERROR MathParser.initial_state)
    as (p & E & N & V & T & S & B).
  exists p. split; [exact E|]. split; [exact V|].
  apply S. vm_compute. discriminate.
Defined.

Lemma ParseTag_text_node_witness :
  MathParser.ParseTag (services := Plain.services) (Plain.env 0 None) 1
    [Text "x"] true MathParser.initial_state
  = MathParser.Ok ([], MathParser.initial_state)
  /\ MathParser.ParseTag (services := Plain.services) (Plain.env 0 None) 1
       [Text "xy"; v_x] false MathParser.initial_state
     = MathParser.ParseText [Text "xy"; v_x] TS_DEFAULT MathParser.initial_state.
Proof.
  split.
  - refine (proj1 (ParseTag_text_node (services := Plain.services) (Plain.env 0 None)
                     0 (Text "x") [] true MathParser.initial_state eq_refl) _).
    vm_compute. discriminate.
  - refine (proj2 (ParseTag_text_node (services := Plain.services) (Plain.env 0 None)
                     0 (Text "xy") [v_x] false MathParser.initial_state eq_refl) _ _).
    + vm_compute. reflexivity.
    + left. reflexivity.
Defined.

(** ** What a parse leaves of the parser *)

Create HintDb frame.

Section Frame.
Context {services : CellServices}.
Variable env : MathParser.Environment.
Import MathParser.

Lemma frame_ret {A} (a : A) : allocates_only (ret a).
Proof. intros st b st' H; inversion H; subst. destruct st'; reflexivity. Qed.

Lemma frame_crash {A} : allocates_only (@crash A).
Proof. intros st b st' H; discriminate. Qed.

Lemma frame_out_of_fuel {A} : allocates_only (@out_of_fuel A).
Proof. intros st b st' H; discriminate. Qed.

Lemma frame_gets {A} (f : State -> A) : allocates_only (gets f).
Proof. intros st b st' H; inversion H; subst. destruct st'; reflexivity. Qed.

Lemma frame_liftA {A} (m : Alloc A) : allocates_only (liftA m).
Proof.
  intros st b st' H. unfold liftA in H.
  destruct (m (next_addr st)) as [a n]. inversion H; subst.
  destruct st; reflexivity.
Qed.

Lemma frame_bind {A B} (m : M A) (k : A -> M B) :
  allocates_only m -> (forall a, allocates_only (k a)) -> allocates_only (bind m k).
Proof.
  intros Hm Hk st b st' H. unfold bind in H.
  destruct (m st) as [[a st1]| |] eqn:E; try discriminate.
  rewrite (Hk a st1 b st' H). rewrite (Hm st a st1 E).
  destruct st; reflexivity.
Qed.

Lemma frame_while {S} (fuel : nat) (cond : S -> bool) (body : S -> M (step S)) :
  (forall s, allocates_only (body s)) ->
  forall s, allocates_only (while_ fuel cond body s).
Proof.
  intros Hb. induction fuel as [|fuel IH]; intros s; simpl;
    destruct (cond s); try apply frame_ret; try apply frame_out_of_fuel.
  apply frame_bind; [apply Hb|].
  intros [s'|s']; [apply IH | apply frame_ret].
Qed.

Lemma frame_for_each {A S} (l : list A) (body : A -> S -> M S) :
  (forall a s, allocates_only (body a s)) ->
  forall s, allocates_only (for_each l body s).
Proof.
  intros Hb. induction l as [|a l IH]; intros s; simpl; [apply frame_ret|].
  apply frame_bind; [apply Hb | apply IH].
Qed.

Lemma frame_lookup {R} (T : list (wxString * (wxXmlNode -> M R)))
  (k : wxString) (f : wxXmlNode -> M R) :
  Forall (fun e => forall n, allocates_only (snd e n)) T ->
  lookup T k = Some f -> forall n, allocates_only (f n).
Proof.
  intros HT. induction HT as [|[k' f'] T H _ IH]; simpl; [discriminate|].
  destruct (wx.eqb k' k); [intros E; inversion E; subst; exact H | exact IH].
Qed.

(** The proof follows the structure of the routine. *)
Ltac frame_step :=
  cbv beta zeta;
  lazymatch goal with
  | |- allocates_only (ret _) => apply frame_ret
  | |- allocates_only crash => apply frame_crash
  | |- allocates_only out_of_fuel => apply frame_out_of_fuel
  | |- allocates_only (gets _) => apply frame_gets
  | |- allocates_only (liftA _) => apply frame_liftA
  | |- allocates_only (bind _ _) => apply frame_bind; [|intros ?]
  | |- allocates_only (while_ _ _ _ _) => apply frame_while; intros ?
  | |- allocates_only (for_each _ _ _) => apply frame_for_each; intros ? ?
  | |- allocates_only (if ?c then _ else _) => destruct c
  | |- allocates_only (match ?x with _ => _ end) => destruct x
  | |- _ => solve [auto with frame]
  end.

Ltac frame_auto := repeat frame_step.

Lemma frame_MakeOwned cls parent : allocates_only (MakeOwned cls parent).
Proof. unfold MakeOwned. frame_auto. Qed.

Lemma frame_HandleNullPointer p : allocates_only (HandleNullPointer p).
Proof. unfold HandleNullPointer. frame_auto. Qed.

#[local] Hint Resolve frame_MakeOwned frame_HandleNullPointer : frame.

Lemma frame_GroupCell_new g : allocates_only (GroupCell_new g).
Proof. unfold GroupCell_new. frame_auto. Qed.

#[local] Hint Resolve frame_GroupCell_new : frame.

Lemma frame_ParseText n s : allocates_only (ParseText n s).
Proof. unfold ParseText. frame_auto. Qed.

Lemma frame_typed_variable c : allocates_only (typed_variable c).
Proof. unfold typed_variable. frame_auto. Qed.

Lemma frame_ParseEditorTag n : allocates_only (ParseEditorTag n).
Proof. unfold ParseEditorTag. frame_auto. Qed.

#[local] Hint Resolve frame_ParseText frame_typed_variable frame_ParseEditorTag : frame.

Variable rec : wxXmlNodePtr -> bool -> M OwningCellPtr.
Hypothesis Hrec : forall n a, allocates_only (rec n a).
Variable fuel : nat.

Lemma frame_parse_child n a : allocates_only (parse_child rec n a).
Proof. unfold parse_child. frame_auto. Qed.

#[local] Hint Resolve Hrec frame_parse_child : frame.

(** [ParseHighlightTag] sets the highlight flag for the time of the
    recursive call and sets it back. *)
Lemma frame_ParseHighlightTag n : allocates_only (ParseHighlightTag rec n).
Proof.
  intros st a st' H. unfold ParseHighlightTag in H.
  cbv [bind gets modify ret] in H.
  destruct (rec (GetChildren n) true (set_m_highlight true st)) as [[c st1]| |] eqn:E;
    try discriminate.
  inversion H; subst. rewrite (Hrec _ _ _ _ _ E).
  destruct st; reflexivity.
Qed.

(** [ParseDiffTag] does the same with the fraction style. *)
Lemma frame_ParseDiffTag n : allocates_only (ParseDiffTag rec n).
Proof.
  unfold ParseDiffTag. apply frame_bind; [apply frame_MakeOwned|]. intros diff.
  cbv zeta. apply frame_bind; [|intros d; apply frame_ret].
  destruct (non_null _); [|apply frame_ret].
  intros st a st' H. cbv [bind gets modify] in H.
  destruct (parse_child rec _ false (set_FracStyle FC_DIFF st)) as [[d st1]| |] eqn:E1;
    try discriminate.
  destruct (parse_child rec _ true (set_FracStyle (m_FracStyle st) st1))
    as [[b st2]| |] eqn:E2; try discriminate.
  apply frame_typed_variable in H.
  apply frame_parse_child in E1. apply frame_parse_child in E2.
  rewrite H, E2. cbn. rewrite E1. destruct st; reflexivity.
Qed.

Lemma frame_m_groupTags :
  Forall (fun e => forall n, allocates_only (snd e n)) (m_groupTags fuel).
Proof.
  unfold m_groupTags.
  repeat (apply Forall_cons; [intros n; cbn [snd]|]); try apply Forall_nil.
  all: unfold GroupCellFromCodeTag, GroupCellFromImageTag, GroupCellFromKind,
         GroupCellFromSubsectionTag; frame_auto.
Qed.

Lemma frame_fold_loop n : allocates_only (fold_loop rec fuel n).
Proof. unfold fold_loop. apply frame_while. intros s. unfold fold_body. frame_auto. Qed.

#[local] Hint Resolve frame_fold_loop : frame.

Lemma frame_ParseCellTag n : allocates_only (ParseCellTag rec fuel n).
Proof.
  unfold ParseCellTag. cbv zeta.
  destruct (lookup (m_groupTags fuel) _) as [f|] eqn:E; [|apply frame_ret].
  apply frame_bind; [exact (frame_lookup _ _ _ frame_m_groupTags E n)|].
  intros g. frame_auto.
Qed.

Lemma frame_m_innerTags :
  Forall (fun e => forall n, allocates_only (snd e n)) (m_innerTags env rec fuel).
Proof.
  unfold m_innerTags.
  repeat (apply Forall_cons; [intros n; cbn [snd]|]); try apply Forall_nil.
  all: try apply frame_ParseCellTag; try apply frame_ParseEditorTag;
       try apply frame_ParseHighlightTag; try apply frame_ParseDiffTag.
  all: unfold ParseVariableNameTag, ParseOperatorNameTag, ParseMiscTextTag,
         ParseNumberTag, ParseParenTag, ParseFracTag, ParseSupTag, ParseSubTag,
         ParseFunTag, ParseGreekTag, ParseSpecialConstantTag,
         ParseFunctionNameTag, ParseSqrtTag, ParseAbsTag, ParseConjugateTag,
         parse_inner, ParseSumTag, ParseIntTag, ParseSpaceTag,
         ParseAtTag, ParseSubSupTag, ParseMmultiscriptsTag, ParseLimitTag,
         ParseTagContents, ParseTableTag, ParseMthTag, ParseOutputLabelTag,
         ParseStringTag, ParseHiddenOperatorTag,
         ParseImageTag, ParseSlideshowTag, ParseCharCode;
       frame_auto.
Qed.

Lemma frame_append_at_cursor p l : allocates_only (append_at_cursor p l).
Proof. unfold append_at_cursor. frame_auto. Qed.

#[local] Hint Resolve frame_append_at_cursor : frame.

Lemma frame_ParseTag_body all l : allocates_only (ParseTag_body env rec fuel all l).
Proof.
  unfold ParseTag_body.
  destruct (node l) as [|n rest]; [apply frame_ret|].
  apply frame_bind.
  - destruct (wxXmlNodeType_eqb (GetType n) wxXML_ELEMENT_NODE).
    + cbv zeta.
      apply frame_bind.
      * destruct (lookup _ _) as [f|] eqn:E; [|apply frame_ret].
        exact (frame_lookup _ _ _ frame_m_innerTags E n).
      * intros tmp. frame_auto.
    + frame_auto.
  - intros l1. apply frame_bind; [|intros l2; frame_auto].
    destruct (cursor_is_null (cell l1)) eqn:E; cbn [negb].
    + destruct (warning l1 && negb all); [|apply frame_ret].
      cbn. apply frame_ret.
    + frame_auto.
Qed.

Lemma frame_ParseTag_step n all : allocates_only (ParseTag_step env rec fuel n all).
Proof.
  unfold ParseTag_step. cbv zeta.
  apply frame_bind; [|intros l; apply frame_ret].
  apply frame_while. intros l. apply frame_ParseTag_body.
Qed.

End Frame.

(** Whatever the document, a call to [ParseTag] that returns leaves the
    parser as it found it, the allocator apart: the parser style, the
    fraction style and the highlight flag, which [ParseHighlightTag] and
    [ParseDiffTag] change for the time of a recursive call, are set back,
    no warning has been counted and no document loaded. *)
Theorem ParseTag_allocates_only {services : CellServices}
  (env : MathParser.Environment) (fuel : nat) (n : wxXmlNodePtr) (all : bool) :
  allocates_only (MathParser.ParseTag env fuel n all).
Proof.
  revert n all. induction fuel as [|fuel IH]; intros n all.
  - apply frame_out_of_fuel.
  - cbn [MathParser.ParseTag]. apply frame_ParseTag_step. exact IH.
Qed.

Lemma ParseTag_allocates_only_witness :
  exists p st',
    MathParser.ParseTag (services := Plain.services) (Plain.env 0 None) 6
      [highlighted_diff] true MathParser.initial_state = MathParser.Ok (p, st')
    /\ MathParser.m_highlight st' = false
    /\ MathParser.m_FracStyle st' = FC_NORMAL
    /\ MathParser.warnings st' = O.
Proof.
  destruct (MathParser.ParseTag (services := Plain.services) (Plain.env 0 None) 6
              [highlighted_diff] true MathParser.initial_state)
    as [[p st']| |] eqn:E.
  - exists p, st'. split; [reflexivity|].
    rewrite (ParseTag_allocates_only (services := Plain.services) _ _ _ _ _ _ _ E).
    repeat split.
  - vm_compute in E. discriminate E.
  - vm_compute in E. discriminate E.
Defined.

(** ** What the routines of the table return *)

Section RoutineResults.
Context {services : CellServices}.
Variable env : MathParser.Environment.
Import MathParser.

Lemma post_ret {A} (P : A -> Prop) (a : A) : P a -> returns_with P (ret a).
Proof. intros H st b st' E. inversion E; subst. exact H. Qed.

Lemma post_crash {A} (P : A -> Prop) : returns_with P (@crash A).
Proof. intros st b st' E. discriminate. Qed.

Lemma post_bind {A B} (Q : A -> Prop) (P : B -> Prop) (m : M A) (k : A -> M B) :
  returns_with Q m -> (forall a, Q a -> returns_with P (k a)) ->
  returns_with P (bind m k).
Proof.
  intros Hm Hk st b st' E. apply bind_Ok in E. destruct E as (a & st1 & E1 & E2).
  exact (Hk a (Hm _ _ _ E1) _ _ _ E2).
Qed.

Lemma post_any {A B} (P : B -> Prop) (m : M A) (k : A -> M B) :
  (forall a, returns_with P (k a)) -> returns_with P (bind m k).
Proof.
  intros Hk. apply post_bind with (Q := fun _ => True); [|intros a _; apply Hk].
  intros st a st' _. exact I.
Qed.

(** [ParseText] never returns the null pointer. *)
Lemma post_ParseText (node : wxXmlNodePtr) (style : TextStyle) :
  returns_with (fun p : OwningCellPtr => p <> []) (ParseText node style).
Proof.
  intros st p st' E.
  destruct (ParseText_spec node style st) as (q & Eq & V & _).
  rewrite Eq in E. inversion E; subst.
  intros ->. destruct (text_lines node); discriminate V.
Qed.

Lemma on_head_non_null {A} (f : A -> A) (p : list A) : p <> [] -> on_head f p <> [].
Proof. destruct p; [congruence | discriminate]. Qed.

(** The proof follows the structure of the routine, down to the cell it
    returns. *)
Ltac nn_step :=
  cbv beta zeta;
  lazymatch goal with
  | |- returns_with _ (ret (_ :: _)) => apply post_ret; discriminate
  | |- returns_with _ crash => apply post_crash
  | |- returns_with _ (ParseText _ _) => apply post_ParseText
  | |- returns_with _ (bind _ _) => apply post_any; intros ?
  | |- returns_with _ (if ?c then _ else _) => destruct c
  | |- returns_with _ (match ?x with _ => _ end) => destruct x
  end.

Ltac nn_auto := repeat nn_step.

Variable rec : wxXmlNodePtr -> bool -> M OwningCellPtr.
Variable fuel : nat.

Lemma post_ParseHiddenOperatorTag n :
  returns_with (fun p : OwningCellPtr => p <> []) (ParseHiddenOperatorTag n).
Proof.
  unfold ParseHiddenOperatorTag.
  eapply post_bind; [apply post_ParseText|].
  intros p Hp. apply post_ret. apply on_head_non_null. exact Hp.
Qed.

Lemma post_ParseOutputLabelTag n :
  returns_with (fun p : OwningCellPtr => p <> []) (ParseOutputLabelTag env n).
Proof.
  unfold ParseOutputLabelTag. cbv zeta.
  apply post_bind with (Q := fun r : OwningCellPtr * wxString => fst r <> []).
  - destruct (negb _).
    + eapply post_bind; [apply post_ParseText|].
      intros p Hp. apply post_ret. exact Hp.
    + eapply post_bind; [apply post_ParseText|].
      intros p Hp. destruct (IsEmpty _); [|apply post_ret; exact Hp].
      destruct (substr _ _ _); [apply post_ret; exact Hp | apply post_crash].
  - intros [cell lbl] Hc. apply post_ret.
    apply on_head_non_null, on_head_non_null. exact Hc.
Qed.

Lemma post_ParseMthTag n :
  returns_with (fun p : OwningCellPtr => p <> []) (ParseMthTag rec n).
Proof.
  unfold ParseMthTag. apply post_any. intros [|c r]; cbn [non_null is_null negb].
  - nn_auto.
  - apply post_ret. discriminate.
Qed.

Lemma post_m_innerTags :
  Forall (fun e => In (fst e) pass_through
                   \/ forall n, returns_with (fun p : OwningCellPtr => p <> [])
                                  (snd e n))
         (m_innerTags env rec fuel).
Proof.
  unfold m_innerTags.
  repeat (apply Forall_cons; [cbn [fst snd]|]); try apply Forall_nil.
  all: try (left; cbn; tauto).
  all: right; intros n.
  all: try apply post_ParseHiddenOperatorTag; try apply post_ParseOutputLabelTag;
       try apply post_ParseMthTag.
  all: unfold ParseVariableNameTag, ParseOperatorNameTag, ParseMiscTextTag,
         ParseNumberTag, ParseParenTag, ParseFracTag, ParseSupTag, ParseSubTag,
         ParseFunTag, ParseGreekTag, ParseSpecialConstantTag,
         ParseFunctionNameTag, ParseSqrtTag, ParseAbsTag, ParseConjugateTag,
         parse_inner, ParseDiffTag, ParseSumTag, ParseIntTag, ParseSpaceTag,
         ParseAtTag, ParseSubSupTag, ParseMmultiscriptsTag, ParseLimitTag,
         ParseTableTag, ParseStringTag,
         ParseImageTag, ParseSlideshowTag, ParseCharCode, ParseEditorTag;
       nn_auto.
Qed.

(** What holds of every entry of a table holds of the entry found. *)
Lemma lookup_Forall {R} (P : wxString * R -> Prop) (T : list (wxString * R))
  (k : wxString) (f : R) :
  Forall P T -> lookup T k = Some f -> P (k, f).
Proof.
  intros HT. induction HT as [|[k' f'] T H _ IH]; simpl; [discriminate|].
  destruct (wx.eqb k' k) eqn:E; [|exact IH].
  apply wx_eqb_eq in E. subst k'. intros K; inversion K; subst. exact H.
Qed.

(** Every routine of the inline table builds a cell: whatever the element
    and whatever the recursive calls return, a routine that returns does
    not return the null pointer.  The routines bound to [r], [mrow], [hl]
    and [cell] are apart: they hand on what [ParseTag], or the group
    table, gives them. *)
Theorem routines_return_a_cell (tag : wxString)
  (f : wxXmlNode -> M OwningCellPtr) (n : wxXmlNode) (st st' : State)
  (p : OwningCellPtr) :
  lookup (m_innerTags env rec fuel) tag = Some f ->
  ~ In tag pass_through ->
  f n st = Ok (p, st') ->
  p <> [].
Proof.
  intros L Hn E.
  destruct (lookup_Forall _ _ _ _ post_m_innerTags L) as [H|H]; [contradiction|].
  exact (H n st p st' E).
Qed.

End RoutineResults.

Lemma routines_return_a_cell_witness :
  exists p st',
    MathParser.ParseFunTag (services := Plain.services)
      (MathParser.ParseTag (services := Plain.services) (Plain.env 0 None) 3)
      fn_minimal MathParser.initial_state = MathParser.Ok (p, st')
    /\ p <> [].
Proof.
  destruct (MathParser.ParseFunTag (services := Plain.services) _ fn_minimal
              MathParser.initial_state)
    as [[p st']| |] eqn:E.
  - exists p, st'. split; [reflexivity|].
    refine (routines_return_a_cell (services := Plain.services) (Plain.env 0 None)
              _ 3 (wxT "fn") _ fn_minimal _ _ _ _ _ E).
    + reflexivity.
    + intros H. repeat (destruct H as [H|H]; [discriminate H|]). exact H.
  - vm_compute in E. discriminate E.
  - vm_compute in E. discriminate E.
Defined.

(** ** ParseImageTag and ParseSlideshowTag *)

Section ImageRoutines.
Context {services : CellServices}.
Import MathParser.

(** A routine that crashes takes [ParseTag] with it. *)
Lemma ParseTag_step_routine_crashes (env : Environment)
  (rec : wxXmlNodePtr -> bool -> M OwningCellPtr) (fuel : nat)
  (n : wxXmlNode) (rest : wxXmlNodePtr) (all : bool) (st : State)
  (f : wxXmlNode -> M OwningCellPtr) :
  GetType n = wxXML_ELEMENT_NODE ->
  lookup (m_innerTags env rec (S fuel)) (GetName n) = Some f ->
  f n st = Crash ->
  ParseTag_step env rec (S fuel) (n :: rest) all st = Crash.
Proof.
  intros Ht Hl Hf.
  unfold ParseTag_step, ParseTag_body.
  set (T := m_innerTags env rec (S fuel)) in *.
  destruct n as [ty nm ct at_ ch]. simpl in Ht. subst ty.
  cbn [GetName] in Hl. cbn -[T]. rewrite Hl.
  unfold bind. rewrite Hf. reflexivity.
Qed.

(** [ParseImageTag] and [ParseSlideshowTag] read the content of the first
    child of the element without testing that there is one: on an element
    without children they dereference a null pointer, and take [ParseTag]
    with them when the element is an [img] or a [slide]; on an element
    with a child each returns exactly one cell. *)
Theorem image_routines_need_a_child (env : Environment) (node : wxXmlNode)
  (rest : wxXmlNodePtr) (fuel : nat) (all : bool) (st : State) :
  (GetChildren node = [] ->
   ParseImageTag env node st = Crash
   /\ ParseSlideshowTag node st = Crash
   /\ (GetType node = wxXML_ELEMENT_NODE ->
       GetName node = wxT "img" \/ GetName node = wxT "slide" ->
       ParseTag env (S fuel) (node :: rest) all st = Crash))
  /\ (GetChildren node <> [] ->
      (exists c st', ParseImageTag env node st = Ok ([c], st'))
      /\ (exists c st', ParseSlideshowTag node st = Ok ([c], st'))).
Proof.
  split.
  - intros E.
    assert (C1 : ParseImageTag env node st = Crash)
      by (unfold ParseImageTag; rewrite E; reflexivity).
    assert (C2 : ParseSlideshowTag node st = Crash)
      by (unfold ParseSlideshowTag; rewrite E; reflexivity).
    split; [exact C1|]. split; [exact C2|].
    intros Ht [Hn|Hn]; cbn [ParseTag].
    + apply ParseTag_step_routine_crashes with (f := ParseImageTag env);
        [exact Ht | rewrite Hn; reflexivity | exact C1].
    + apply ParseTag_step_routine_crashes with (f := ParseSlideshowTag);
        [exact Ht | rewrite Hn; reflexivity | exact C2].
  - unfold ParseImageTag, ParseSlideshowTag.
    intros H. destruct (GetChildren node) as [|first others]; [congruence|].
    split.
    + cbv zeta.
      destruct (m_fileSystem env); [eexists; eexists; reflexivity|].
      destruct (negb _).
      * destruct (_ <? 2); eexists; eexists; reflexivity.
      * destruct (_ <? 2); eexists; eexists; reflexivity.
    + eexists; eexists; reflexivity.
Qed.
End ImageRoutines.

Lemma image_routines_need_a_child_witness :
  MathParser.ParseTag (services := Plain.services) (Plain.env 0 None) 2
    [Element "img" [] []] true MathParser.initial_state = MathParser.Crash
  /\ exists c st',
       MathParser.ParseImageTag (Plain.env 0 None)
         (Element "img" [] [Text "a.png"]) MathParser.initial_state
       = MathParser.Ok ([c], st').
Proof.
  split.
  - refine (proj2 (proj2 (proj1 (image_routines_need_a_child
              (services := Plain.services) (Plain.env 0 None)
              (Element "img" [] []) [] 1 true MathParser.initial_state) eq_refl))
              eq_refl _).
    left. reflexivity.
  - refine (proj1 (proj2 (image_routines_need_a_child
              (services := Plain.services) (Plain.env 0 None)
              (Element "img" [] [Text "a.png"]) [] 1 true MathParser.initial_state) _)).
    discriminate.
Defined.

(** ** ParseCellTag and ParseEditorTag *)

Section CellTag.
Import MathParser.

(** A key that is not in the table has no routine. *)
Lemma lookup_None {V} (T : list (wxString * V)) (k : wxString) :
  ~ In k (map fst T) -> lookup T k = None.
Proof.
  induction T as [|[k' v] T IH]; [reflexivity|].
  cbn [map fst In lookup]. intros H.
  destruct (wx.eqb k' k) eqn:E.
  - apply wx_eqb_eq in E. tauto.
  - apply IH. tauto.
Qed.

(** A key of the table has one. *)
Lemma lookup_Some {V} (T : list (wxString * V)) (k : wxString) :
  In k (map fst T) -> exists v, lookup T k = Some v.
Proof.
  induction T as [|[k' v] T IH]; [intros []|].
  cbn [map fst In lookup]. intros H.
  destruct (wx.eqb k' k) eqn:E; [exists v; reflexivity|].
  apply IH. destruct H as [H|H]; [|exact H].
  subst k'. rewrite (proj2 (wx_eqb_eq k k) eq_refl) in E. discriminate.
Qed.

(** [ParseCellTag] looks the [type] attribute of the element, [text] when
    there is none, up in the group table.  For a type that is not one of
    the ten keys of the table it returns the null pointer at once:
    nothing is allocated, no child is looked at.  For a key of the table,
    what it returns, if it returns, is one cell. *)
Theorem ParseCellTag_group_type (rec : wxXmlNodePtr -> bool -> M OwningCellPtr)
  (fuel : nat) (node : wxXmlNode) (st : State) :
  let type := GetAttribute node (wxT "type") (wxT "text") in
  (~ In type group_types -> ParseCellTag rec fuel node st = Ok ([], st))
  /\ (In type group_types ->
      forall p st', ParseCellTag rec fuel node st = Ok (p, st') ->
                    exists group, p = [group]).
Proof.
  cbv zeta. unfold ParseCellTag. cbv zeta. split.
  - intros H. rewrite lookup_None; [reflexivity|]. exact H.
  - intros H p st' E.
    destruct (lookup_Some (m_groupTags fuel) _ H) as [f Ef].
    rewrite Ef in E.
    apply bind_Ok in E. destruct E as (g & st1 & _ & E).
    apply bind_Ok in E. destruct E as (r & st2 & _ & E).
    apply ret_Ok in E. destruct E as [-> _]. eexists. reflexivity.
Qed.

(** The loop of [ParseEditorTag] over the children, once the text is not
    empty: every line adds a line end and its content. *)
Lemma editor_fold_nonempty (children : list wxXmlNode) (text : wxString) :
  text <> [] ->
  fold_left
    (fun (text : wxString) line =>
       if wx.eqb (GetName line) (wxT "line") then
         let text := if negb (IsEmpty text) then text ++ [10%N] else text in
         text ++ GetNodeContent line
       else text)
    children text
  = text ++ List.concat
              (map (fun c => [10%N] ++ c)
                   (map GetNodeContent
                        (filter (fun c => wx.eqb (GetName c) (wxT "line")) children))).
Proof.
  revert text. induction children as [|c children IH]; intros text H.
  - simpl. rewrite app_nil_r. reflexivity.
  - cbn [fold_left filter].
    destruct (wx.eqb (GetName c) (wxT "line")).
    + cbv zeta. replace (IsEmpty text) with false
        by (destruct text; [exfalso; apply H; reflexivity | reflexivity]).
      cbn [negb]. rewrite IH.
      * cbn [map List.concat]. rewrite <- !app_assoc. reflexivity.
      * destruct text; [congruence | discriminate].
    + apply IH. exact H.
Qed.

(** Joining a line with the lines that follow. *)
Lemma join_lines_cons (a : wxString) (r : list wxString) :
  join_lines (a :: r) = a ++ List.concat (map (fun c => [10%N] ++ c) r).
Proof.
  revert a. induction r as [|b r IH]; intros a.
  - simpl. rewrite app_nil_r. reflexivity.
  - change (join_lines (a :: b :: r)) with (a ++ [10%N] ++ join_lines (b :: r)).
    rewrite IH. cbn [map List.concat]. rewrite <- !app_assoc. reflexivity.
Qed.

(** The loop of [ParseEditorTag], from the empty text. *)
Lemma editor_fold (children : list wxXmlNode) :
  fold_left
    (fun (text : wxString) line =>
       if wx.eqb (GetName line) (wxT "line") then
         let text := if negb (IsEmpty text) then text ++ [10%N] else text in
         text ++ GetNodeContent line
       else text)
    children wxEmptyString
  = join_lines
      (drop_empty
         (map GetNodeContent
              (filter (fun c => wx.eqb (GetName c) (wxT "line")) children))).
Proof.
  induction children as [|c children IH]; [reflexivity|].
  cbn [fold_left filter].
  destruct (wx.eqb (GetName c) (wxT "line")); [|exact IH].
  cbv zeta. cbn [IsEmpty wxEmptyString negb app map].
  destruct (GetNodeContent c) as [|u us] eqn:Ec.
  - cbn [drop_empty]. exact IH.
  - cbn [drop_empty]. rewrite editor_fold_nonempty by discriminate.
    rewrite join_lines_cons. reflexivity.
Qed.

(** [ParseEditorTag] always returns one editor cell.  Its text is made of
    the contents of the [line] children of the element, other children
    being ignored, joined by line ends; as a line end is written only
    before a line that follows a text that is not empty, the empty lines
    the element starts with are lost, the other empty lines are kept. *)
Theorem ParseEditorTag_text (node : wxXmlNode) (st : State) :
  exists editor,
    ParseEditorTag node st = Ok ([editor], allocated 1 st)
    /\ class_of editor = ClsEditorCell
    /\ GetValue editor = join_lines (drop_empty (editor_lines node)).
Proof.
  unfold ParseEditorTag. cbv zeta. rewrite editor_fold.
  fold (editor_lines node).
  unfold bind, MakeOwned, liftA, fresh, ret. cbn [fst snd].
  rewrite allocated_1.
  eexists. split; [reflexivity|].
  repeat match goal with
         | |- context [if ?c then _ else _] => destruct c
         end; split; reflexivity.
Qed.

End CellTag.

Lemma ParseCellTag_group_type_witness :
  MathParser.ParseCellTag
    (MathParser.ParseTag (services := Plain.services) (Plain.env 0 None) 2) 2
    bogus_cell MathParser.initial_state
  = MathParser.Ok ([], MathParser.initial_state).
Proof.
  refine (proj1 (ParseCellTag_group_type _ 2 bogus_cell MathParser.initial_state) _).
  intros H. repeat (destruct H as [H|H]; [discriminate H|]). exact H.
Defined.

(** ** GroupCellFromCodeTag *)

Section CodeAnswers.
Import MathParser.

(** Reading what has just been stored. *)
Lemma assoc_get_set_same {V} (k : string) (v : V) (l : list (string * V)) :
  assoc_get k (assoc_set k v l) = Some v.
Proof.
  induction l as [|[k' v'] l IH]; simpl.
  - rewrite String.eqb_refl. reflexivity.
  - destruct (String.eqb k k') eqn:E; simpl; rewrite ?E, ?String.eqb_refl; auto.
Qed.

(** Storing under a name leaves the other names. *)
Lemma assoc_get_set_other {V} (k k' : string) (v : V) (l : list (string * V)) :
  k <> k' -> assoc_get k (assoc_set k' v l) = assoc_get k l.
Proof.
  intros H. induction l as [|[k2 v2] l IH]; simpl.
  - replace (String.eqb k k') with false by (symmetry; apply String.eqb_neq; exact H).
    reflexivity.
  - destruct (String.eqb k' k2) eqn:E; simpl.
    + apply String.eqb_eq in E. subst k2.
      replace (String.eqb k k') with false by (symmetry; apply String.eqb_neq; exact H).
      reflexivity.
    + destruct (String.eqb k k2); [reflexivity | exact IH].
Qed.

(** One more call to [SetAnswer]. *)
Lemma push_pair_answer (kv : wxString * wxString) (g : Cell) :
  is_obj g = true ->
  is_obj (push_pair "Answer" kv g) = true
  /\ get_prop "Answer" (push_pair "Answer" kv g)
     = Some (PPairs (match get_prop "Answer" g with
                     | Some (PPairs l) => l ++ [kv]
                     | _ => [kv]
                     end)).
Proof.
  destruct g as [| | | |cls b ch pr]; try discriminate. intros _.
  unfold push_pair.
  destruct (get_prop "Answer" (CObj cls b ch pr)) as [[]|];
    (split; [reflexivity|]); cbn [set_prop get_prop]; apply assoc_get_set_same.
Qed.

(** The calls to [SetAnswer], in order. *)
Lemma fold_push_answer (l : list (wxString * wxString)) (g : Cell) :
  is_obj g = true ->
  get_prop "Answer" g = None ->
  get_prop "Answer" (fold_left (fun g kv => push_pair "Answer" kv g) l g)
  = match l with [] => None | _ => Some (PPairs l) end.
Proof.
  intros Ho Hn.
  assert (G : forall l acc g,
             is_obj g = true ->
             get_prop "Answer" g = Some (PPairs acc) ->
             get_prop "Answer" (fold_left (fun g kv => push_pair "Answer" kv g) l g)
             = Some (PPairs (acc ++ l))).
  { clear. induction l as [|kv l IH]; intros acc g Ho Hg.
    - simpl. rewrite app_nil_r. exact Hg.
    - cbn [fold_left]. destruct (push_pair_answer kv g Ho) as [Ho' Hg'].
      rewrite Hg in Hg'. rewrite (IH _ _ Ho' Hg'). rewrite <- app_assoc. reflexivity. }
  destruct l as [|kv l]; [exact Hn|].
  cbn [fold_left]. destruct (push_pair_answer kv g Ho) as [Ho' Hg'].
  rewrite Hn in Hg'. exact (G l [kv] _ Ho' Hg').
Qed.

(** The loop of [GroupCellFromCodeTag] over the numbered answers. *)
Lemma code_loop (node : wxXmlNode) (k : nat) :
  forall (i : Z) (g : Cell) (fuel : nat) (st : State),
    (k < fuel)%nat ->
    (forall j, (j < k)%nat -> has_answer node (i + Z.of_nat j) = true) ->
    has_answer node (i + Z.of_nat k) = false ->
    while_ fuel
      (fun '(i, _) => match HasAttribute node (wxT "answer" ++ Format_i i) with
                      | Some _ => true | None => false end)
      (fun '(i, group) =>
         let answer := GetAttribute node (wxT "answer" ++ Format_i i) wxEmptyString in
         let group :=
           match HasAttribute node (wxT "question" ++ Format_i i) with
           | Some question => push_pair "Answer" (question, answer) group
           | None => push_pair "Answer" (wxT "Question #" ++ Format_i i, answer) group
           end in
         ret (Continue (i + 1, group)))
      (i, g) st
    = Ok ((i + Z.of_nat k,
           fold_left (fun g kv => push_pair "Answer" kv g) (code_answers node i k) g),
          st).
Proof.
  induction k as [|k IH]; intros i g fuel st Hf Hall Hend.
  - rewrite Z.add_0_r in *. unfold has_answer in Hend.
    destruct fuel; cbn [while_]; destruct (HasAttribute node _); try discriminate;
      reflexivity.
  - destruct fuel as [|fuel]; [lia|].
    pose proof (Hall O ltac:(lia)) as H0. rewrite Z.add_0_r in H0.
    unfold has_answer in H0.
    cbn [while_].
    destruct (HasAttribute node (wxT "answer" ++ Format_i i)) eqn:Ea; [|discriminate].
    cbv zeta. unfold bind at 1, ret at 1.
    rewrite (IH (i + 1)).
    + replace (i + 1 + Z.of_nat k) with (i + Z.of_nat (S k)) by lia.
      cbn [code_answers fold_left].
      destruct (HasAttribute node (wxT "question" ++ Format_i i)); reflexivity.
    + lia.
    + intros j Hj. replace (i + 1 + Z.of_nat j) with (i + Z.of_nat (S j)) by lia.
      apply Hall. lia.
    + replace (i + 1 + Z.of_nat k) with (i + Z.of_nat (S k)) by lia. exact Hend.
Qed.

(** [GroupCellFromCodeTag] reads the attributes [answer1], [answer2], ...
    and stops at the first number that is missing: with [answer1] to
    [answer<k>] present and [answer<k+1>] absent, [SetAnswer] is called
    [k] times, in order, each time with the attribute [question<i>] or,
    when it is absent, with [Question #<i>]; an answer that comes after a
    gap in the numbers is not read. *)
Theorem GroupCellFromCodeTag_answers (node : wxXmlNode) (k fuel : nat) (st : State) :
  (k < fuel)%nat ->
  (forall j, (j < k)%nat -> has_answer node (1 + Z.of_nat j) = true) ->
  has_answer node (1 + Z.of_nat k) = false ->
  exists group,
    GroupCellFromCodeTag fuel node st = Ok (group, allocated 1 st)
    /\ get_prop "GroupType" group = Some (PGroup GC_TYPE_CODE)
    /\ get_prop "Answer" group
       = match code_answers node 1 k with
         | [] => None
         | l => Some (PPairs l)
         end.
Proof.
  intros Hf Hall Hend. unfold GroupCellFromCodeTag.
  unfold bind at 1. unfold GroupCell_new, MakeOwned, bind, liftA, fresh, ret.
  cbn [fst snd]. cbv zeta.
  match goal with
  | |- context [while_ fuel ?c ?b (1, ?g) ?s] =>
      pose proof (code_loop node k 1 g fuel s Hf Hall Hend) as L;
      set (g0 := g) in *
  end.
  unfold ret in L. rewrite L. cbn [snd]. rewrite <- allocated_1.
  eexists. split; [reflexivity|].
  assert (Ho : is_obj g0 = true) by (unfold g0; destruct (wx.eqb _ _); reflexivity).
  assert (Hn : get_prop "Answer" g0 = None)
    by (unfold g0; destruct (wx.eqb _ _); reflexivity).
  assert (Ht : get_prop "GroupType" g0 = Some (PGroup GC_TYPE_CODE))
    by (unfold g0; destruct (wx.eqb _ _); reflexivity).
  assert (K : forall l g,
             is_obj g = true ->
             is_obj (fold_left (fun g kv => push_pair "Answer" kv g) l g) = true
             /\ get_prop "GroupType"
                  (fold_left (fun g kv => push_pair "Answer" kv g) l g)
                = get_prop "GroupType" g).
  { clear. induction l as [|kv l IH]; intros g Hg; [split; [exact Hg | reflexivity]|].
    cbn [fold_left]. destruct (push_pair_answer kv g Hg) as [Ho' _].
    destruct (IH _ Ho') as [I1 I2]. split; [exact I1|]. rewrite I2.
    destruct g as [| | | |cls b ch pr]; try discriminate.
    unfold push_pair. destruct (get_prop "Answer" _) as [[]|];
      cbn [set_prop get_prop]; apply assoc_get_set_other; discriminate. }
  destruct (K (code_answers node 1 k) g0 Ho) as [K1 K2].
  pose proof (fold_push_answer (code_answers node 1 k) g0 Ho Hn) as A.
  set (g1 := fold_left _ _ g0) in *.
  clearbody g1. clearbody g0. clear L.
  unfold ParseCommonGroupCellAttrs.
  destruct (wx.eqb (GetAttribute node (wxT "hideToolTip") wxEmptyString) (wxT "true")).
  - destruct g1 as [| | | |cls b ch pr]; try discriminate.
    cbn [set_prop get_prop] in *.
    rewrite !assoc_get_set_other by discriminate.
    rewrite K2, A. split; [exact Ht|].
    destruct (code_answers node 1 k); reflexivity.
  - rewrite K2, A. split; [exact Ht|].
    destruct (code_answers node 1 k); reflexivity.
Qed.

End CodeAnswers.

Lemma GroupCellFromCodeTag_answers_witness :
  exists group,
    MathParser.GroupCellFromCodeTag 3 answers_doc MathParser.initial_state
    = MathParser.Ok (group, allocated 1 MathParser.initial_state)
    /\ get_prop "Answer" group
       = Some (PPairs [(wxT "Sure?", wxT "yes"); (wxT "Question #2", wxT "no")]).
Proof.
  destruct (GroupCellFromCodeTag_answers answers_doc 2 3 MathParser.initial_state)
    as (group & E & _ & A).
  - lia.
  - intros [|[|j]] Hj; [reflexivity | reflexivity | lia].
  - reflexivity.
  - exists group. split; [exact E | exact A].
Defined.

(** ** BreakUp: the draw chain of a broken cell *)

Section Chains.

(** A cell stays where it is. *)
Lemma SetNextToDraw_this (x : CellPtr) (c : Cell) :
  m_this (base_of (SetNextToDraw x c)) = m_this (base_of c).
Proof.
  destruct c as [b t l|b n a|b n u ba o co cl|b ba sb sp psb psp sc|k b ch pr];
    cbn [SetNextToDraw]; try (destruct b; reflexivity);
    destruct (m_isBrokenIntoLines b); destruct b; reflexivity.
Qed.

(** On a cell that is not broken into lines the link is the cell's own. *)
Lemma SetNextToDraw_link (x : CellPtr) (c : Cell) :
  m_isBrokenIntoLines (base_of c) = false ->
  m_nextToDraw (base_of (SetNextToDraw x c)) = x.
Proof.
  destruct c as [b t l|b n a|b n u ba o co cl|b ba sb sp psb psp sc|k b ch pr];
    cbn [SetNextToDraw base_of]; intros H; rewrite ?H; destruct b; reflexivity.
Qed.

(** The last cell of a chain, seen from its end. *)
Lemma on_last_rev {A} (f : A -> A) (p : list A) :
  rev (on_last f p) = match rev p with
                      | c :: r => f c :: r
                      | [] => []
                      end.
Proof.
  induction p as [|c p IH]; [reflexivity|].
  destruct p as [|d p]; [reflexivity|].
  change (on_last f (c :: d :: p)) with (c :: on_last f (d :: p)).
  cbn [rev] in *. rewrite IH.
  destruct (rev p ++ [d]) eqn:E; [|reflexivity].
  destruct (rev p); discriminate E.
Qed.

Lemma get_on_last (x : CellPtr) (p : OwningCellPtr) :
  get (on_last (SetNextToDraw x) p) = get p.
Proof.
  destruct p as [|c p]; [reflexivity|].
  destruct p as [|d p]; cbn [on_last get]; [|reflexivity].
  rewrite SetNextToDraw_this. reflexivity.
Qed.

Lemma get_on_head (x : CellPtr) (p : OwningCellPtr) :
  get (on_head (SetNextToDraw x) p) = get p.
Proof.
  destruct p as [|c p]; [reflexivity|]. cbn [on_head get].
  rewrite SetNextToDraw_this. reflexivity.
Qed.

Lemma last_link_on_last (x : CellPtr) (p : OwningCellPtr) :
  ends_unbroken p -> last_link (on_last (SetNextToDraw x) p) = x.
Proof.
  unfold ends_unbroken, last_link. rewrite on_last_rev.
  destruct (rev p) as [|c r]; [intros []|].
  apply SetNextToDraw_link.
Qed.

Lemma head_link_on_head (x : CellPtr) (p : OwningCellPtr) :
  starts_unbroken p -> head_link (on_head (SetNextToDraw x) p) = x.
Proof.
  destruct p as [|c p]; [intros []|]. apply SetNextToDraw_link.
Qed.

(** [FunCell::BreakUp] on a cell that is not broken, whose name and
    argument end in cells that are not broken either: it succeeds, and
    the draw chain then runs from the name ([GetNextToDrawImpl]), whose
    last cell is linked to the head of the argument, through the
    argument, whose last cell is linked to what followed the function
    cell before. *)
Theorem FunCell_BreakUp_draw_chain (f : FunCell.t) :
  m_isBrokenIntoLines (FunCell.base f) = false ->
  ends_unbroken (FunCell.m_nameCell f) ->
  ends_unbroken (FunCell.m_argCell f) ->
  let f' := snd (FunCell.BreakUp f) in
  fst (FunCell.BreakUp f) = true
  /\ FunCell.GetNextToDrawImpl f' = get (FunCell.m_nameCell f)
  /\ last_link (FunCell.m_nameCell f') = get (FunCell.m_argCell f)
  /\ last_link (FunCell.m_argCell f') = m_nextToDraw (FunCell.base f)
  /\ get (FunCell.m_argCell f') = get (FunCell.m_argCell f).
Proof.
  intros Hb Hn Ha. unfold FunCell.BreakUp. rewrite Hb. cbv zeta.
  cbn [fst snd FunCell.GetNextToDrawImpl FunCell.with_base FunCell.with_name
       FunCell.with_arg FunCell.m_nameCell FunCell.m_argCell FunCell.base].
  split; [reflexivity|].
  split; [apply get_on_last|].
  split; [apply last_link_on_last; exact Hn|].
  split; [|apply get_on_last].
  rewrite last_link_on_last by exact Ha.
  destruct (FunCell.base f); reflexivity.
Qed.

(** [LimitCell::BreakUp] on a cell that is not broken: it succeeds, and
    the draw chain runs through the name, the opening parenthesis, the
    base, the comma, the under child and the closing parenthesis, in that
    order, and goes on with what followed the limit cell before. *)
Theorem LimitCell_BreakUp_draw_chain (l : LimitCell.t) :
  m_isBrokenIntoLines (LimitCell.base l) = false ->
  ends_unbroken (LimitCell.m_name l) ->
  starts_unbroken (LimitCell.m_open l) ->
  ends_unbroken (LimitCell.m_base l) ->
  starts_unbroken (LimitCell.m_comma l) ->
  ends_unbroken (LimitCell.m_under l) ->
  starts_unbroken (LimitCell.m_close l) ->
  let l' := snd (LimitCell.BreakUp l) in
  fst (LimitCell.BreakUp l) = true
  /\ LimitCell.GetNextToDrawImpl l' = get (LimitCell.m_name l)
  /\ last_link (LimitCell.m_name l') = get (LimitCell.m_open l)
  /\ head_link (LimitCell.m_open l') = get (LimitCell.m_base l)
  /\ last_link (LimitCell.m_base l') = get (LimitCell.m_comma l)
  /\ head_link (LimitCell.m_comma l') = get (LimitCell.m_under l)
  /\ last_link (LimitCell.m_under l') = get (LimitCell.m_close l)
  /\ head_link (LimitCell.m_close l') = m_nextToDraw (LimitCell.base l).
Proof.
  intros Hb Hn Ho Hba Hc Hu Hcl. unfold LimitCell.BreakUp. rewrite Hb. cbv zeta.
  cbn [fst snd LimitCell.GetNextToDrawImpl LimitCell.with_base LimitCell.with_name
       LimitCell.with_open LimitCell.with_m_base LimitCell.with_comma
       LimitCell.with_under LimitCell.with_close
       LimitCell.m_name LimitCell.m_open LimitCell.m_base LimitCell.m_comma
       LimitCell.m_under LimitCell.m_close LimitCell.base].
  split; [reflexivity|].
  split; [apply get_on_last|].
  rewrite !last_link_on_last, !head_link_on_head by assumption.
  repeat split.
  destruct (LimitCell.base l); reflexivity.
Qed.

End Chains.

Lemma FunCell_BreakUp_draw_chain_witness :
  let f := FunCell.with_base (set_nextToDraw (Some 7%N)) (plain_fun "f" "(x)" false) in
  last_link (FunCell.m_nameCell (snd (FunCell.BreakUp f))) = Some 2%N
  /\ last_link (FunCell.m_argCell (snd (FunCell.BreakUp f))) = Some 7%N.
Proof.
  cbv zeta.
  destruct (FunCell_BreakUp_draw_chain
              (FunCell.with_base (set_nextToDraw (Some 7%N)) (plain_fun "f" "(x)" false)))
    as (_ & _ & L1 & L2 & _).
  - reflexivity.
  - reflexivity.
  - reflexivity.
  - split; [exact L1 | exact L2].
Defined.

Lemma LimitCell_BreakUp_draw_chain_witness :
  let l := LimitCell.with_base (set_nextToDraw (Some 9%N)) (plain_limit "x->0" "f(x)") in
  let l' := snd (LimitCell.BreakUp l) in
  [last_link (LimitCell.m_name l'); head_link (LimitCell.m_open l');
   last_link (LimitCell.m_base l'); head_link (LimitCell.m_comma l');
   last_link (LimitCell.m_under l'); head_link (LimitCell.m_close l')]
  = [Some 4; Some 3; Some 5; Some 2; Some 6; Some 9]%N.
Proof.
  cbv zeta.
  destruct (LimitCell_BreakUp_draw_chain
              (LimitCell.with_base (set_nextToDraw (Some 9%N))
                 (plain_limit "x->0" "f(x)")))
    as (_ & _ & L1 & L2 & L3 & L4 & L5 & L6);
    [reflexivity | reflexivity | reflexivity | reflexivity | reflexivity
     | reflexivity | reflexivity |].
  rewrite L1, L2, L3, L4, L5, L6. reflexivity.
Defined.

(** ** The required children of a function cell and of a limit cell *)



(** ** Witnesses for the general facts about elements *)

Lemma ParseTag_elements_absent_witness :
  exists st',
    MathParser.ParseTag (services := Plain.services) (Plain.env 0 None) 5
      [fn_minimal; v_x] true MathParser.initial_state
    = MathParser.Ok ([], st').
Proof.
  destruct (MathParser.ParseTag (services := Plain.services) (Plain.env 0 None) 5
              [fn_minimal; v_x] true MathParser.initial_state)
    as [[r st']| |] eqn:E.
  - exists st'.
    rewrite (ParseTag_elements_absent (services := Plain.services)
               (Plain.env 0 None) 5 [fn_minimal; v_x] true _ _ _
               ltac:(repeat constructor) E).
    reflexivity.
  - vm_compute in E. discriminate E.
  - vm_compute in E. discriminate E.
Defined.

Lemma fold_with_element_never_returns_witness :
  ~ exists r st',
      MathParser.ParseTag (services := Plain.services) (Plain.env 0 None) 9
        [folded_doc [Element "cell" [("type", "text")%string] []]] true
        MathParser.initial_state
      = MathParser.Ok (r, st').
Proof.
  intros (r & st' & E). revert E.
  apply (fold_with_element_never_returns (services := Plain.services)).
  reflexivity.
Defined.

(** ** Termination on documents without [cell] elements *)

Create HintDb small.

Section Terminates.
Context {services : CellServices}.
Variable env : MathParser.Environment.
Import MathParser.

Lemma small_tl k l : small k l -> small k (tl l).
Proof.
  destruct l as [|n l]; [tauto|]. unfold small. cbn.
  intros [H1 H2]. apply andb_true_iff in H1. split; [tauto | lia].
Qed.

Lemma small_skip k l : small k l -> small k (SkipWhitespaceNode l).
Proof.
  intros H. unfold SkipWhitespaceNode. destruct l as [|n l]; [exact H|].
  destruct (wxXmlNodeType_eqb _ _); [|exact H].
  destruct (_ <=? 1); [|exact H]. apply (small_tl k (n :: l) H).
Qed.

Lemma small_next k l : small k l -> small k (GetNextTag l).
Proof.
  intros H. unfold GetNextTag. apply small_skip.
  destruct l; [exact H|]. apply (small_tl k _ H).
Qed.

Lemma small_children k n l : small (S k) (n :: l) -> small k (GetChildren n).
Proof.
  unfold small. cbn [forallb nodes_size fold_right]. intros [H1 H2].
  apply andb_true_iff in H1. destruct H1 as [H1 _].
  destruct n as [ty nm ct at_ ch]. cbn in *.
  apply andb_true_iff in H1. split; [tauto|].
  unfold nodes_size. lia.
Qed.

Lemma skip_length l : (List.length (SkipWhitespaceNode l) <= List.length l)%nat.
Proof.
  unfold SkipWhitespaceNode. destruct l as [|n l]; [lia|].
  destruct (wxXmlNodeType_eqb _ _); [|lia].
  destruct (_ <=? 1); cbn; lia.
Qed.

Lemma next_length l : l <> [] -> (List.length (GetNextTag l) < List.length l)%nat.
Proof.
  destruct l as [|n l]; [congruence|]. intros _. unfold GetNextTag.
  pose proof (skip_length (GetNext (n :: l))). cbn in *. lia.
Qed.

Lemma small_length k l : small k l -> (List.length l < k)%nat.
Proof.
  intros [_ H]. revert k H. induction l as [|n l IH]; intros k H; cbn in *; [exact H|].
  destruct n as [ty nm ct at_ ch]. cbn in H.
  destruct k as [|k]; [lia|]. specialize (IH k). unfold nodes_size in IH. lia.
Qed.

Lemma next_skip_length l :
  l <> [] -> (List.length (GetNextTag (SkipWhitespaceNode l)) < List.length l)%nat.
Proof.
  intros H. pose proof (skip_length l) as S1.
  destruct (SkipWhitespaceNode l) as [|n r] eqn:E.
  - destruct l; [congruence | cbn; lia].
  - pose proof (next_length (n :: r) ltac:(discriminate)). lia.
Qed.

Lemma term_ret {A} (a : A) : terminates (ret a).
Proof. intros st; discriminate. Qed.

Lemma term_crash {A} : terminates (@crash A).
Proof. intros st; discriminate. Qed.

Lemma term_gets {A} (f : State -> A) : terminates (gets f).
Proof. intros st; discriminate. Qed.

Lemma term_modify (f : State -> State) : terminates (modify f).
Proof. intros st; discriminate. Qed.

Lemma term_liftA {A} (m : Alloc A) : terminates (liftA m).
Proof. intros st. unfold liftA. destruct (m _). discriminate. Qed.

Lemma term_bind {A B} (m : M A) (k : A -> M B) :
  terminates m -> (forall a, terminates (k a)) -> terminates (bind m k).
Proof.
  intros Hm Hk st. unfold bind.
  destruct (m st) as [[a st1]| |] eqn:E;
    [apply Hk | discriminate | exfalso; exact (Hm st E)].
Qed.

Lemma term_bind_post {A B} (Q : A -> Prop) (m : M A) (k : A -> M B) :
  terminates m -> returns_with Q m -> (forall a, Q a -> terminates (k a)) ->
  terminates (bind m k).
Proof.
  intros Hm HQ Hk st. unfold bind.
  destruct (m st) as [[a st1]| |] eqn:E;
    [|discriminate | exfalso; exact (Hm st E)].
  apply Hk. exact (HQ _ _ _ E).
Qed.

Lemma term_for_each {A S} (l : list A) (body : A -> S -> M S) :
  (forall a s, terminates (body a s)) -> forall s, terminates (for_each l body s).
Proof.
  intros Hb. induction l as [|a l IH]; intros s; simpl; [apply term_ret|].
  apply term_bind; [apply Hb | apply IH].
Qed.

(** A loop whose body terminates and makes a measure decrease ends within
    as many turns as the measure says. *)
Lemma term_while {S} (mu : S -> nat) (I : S -> Prop) (cond : S -> bool)
  (body : S -> M (step S)) :
  (forall s, I s -> cond s = true -> terminates (body s)) ->
  (forall s, I s -> cond s = true ->
             returns_with (fun r => match r with
                                    | Continue s' => I s' /\ (mu s' < mu s)%nat
                                    | Break _ => True
                                    end) (body s)) ->
  forall fuel s, I s -> (mu s < fuel)%nat -> terminates (while_ fuel cond body s).
Proof.
  intros Hb Hp. induction fuel as [|fuel IH]; intros s HI Hm; [lia|].
  cbn [while_]. destruct (cond s) eqn:Ec; [|apply term_ret].
  apply term_bind_post with (Q := fun r => match r with
                                           | Continue s' => I s' /\ (mu s' < mu s)%nat
                                           | Break _ => True
                                           end).
  - apply Hb; assumption.
  - apply Hp; assumption.
  - intros [s'|s'] H; [|apply term_ret]. destruct H as [HI' Hm'].
    apply IH; [exact HI' | lia].
Qed.


(** The proof follows the structure of the routine. *)
Ltac term_step :=
  cbv beta zeta;
  lazymatch goal with
  | |- terminates (ret _) => apply term_ret
  | |- terminates crash => apply term_crash
  | |- terminates (gets _) => apply term_gets
  | |- terminates (modify _) => apply term_modify
  | |- terminates (liftA _) => apply term_liftA
  | |- terminates (bind _ _) => apply term_bind; [|intros ?]
  | |- terminates (for_each _ _ _) => apply term_for_each; intros ? ?
  | |- terminates (if ?c then _ else _) => destruct c
  | |- terminates (match ?x with _ => _ end) => destruct x
  | |- _ => solve [auto 12 with small]
  end.

Ltac term_auto := repeat term_step.

Lemma term_MakeOwned cls parent : terminates (MakeOwned cls parent).
Proof. unfold MakeOwned. term_auto. Qed.

Lemma term_HandleNullPointer p : terminates (HandleNullPointer p).
Proof. unfold HandleNullPointer. term_auto. Qed.

#[local] Hint Resolve term_MakeOwned term_HandleNullPointer small_skip small_next
  : small.

Lemma term_ParseText n s : terminates (ParseText n s).
Proof. unfold ParseText. term_auto. Qed.

Lemma term_typed_variable c : terminates (typed_variable c).
Proof. unfold typed_variable. term_auto. Qed.

Lemma term_ParseEditorTag n : terminates (ParseEditorTag n).
Proof. unfold ParseEditorTag. term_auto. Qed.

#[local] Hint Resolve term_ParseText term_typed_variable term_ParseEditorTag
  : small.

Variable rec : wxXmlNodePtr -> bool -> M OwningCellPtr.
Variable k : nat.
Hypothesis Hrec : forall l a, small k l -> terminates (rec l a).

Lemma term_parse_child l a : small k l -> terminates (parse_child rec l a).
Proof. intros H. unfold parse_child. term_auto. Qed.

#[local] Hint Resolve Hrec term_parse_child : small.

(** The loop of [ParseSubSupTag] over the children that carry a [pos]. *)
Lemma term_ParseSubSupTag n :
  small k (GetChildren n) -> terminates (ParseSubSupTag rec (S k) n).
Proof.
  intros Hn. unfold ParseSubSupTag.
  apply term_bind; [apply term_liftA|]. intros subsup. cbv zeta.
  apply term_bind; [auto with small|]. intros base.
  destruct (match GetNextTag _ with [] => false | _ => _ end); [|term_auto].
  apply term_bind; [|intros r; apply term_ret].
  apply term_while with (mu := fun s => List.length (fst s))
                        (I := fun s => small k (fst s)).
  - intros [child s] HI _. cbn [fst] in HI. term_auto.
  - intros [child s] HI Hc st r st' E. cbn [fst] in *. cbv zeta in E.
    apply bind_Ok in E. destruct E as (cell & st1 & _ & E).
    apply ret_Ok in E. destruct E as [-> _]. cbn [fst]. split.
    + auto with small.
    + apply next_skip_length. destruct child; [discriminate Hc | discriminate].
  - cbn [fst]. auto with small.
  - cbn [fst]. apply Nat.lt_lt_succ_r. apply small_length. auto with small.
Qed.


(** The loop of [ParseMmultiscriptsTag]. *)
Lemma term_ParseMmultiscriptsTag n :
  small k (GetChildren n) -> terminates (ParseMmultiscriptsTag rec (S k) n).
Proof.
  intros Hn. unfold ParseMmultiscriptsTag.
  apply term_bind; [apply term_liftA|]. intros subsup. cbv zeta.
  apply term_bind; [auto with small|]. intros base.
  apply term_bind; [|intros r; apply term_ret].
  apply term_while with (mu := fun s => List.length (fst (fst (fst s))))
                        (I := fun s => small k (fst (fst (fst s)))).
  - intros [[[child pre] sub] s] HI _. cbn [fst] in HI.
    destruct child as [|c child]; [apply term_ret|]. term_auto.
  - intros [[[child pre] sub] s] HI Hc st r st' E. cbn [fst] in *.
    destruct child as [|c child]; [discriminate Hc|].
    destruct (wx.eqb (GetName c) (wxT "mprescripts")).
    + apply ret_Ok in E. destruct E as [-> _]. cbn [fst]. split.
      * auto with small.
      * apply next_length. discriminate.
    + apply bind_Ok in E. destruct E as (s1 & st1 & _ & E).
      apply ret_Ok in E. destruct E as [-> _]. cbn [fst]. split.
      * auto with small.
      * apply next_skip_length. discriminate.
  - cbn [fst]. auto with small.
  - cbn [fst]. apply Nat.lt_lt_succ_r. apply small_length. auto with small.
Qed.

(** The children of a node of a small list make a small list. *)
Lemma small_row l :
  small k l ->
  small k (match l with r :: _ => GetChildren r | [] => [] end).
Proof.
  intros H. destruct l as [|r l]; [exact H|].
  destruct k as [|k']; [destruct H as [_ H]; lia|].
  pose proof (small_children k' r l H) as [H1 H2]. split; [exact H1 | lia].
Qed.

(** The two loops of [ParseTableTag], over the rows and over the cells of
    a row. *)
Lemma term_ParseTableTag n :
  small k (GetChildren n) -> terminates (ParseTableTag rec (S k) n).
Proof.
  intros Hn. unfold ParseTableTag.
  apply term_bind; [auto with small|]. intros matrix.
  apply term_bind; [apply term_gets|]. intros highlight. cbv zeta.
  apply term_bind; [|intros r; term_auto].
  apply term_while with (mu := fun s => List.length (fst s))
                        (I := fun s => small k (fst s)).
  - intros [rows m] HI _. cbn [fst] in HI. cbv zeta.
    apply term_bind; [|intros c; apply term_ret].
    apply term_while with (mu := fun s => List.length (fst s))
                          (I := fun s => small k (fst s)).
    + intros [cells m1] HI1 _. cbn [fst] in HI1. term_auto.
    + intros [cells m1] HI1 Hc st r st' E. cbn [fst] in *. cbv zeta in E.
      apply bind_Ok in E. destruct E as (cell & st1 & _ & E).
      apply ret_Ok in E. destruct E as [-> _]. cbn [fst]. split.
      * auto with small.
      * apply next_length. destruct cells; [discriminate Hc | discriminate].
    + cbn [fst]. apply small_skip. apply small_row. exact HI.
    + cbn [fst]. apply Nat.lt_lt_succ_r. apply small_length.
      apply small_skip. apply small_row. exact HI.
  - intros [rows m] HI Hc st r st' E. cbn [fst] in *. cbv zeta in E.
    apply bind_Ok in E. destruct E as (c & st1 & _ & E).
    apply ret_Ok in E. destruct E as [-> _]. cbn [fst]. split.
    + auto with small.
    + apply next_length. destruct rows; [discriminate Hc | discriminate].
  - cbn [fst]. auto with small.
  - cbn [fst]. apply Nat.lt_lt_succ_r. apply small_length. auto with small.
Qed.

(** Every routine of the table but the one bound to [cell] terminates on
    an element whose children make a small list. *)
Lemma term_m_innerTags :
  Forall (fun e => fst e = wxT "cell"
                   \/ forall n, small k (GetChildren n) -> terminates (snd e n))
         (m_innerTags env rec (S k)).
Proof.
  unfold m_innerTags.
  repeat (apply Forall_cons; [cbn [fst snd]|]); try apply Forall_nil.
  all: try (left; reflexivity).
  all: right; intros n Hn.
  all: try (apply term_ParseSubSupTag; exact Hn);
       try (apply term_ParseMmultiscriptsTag; exact Hn);
       try (apply term_ParseTableTag; exact Hn);
       try apply term_ParseEditorTag.
  all: unfold ParseVariableNameTag, ParseOperatorNameTag, ParseMiscTextTag,
         ParseNumberTag, ParseParenTag, ParseFracTag, ParseSupTag, ParseSubTag,
         ParseFunTag, ParseGreekTag, ParseSpecialConstantTag,
         ParseFunctionNameTag, ParseSqrtTag, ParseAbsTag, ParseConjugateTag,
         parse_inner, ParseDiffTag, ParseSumTag, ParseIntTag, ParseSpaceTag,
         ParseAtTag, ParseLimitTag, ParseTagContents, ParseMthTag,
         ParseOutputLabelTag, ParseStringTag, ParseHighlightTag,
         ParseHiddenOperatorTag, ParseImageTag, ParseSlideshowTag, ParseCharCode;
       term_auto.
Qed.


(** [append_at_cursor] leaves the node where it is. *)
Lemma post_append_at_cursor (p : OwningCellPtr) (l : locals) :
  returns_with (fun l1 => node l1 = node l) (append_at_cursor p l).
Proof.
  unfold append_at_cursor. destruct (cell l); [apply post_crash | |];
    apply post_ret; reflexivity.
Qed.

(** One turn of the loop of [ParseTag] moves to the next tag. *)
Lemma post_ParseTag_body (all : bool) (l : locals) :
  returns_with (fun r => match r with
                         | Continue l' | Break l' => node l' = GetNextTag (node l)
                         end)
               (ParseTag_body env rec (S k) all l).
Proof.
  unfold ParseTag_body. destruct (node l) as [|n rest] eqn:En.
  - apply post_ret. exact En.
  - apply post_bind with (Q := fun l1 => node l1 = n :: rest).
    + destruct (wxXmlNodeType_eqb (GetType n) wxXML_ELEMENT_NODE).
      * cbv zeta. apply post_any. intros tmp. apply post_any. intros tmp2.
        destruct (is_null tmp2); [|apply post_ret; exact En].
        destruct (cursor_is_null (cell l)).
        -- apply post_ret. exact En.
        -- rewrite <- En. apply post_append_at_cursor.
      * destruct (cursor_is_null (cell l)).
        -- apply post_any. intros t. apply post_ret. exact En.
        -- apply post_any. intros t. rewrite <- En. apply post_append_at_cursor.
    + intros l1 H1.
      apply post_bind with (Q := fun l2 => node l2 = n :: rest).
      * destruct (negb (cursor_is_null (cell l1))).
        -- destruct (is_null (retval l1)); apply post_ret; exact H1.
        -- destruct (warning l1 && negb all); [|apply post_ret; exact H1].
           cbv zeta. destruct (negb _).
           ++ apply post_any. intros _. apply post_ret. exact H1.
           ++ apply post_ret. exact H1.
      * intros l2 H2. cbv zeta. rewrite H2.
        destruct (negb all); apply post_ret; reflexivity.
Qed.

Lemma cell_free_name (n : wxXmlNode) :
  cell_free n = true -> GetName n <> wxT "cell".
Proof.
  destruct n as [ty nm ct at_ ch]. cbn. intros H E. subst nm.
  apply andb_true_iff in H. destruct H as [H _]. discriminate H.
Qed.

Lemma term_ParseTag_body (all : bool) (l : locals) :
  small (S k) (node l) -> terminates (ParseTag_body env rec (S k) all l).
Proof.
  intros Hl. unfold ParseTag_body. destruct (node l) as [|n rest] eqn:En.
  - apply term_ret.
  - assert (Hc : small k (GetChildren n)) by exact (small_children k n rest Hl).
    assert (Hn : GetName n <> wxT "cell").
    { apply cell_free_name. destruct Hl as [Hl _]. cbn in Hl.
      apply andb_true_iff in Hl. tauto. }
    apply term_bind.
    + destruct (wxXmlNodeType_eqb (GetType n) wxXML_ELEMENT_NODE).
      * cbv zeta. apply term_bind.
        -- destruct (lookup _ _) as [f|] eqn:E; [|apply term_ret].
           destruct (lookup_Forall _ _ _ _ term_m_innerTags E) as [H|H].
           ++ cbn [fst] in H. congruence.
           ++ apply H. exact Hc.
        -- intros tmp. apply term_bind; [|intros tmp2].
           ++ destruct (is_null tmp && non_null (GetChildren n));
                [apply Hrec; exact Hc | apply term_ret].
           ++ unfold append_at_cursor. term_auto.
      * unfold append_at_cursor. term_auto.
    + intros l1. apply term_bind; [|intros l2; term_auto].
      unfold LoggingMessageBox. term_auto.
Qed.

Lemma term_ParseTag_step (nodes : wxXmlNodePtr) (all : bool) :
  small (S k) nodes -> terminates (ParseTag_step env rec (S k) nodes all).
Proof.
  intros Hn. unfold ParseTag_step. cbv zeta.
  apply term_bind; [|intros l; apply term_ret].
  apply term_while with (mu := fun l => List.length (node l))
                        (I := fun l => small (S k) (node l)).
  - intros l HI _. apply term_ParseTag_body. exact HI.
  - intros l HI Hc st r st' E.
    pose proof (post_ParseTag_body all l st r st' E) as P.
    destruct r as [l'|l']; [|exact I].
    rewrite P. split; [apply small_next; exact HI|].
    apply next_length. destruct (node l); [discriminate Hc | discriminate].
  - cbn [node]. apply small_skip. exact Hn.
  - cbn [node]. apply small_length. apply small_skip. exact Hn.
Qed.

End Terminates.

(** A document without [cell] elements is parsed in finitely many steps:
    with more turns than the document has nodes, [ParseTag] returns a
    list of cells or crashes on a null pointer, and never uses the turns
    up.  Every loop of the routines it reaches moves to a next sibling
    at each turn, and every recursive call is on the children of a node. *)
Theorem ParseTag_terminates {services : CellServices}
  (env : MathParser.Environment) (fuel : nat) (nodes : wxXmlNodePtr) (all : bool)
  (st : MathParser.State) :
  forallb cell_free nodes = true ->
  (nodes_size nodes < fuel)%nat ->
  MathParser.ParseTag env fuel nodes all st <> MathParser.OutOfFuel.
Proof.
  intros Hc Hs. revert nodes all st Hc Hs.
  induction fuel as [|k IH]; intros nodes all st Hc Hs; [lia|].
  cbn [MathParser.ParseTag].
  apply (term_ParseTag_step env (MathParser.ParseTag env k) k).
  - intros l a [H1 H2] st1. apply IH; assumption.
  - split; assumption.
Qed.


Lemma ParseTag_terminates_witness :
  MathParser.ParseTag (services := Plain.services) (Plain.env 0 None) 7
    [highlighted_diff] true MathParser.initial_state
  <> MathParser.OutOfFuel.
Proof.
  apply (ParseTag_terminates (services := Plain.services)).
  - reflexivity.
  - vm_compute. lia.
Defined.
